(** * Verification of the Ethereum event API of venus

    Shallow embedding of [app/submodule/eth/eth_event_api.go]: the log
    decoder, the block range parser, the wait on the event index, the
    filter installation API and the subscription pipeline, with the
    properties of the specification that concern them. *)

From Stdlib Require Import ZArith List Lia Bool Ascii String.
From stdpp Require Import gmap strings list fin_maps.

Local Open Scope Z_scope.

(** ** Machine integers

    [abi.ChainEpoch] is Go's [int64], [types.EthUint64] is [uint64] and
    [int] is 64 bits wide on the platforms venus supports.  Values live in
    [Z]; every arithmetic result is wrapped explicitly. *)

Module Int64.

Definition modulus : Z := 2 ^ 64.
Definition half_modulus : Z := 2 ^ 63.
Definition min_signed : Z := - half_modulus.
Definition max_signed : Z := half_modulus - 1.

(** Two's complement reading of the low 64 bits. *)
Definition signed (z : Z) : Z :=
  let u := z mod modulus in
  if u <? half_modulus then u else u - modulus.

(** Reading of the low 64 bits as an unsigned number. *)
Definition unsigned (z : Z) : Z := z mod modulus.

Definition in_range (z : Z) : Prop := min_signed <= z <= max_signed.

Definition add (x y : Z) : Z := signed (x + y).
Definition sub (x y : Z) : Z := signed (x - y).

Lemma signed_id z : in_range z -> signed z = z.
Proof.
  unfold in_range, signed, min_signed, max_signed, half_modulus, modulus.
  intros Hz.
  destruct (Z_lt_dec z 0) as [Hneg|Hpos].
  - replace (z mod 2 ^ 64) with (z + 2 ^ 64).
    + destruct (Z.ltb_spec (z + 2 ^ 64) (2 ^ 63)); lia.
    + apply Z.mod_unique with (q := -1); lia.
  - rewrite Z.mod_small by lia.
    destruct (Z.ltb_spec z (2 ^ 63)); lia.
Qed.

Lemma signed_range z : in_range (signed z).
Proof.
  unfold in_range, signed, min_signed, max_signed, half_modulus, modulus.
  pose proof (Z.mod_pos_bound z (2 ^ 64) ltac:(lia)) as Hb.
  destruct (Z.ltb_spec (z mod 2 ^ 64) (2 ^ 63)); lia.
Qed.

End Int64.

(** Go's [(value, error)] pairs: a call either yields a value or an error. *)
Inductive result (E A : Type) : Type :=
| Ok (a : A)
| Err (e : E).
Arguments Ok {E A} a.
Arguments Err {E A} e.

(** ** Log assembly: [ethLogFromEvent] and [ethFilterLogsFromEvents] *)

Module EventLog.

(** [types.EventEntry]. *)
Record EventEntry := {
  Flags : Z;
  Key : string;
  Codec : Z;
  Value : list Byte.byte;
}.

(** [cid.Raw], the multicodec code of raw bytes. *)
Definition Raw : Z := 85.

#[global] Instance byte_eq_dec : EqDecision Byte.byte := Byte.byte_eq_dec.

(** [types.EthHash] is [[32]byte]. *)
Definition EthHashLength : nat := 32.
Definition EthHash : Type := list Byte.byte.
Definition zeroHash : EthHash := replicate EthHashLength Byte.x00.

(** Go's [copy(dst, src)]: the first [min (len dst) (len src)] bytes of
    [dst] are overwritten. *)
Definition copy (dst src : list Byte.byte) : list Byte.byte :=
  let n := Nat.min (length dst) (length src) in
  take n src ++ drop n dst.

(** [len(entry.Key) == 2 && "t1" <= entry.Key && entry.Key <= "t4"];
    Go compares strings bytewise in lexicographic order. *)
Definition isTopicKey (k : string) : bool :=
  Nat.eqb (String.length k) 2 && String.leb "t1" k && String.leb k "t4".

(** [int(entry.Key[1] - '1')], a subtraction of bytes. *)
Definition topicIndex (k : string) : nat :=
  match String.get 1 k with
  | Some c => Z.to_nat ((Z.of_nat (nat_of_ascii c) - 49) mod 256)
  | None => 0%nat
  end.

(** The local variables of [ethLogFromEvent]. *)
Record decodeState := {
  topicsFound : list bool;
  topicsFoundCount : Z;
  dataFound : bool;
  data : list Byte.byte;
  topics : list EthHash;
}.

Definition initState : decodeState := {|
  topicsFound := replicate 4 false;
  topicsFoundCount := 0;
  dataFound := false;
  data := [];
  topics := [];
|}.

(** [for len(topics) <= idx { topics = append(topics, types.EthHash{}) }] *)
Definition extendTopics (ts : list EthHash) (idx : nat) : list EthHash :=
  ts ++ replicate (S idx - length ts) zeroHash.

(** One iteration of the loop over the entries; [None] is the early
    [return nil, nil, false]. *)
Definition decodeEntry (st : decodeState) (entry : EventEntry)
  : option decodeState :=
  if negb (Z.eqb (Codec entry) Raw) then None
  else if isTopicKey (Key entry) then
    let idx := topicIndex (Key entry) in
    if negb (Nat.eqb (length (Value entry)) 32) then None
    else if default false (topicsFound st !! idx) then None
    else
      let ts := extendTopics (topics st) idx in
      Some {| topicsFound := <[idx := true]> (topicsFound st);
              topicsFoundCount := Int64.add (topicsFoundCount st) 1;
              dataFound := dataFound st;
              data := data st;
              topics := <[idx := copy (default zeroHash (ts !! idx))
                                       (Value entry)]> ts |}
  else if String.eqb (Key entry) "d" then
    if dataFound st then None
    else Some {| topicsFound := topicsFound st;
                 topicsFoundCount := topicsFoundCount st;
                 dataFound := true;
                 data := Value entry;
                 topics := topics st |}
  else Some st.

Fixpoint decodeLoop (entries : list EventEntry) (st : decodeState)
  : option decodeState :=
  match entries with
  | [] => Some st
  | entry :: rest =>
      match decodeEntry st entry with
      | None => None
      | Some st' => decodeLoop rest st'
      end
  end.

(** [ethLogFromEvent]: [Some (data, topics)] stands for [ok = true]. *)
Definition ethLogFromEvent (entries : list EventEntry)
  : option (list Byte.byte * list EthHash) :=
  match decodeLoop entries initState with
  | None => None
  | Some st =>
      if negb (Z.eqb (Z.of_nat (length (topics st))) (topicsFoundCount st))
      then None
      else Some (data st, topics st)
  end.

(** The body of the loop, dispatched on the slot of the label. *)
Definition decodeTopic (st : decodeState) (idx : nat) (entry : EventEntry)
  : option decodeState :=
  if negb (Nat.eqb (length (Value entry)) 32) then None
  else if default false (topicsFound st !! idx) then None
  else
    let ts := extendTopics (topics st) idx in
    Some {| topicsFound := <[idx := true]> (topicsFound st);
            topicsFoundCount := Int64.add (topicsFoundCount st) 1;
            dataFound := dataFound st;
            data := data st;
            topics := <[idx := copy (default zeroHash (ts !! idx))
                                     (Value entry)]> ts |}.

(** *** The labelling scheme in the words of the specification *)

(** The slot of a positional topic label: ["t1"] is slot 0. *)
Definition topicSlot (k : string) : option nat :=
  if String.eqb k "t1" then Some 0%nat
  else if String.eqb k "t2" then Some 1%nat
  else if String.eqb k "t3" then Some 2%nat
  else if String.eqb k "t4" then Some 3%nat
  else None.

(** The slots claimed by the topic entries, in the order of the entries. *)
Definition topicSlots (entries : list EventEntry) : list nat :=
  omap (fun e => topicSlot (Key e)) entries.

(** The entries labelled ["d"]. *)
Definition dataEntries (entries : list EventEntry) : list EventEntry :=
  List.filter (fun e => String.eqb (Key e) "d") entries.

Definition hasNonRawCodec (entries : list EventEntry) : Prop :=
  Exists (fun e => Codec e <> Raw) entries.

Definition hasMisSizedTopic (entries : list EventEntry) : Prop :=
  Exists (fun e => is_Some (topicSlot (Key e)) /\ length (Value e) <> 32%nat)
         entries.

Definition hasDuplicateTopic (entries : list EventEntry) : Prop :=
  ~ NoDup (topicSlots entries).

Definition hasSecondData (entries : list EventEntry) : Prop :=
  (2 <= length (dataEntries entries))%nat.

(** Some slot is filled while a lower one is not. *)
Definition hasTopicGap (entries : list EventEntry) : Prop :=
  exists s s' : nat,
    (s' < s)%nat /\ s ∈ topicSlots entries /\ s' ∉ topicSlots entries.

(** One more than the highest slot claimed, 0 when no slot is claimed. *)
Definition slotBound (l : list nat) : nat :=
  foldr (fun s m => Nat.max (S s) m) 0%nat l.

(** *** The loop invariant *)

(** The invariant of the loop of [ethLogFromEvent]; [pre] is the list of
    entries already processed. *)
Record decodeInv (pre : list EventEntry) (st : decodeState) : Prop := {
  inv_raw : Forall (fun e => Codec e = Raw) pre;
  inv_size :
    Forall (fun e => is_Some (topicSlot (Key e)) -> length (Value e) = 32%nat)
           pre;
  inv_nodup : NoDup (topicSlots pre);
  inv_data_once : (length (dataEntries pre) <= 1)%nat;
  inv_dataFound : dataFound st = true <-> dataEntries pre <> [];
  inv_found_len : length (topicsFound st) = 4%nat;
  inv_found : forall s, topicsFound st !! s = Some true <-> s ∈ topicSlots pre;
  inv_count : topicsFoundCount st = Z.of_nat (length (topicSlots pre));
  inv_topics_len : length (topics st) = slotBound (topicSlots pre);
  inv_topics_size : Forall (fun h : EthHash => length h = 32%nat) (topics st);
  inv_topics :
    forall e s, e ∈ pre -> topicSlot (Key e) = Some s ->
                topics st !! s = Some (Value e);
}.

(** What makes the loop give up at entry [e] after the entries [pre]. *)
Definition rejects (pre : list EventEntry) (e : EventEntry) : Prop :=
  Codec e <> Raw
  \/ (is_Some (topicSlot (Key e)) /\ length (Value e) <> 32%nat)
  \/ (exists s, topicSlot (Key e) = Some s /\ s ∈ topicSlots pre)
  \/ (Key e = "d" /\ dataEntries pre <> []).

(** An entry list that one of the four per-entry rules excludes. *)
Definition invalid (l : list EventEntry) : Prop :=
  hasNonRawCodec l \/ hasMisSizedTopic l \/ hasDuplicateTopic l
  \/ hasSecondData l.

(** *** Collected events and logs *)

Definition Address : Type := string.
Definition Cid : Type := string.
Definition TipSetKey : Type := string.
Definition EthAddress : Type := list Byte.byte.
Definition error : Type := string.

(** [filter.CollectedEvent]. *)
Record CollectedEvent := {
  Entries : list EventEntry;
  EmitterAddr : Address;
  EventIdx : Z;
  Reverted : bool;
  Height : Z;
  EventTipSetKey : TipSetKey;
  MsgIdx : Z;
  MsgCid : Cid;
}.

(** [types.EthLog]. *)
Record EthLog := {
  LogAddress : EthAddress;
  Data : list Byte.byte;
  Topics : list EthHash;
  Removed : bool;
  LogIndex : Z;
  TransactionIndex : Z;
  TransactionHash : EthHash;
  BlockHash : EthHash;
  BlockNumber : Z;
}.

(** [types.EmptyEthHash]. *)
Definition EmptyEthHash : EthHash := zeroHash.

(** The elements of [EthFilterResult.Results]. *)
Inductive resultItem :=
| ResLog (l : EthLog)
| ResHash (h : EthHash).

Record EthFilterResult := { Results : list resultItem }.

(** *** Sample events *)

(** An event with one topic, one data field and one unknown label. *)
Definition sampleTopic : list Byte.byte := replicate 32 Byte.x2a.

Definition sampleEntries : list EventEntry :=
  [ {| Flags := 3; Key := "t1"; Codec := Raw; Value := sampleTopic |};
    {| Flags := 3; Key := "x"; Codec := Raw; Value := [Byte.x01] |};
    {| Flags := 3; Key := "d"; Codec := Raw; Value := [Byte.x07] |} ].

(** An event whose only entry carries the CBOR codec. *)
Definition cborEvent : CollectedEvent := {|
  Entries := [ {| Flags := 3; Key := "t1"; Codec := 81; Value := sampleTopic |} ];
  EmitterAddr := "f410f";
  EventIdx := 0;
  Reverted := false;
  Height := 10;
  EventTipSetKey := "tsk";
  MsgIdx := 0;
  MsgCid := "msg";
|}.

Section FilterLogs.

(** Conversions that live outside this file; each may fail. *)
Variable EthAddressFromFilecoinAddress : Address -> result error EthAddress.
Variable ethTxHashFromMessageCid : Cid -> result error EthHash.
Variable TipSetKeyCid : TipSetKey -> result error Cid.
Variable EthHashFromCid : Cid -> result error EthHash.

(** The loop of [ethFilterLogsFromEvents]; [logs] is the slice built so
    far, a skipped event is Go's [continue]. *)
Fixpoint filterLogsLoop (evs : list CollectedEvent) (logs : list EthLog)
  : result error (list EthLog) :=
  match evs with
  | [] => Ok logs
  | ev :: rest =>
      match ethLogFromEvent (Entries ev) with
      | None => filterLogsLoop rest logs
      | Some (d, ts) =>
          match EthAddressFromFilecoinAddress (EmitterAddr ev) with
          | Err e => Err e
          | Ok addr =>
              match ethTxHashFromMessageCid (MsgCid ev) with
              | Err e => Err e
              | Ok txHash =>
                  if bool_decide (txHash = EmptyEthHash)
                  then filterLogsLoop rest logs
                  else
                    match TipSetKeyCid (EventTipSetKey ev) with
                    | Err e => Err e
                    | Ok c =>
                        match EthHashFromCid c with
                        | Err e => Err e
                        | Ok blockHash =>
                            filterLogsLoop rest
                              (logs ++
                               [ {| LogAddress := addr;
                                    Data := d;
                                    Topics := ts;
                                    Removed := Reverted ev;
                                    LogIndex := Int64.unsigned (EventIdx ev);
                                    TransactionIndex :=
                                      Int64.unsigned (MsgIdx ev);
                                    TransactionHash := txHash;
                                    BlockHash := blockHash;
                                    BlockNumber :=
                                      Int64.unsigned (Height ev) |} ])
                        end
                    end
              end
          end
      end
  end.

Definition ethFilterLogsFromEvents (evs : list CollectedEvent)
  : result error (list EthLog) :=
  filterLogsLoop evs [].

Definition ethFilterResultFromEvents (evs : list CollectedEvent)
  : result error EthFilterResult :=
  match ethFilterLogsFromEvents evs with
  | Err e => Err e
  | Ok logs => Ok {| Results := map ResLog logs |}
  end.

(** *** Labels and slots *)

Lemma isTopicKey_slot k :
  isTopicKey k = true -> topicSlot k = Some (topicIndex k).
Proof.
  unfold isTopicKey. intros H.
  apply andb_true_iff in H as [H H4]. apply andb_true_iff in H as [Hlen H1].
  destruct k as [|a [|b [|? ?]]]; simpl in Hlen; try discriminate.
  unfold String.leb in H1, H4. simpl in H1, H4.
  unfold Ascii.compare in H1, H4.
  remember (N_of_ascii a) as na eqn:Ha.
  remember (N_of_ascii b) as nb eqn:Hb.
  change (N_of_ascii "t") with 116%N in H1, H4.
  change (N_of_ascii "1") with 49%N in H1.
  change (N_of_ascii "4") with 52%N in H4.
  assert (Hna : na = 116%N).
  { destruct (N.compare_spec 116 na); destruct (N.compare_spec na 116);
      try lia; try discriminate. }
  rewrite Hna, N.compare_refl in H1, H4.
  assert (Hnb : (49 <= nb <= 52)%N).
  { destruct (N.compare_spec 49 nb); destruct (N.compare_spec nb 52);
      try lia; try discriminate. }
  assert (Ea : a = "t"%char).
  { rewrite <- (ascii_N_embedding a), <- Ha, Hna. reflexivity. }
  assert (Eb : b = ascii_of_N nb).
  { rewrite Hb. symmetry. apply ascii_N_embedding. }
  subst a.
  assert (Hc : nb = 49%N \/ nb = 50%N \/ nb = 51%N \/ nb = 52%N) by lia.
  destruct Hc as [Hc | [Hc | [Hc | Hc]]]; rewrite Hc in Eb; subst b;
    reflexivity.
Qed.

Lemma topicSlot_isTopicKey k s :
  topicSlot k = Some s -> isTopicKey k = true /\ (s < 4)%nat.
Proof.
  unfold topicSlot. intros H.
  destruct (String.eqb_spec k "t1") as [->|_]; [inversion H; split; [reflexivity|lia]|].
  destruct (String.eqb_spec k "t2") as [->|_]; [inversion H; split; [reflexivity|lia]|].
  destruct (String.eqb_spec k "t3") as [->|_]; [inversion H; split; [reflexivity|lia]|].
  destruct (String.eqb_spec k "t4") as [->|_]; [inversion H; split; [reflexivity|lia]|].
  discriminate.
Qed.

Lemma topicSlot_not_data k s : topicSlot k = Some s -> String.eqb k "d" = false.
Proof.
  intros H. destruct (String.eqb_spec k "d") as [->|]; [discriminate|reflexivity].
Qed.

Lemma isTopicKey_false k : isTopicKey k = false -> topicSlot k = None.
Proof.
  intros H. destruct (topicSlot k) as [s|] eqn:E; [|reflexivity].
  apply topicSlot_isTopicKey in E as [E _]. congruence.
Qed.

Lemma decodeEntry_topic st e s :
  Codec e = Raw -> topicSlot (Key e) = Some s ->
  decodeEntry st e = decodeTopic st s e.
Proof.
  intros Hc Hs. unfold decodeEntry, decodeTopic.
  rewrite Hc, Z.eqb_refl. simpl.
  destruct (topicSlot_isTopicKey _ _ Hs) as [Hk _]. rewrite Hk.
  apply isTopicKey_slot in Hk. rewrite Hs in Hk. inversion Hk. reflexivity.
Qed.

Lemma decodeEntry_data st e :
  Codec e = Raw -> Key e = "d" ->
  decodeEntry st e =
    if dataFound st then None
    else Some {| topicsFound := topicsFound st;
                 topicsFoundCount := topicsFoundCount st;
                 dataFound := true;
                 data := Value e;
                 topics := topics st |}.
Proof.
  intros Hc Hk. unfold decodeEntry. rewrite Hc, Z.eqb_refl, Hk. reflexivity.
Qed.

Lemma decodeEntry_other st e :
  Codec e = Raw -> topicSlot (Key e) = None -> Key e <> "d" ->
  decodeEntry st e = Some st.
Proof.
  intros Hc Hs Hk. unfold decodeEntry. rewrite Hc, Z.eqb_refl. simpl.
  destruct (isTopicKey (Key e)) eqn:E.
  - apply isTopicKey_slot in E. congruence.
  - destruct (String.eqb_spec (Key e) "d"); [contradiction|reflexivity].
Qed.

Lemma decodeEntry_nonraw st e : Codec e <> Raw -> decodeEntry st e = None.
Proof.
  intros Hc. unfold decodeEntry.
  destruct (Z.eqb_spec (Codec e) Raw); [contradiction|reflexivity].
Qed.

Lemma decodeLoop_app l1 l2 st :
  decodeLoop (l1 ++ l2) st =
  match decodeLoop l1 st with
  | None => None
  | Some st' => decodeLoop l2 st'
  end.
Proof.
  revert st. induction l1 as [|e l1 IH]; intros st; simpl; [reflexivity|].
  destruct (decodeEntry st e); [apply IH|reflexivity].
Qed.

Lemma slotBound_app l k : slotBound (l ++ k) = Nat.max (slotBound l) (slotBound k).
Proof.
  induction l as [|x l IH]; simpl; [reflexivity|]. rewrite IH. lia.
Qed.

Lemma slotBound_lt l s : s ∈ l -> (s < slotBound l)%nat.
Proof.
  induction l as [|x l IH]; intros H.
  - inversion H.
  - apply elem_of_cons in H as [->|H]; simpl; [lia|].
    specialize (IH H). lia.
Qed.

Lemma slotBound_attained l :
  l <> [] -> exists s, s ∈ l /\ slotBound l = S s.
Proof.
  induction l as [|x l IH]; intros H; [contradiction|].
  destruct l as [|y l].
  - exists x. split; [left|]. simpl. lia.
  - destruct IH as (s & Hs & E); [discriminate|].
    destruct (le_lt_dec (slotBound (y :: l)) (S x)).
    + exists x. split; [left|]. simpl in *. lia.
    + exists s. split; [right; exact Hs|]. simpl in *. lia.
Qed.

Lemma NoDup_bounded_length (l : list nat) n :
  NoDup l -> (forall x, x ∈ l -> (x < n)%nat) -> (length l <= n)%nat.
Proof.
  intros Hnd Hb.
  assert (Hs : l ⊆+ seq 0 n).
  { apply NoDup_submseteq; [exact Hnd|].
    intros x Hx. apply elem_of_seq. specialize (Hb x Hx). lia. }
  apply submseteq_length in Hs. rewrite length_seq in Hs. exact Hs.
Qed.

Lemma slotBound_length_gap (l : list nat) :
  NoDup l ->
  (slotBound l = length l <->
   ~ exists s s', (s' < s)%nat /\ s ∈ l /\ s' ∉ l).
Proof.
  intros Hnd.
  assert (Hs : l ⊆+ seq 0 (slotBound l)).
  { apply NoDup_submseteq; [exact Hnd|].
    intros x Hx. apply elem_of_seq. apply slotBound_lt in Hx. lia. }
  split.
  - intros E (s & s' & Hlt & Hin & Hnin).
    assert (Hp : l ≡ₚ seq 0 (slotBound l)).
    { apply submseteq_length_Permutation; [exact Hs|].
      rewrite length_seq. lia. }
    apply Hnin. rewrite Hp. apply elem_of_seq.
    apply slotBound_lt in Hin. lia.
  - intros Hgap.
    apply submseteq_length in Hs as Hle. rewrite length_seq in Hle.
    destruct l as [|x l]; [reflexivity|].
    destruct (slotBound_attained (x :: l)) as (m & Hm & E); [discriminate|].
    assert (Hsub : seq 0 (slotBound (x :: l)) ⊆+ x :: l).
    { apply NoDup_submseteq; [apply NoDup_seq|].
      intros s' Hs'. apply elem_of_seq in Hs'.
      destruct (decide (s' ∈ x :: l)) as [|Hn]; [assumption|].
      destruct (decide (s' = m)) as [->|Hne]; [assumption|].
      exfalso. apply Hgap. exists m, s'. repeat split; [lia|assumption..]. }
    apply submseteq_length in Hsub. rewrite length_seq in Hsub. lia.
Qed.

Lemma slotBound_gap_or (l : list nat) :
  NoDup l ->
  slotBound l = length l
  \/ exists s s', (s' < s)%nat /\ s ∈ l /\ s' ∉ l.
Proof.
  intros Hnd.
  destruct (decide (Forall (fun s' => s' ∈ l) (seq 0 (slotBound l))))
    as [Hall|Hex].
  - left. apply slotBound_length_gap; [exact Hnd|].
    intros (s & s' & Hlt & Hin & Hnin). apply Hnin.
    rewrite Forall_forall in Hall. apply Hall. apply elem_of_seq.
    apply slotBound_lt in Hin. lia.
  - right. apply not_Forall_Exists in Hex; [|intros x; apply _].
    apply Exists_exists in Hex as (s' & Hs' & Hnin).
    apply elem_of_seq in Hs'.
    destruct l as [|x l]; [simpl in Hs'; lia|].
    destruct (slotBound_attained (x :: l)) as (m & Hm & E); [discriminate|].
    exists m, s'. repeat split; [|assumption..].
    destruct (decide (s' = m)) as [->|]; [contradiction|lia].
Qed.

Lemma slotBound_length_prefix (l : list nat) i :
  NoDup l -> slotBound l = length l -> ((i < length l)%nat <-> i ∈ l).
Proof.
  intros Hnd E.
  assert (Hp : l ≡ₚ seq 0 (slotBound l)).
  { apply submseteq_length_Permutation; [|rewrite length_seq; lia].
    apply NoDup_submseteq; [exact Hnd|].
    intros x Hx. apply elem_of_seq. apply slotBound_lt in Hx. lia. }
  rewrite Hp at 2. rewrite elem_of_seq. lia.
Qed.

Lemma topicSlots_app l k : topicSlots (l ++ k) = topicSlots l ++ topicSlots k.
Proof. apply omap_app. Qed.

Lemma dataEntries_app l k : dataEntries (l ++ k) = dataEntries l ++ dataEntries k.
Proof. apply List.filter_app. Qed.

Lemma dataEntries_single e :
  dataEntries [e] = if String.eqb (Key e) "d" then [e] else [].
Proof. unfold dataEntries. simpl. destruct (String.eqb (Key e) "d"); reflexivity. Qed.

Lemma topicSlots_single e :
  topicSlots [e] = match topicSlot (Key e) with Some s => [s] | None => [] end.
Proof. unfold topicSlots. simpl. destruct (topicSlot (Key e)); reflexivity. Qed.

Lemma copy_full (dst src : list Byte.byte) :
  length dst = 32%nat -> length src = 32%nat -> copy dst src = src.
Proof.
  intros Hd Hs. unfold copy. rewrite Hd, Hs. simpl Nat.min.
  rewrite take_ge by lia. rewrite drop_ge by lia. apply app_nil_r.
Qed.

Lemma length_extendTopics ts idx :
  length (extendTopics ts idx) = Nat.max (length ts) (S idx).
Proof. unfold extendTopics. rewrite length_app, length_replicate. lia. Qed.

(** *** Preservation of the invariant *)

Lemma decodeInv_init : decodeInv [] initState.
Proof.
  constructor; simpl; try constructor; try lia; try reflexivity.
  - intros H. contradiction.
  - intros H. destruct s as [|[|[|[|s]]]]; simpl in H; discriminate.
  - intros H. inversion H.
  - intros e s H. inversion H.
Qed.

Lemma slots_length_le pre st :
  decodeInv pre st -> (length (topicSlots pre) <= 4)%nat.
Proof.
  intros I. apply NoDup_bounded_length; [apply (inv_nodup _ _ I)|].
  intros x Hx. unfold topicSlots in Hx. apply list_elem_of_omap in Hx.
  destruct Hx as (e & _ & He). apply topicSlot_isTopicKey in He. tauto.
Qed.

Lemma decodeInv_other pre st e :
  decodeInv pre st -> Codec e = Raw -> topicSlot (Key e) = None ->
  Key e <> "d" -> decodeInv (pre ++ [e]) st.
Proof.
  intros I Hc Hs Hk.
  assert (Es : topicSlots (pre ++ [e]) = topicSlots pre).
  { rewrite topicSlots_app, topicSlots_single, Hs. apply app_nil_r. }
  assert (Ed : dataEntries (pre ++ [e]) = dataEntries pre).
  { rewrite dataEntries_app, dataEntries_single.
    destruct (String.eqb_spec (Key e) "d"); [contradiction|apply app_nil_r]. }
  destruct I. constructor; rewrite ?Es, ?Ed; try assumption.
  - apply Forall_app. split; [assumption|]. constructor; [exact Hc|constructor].
  - apply Forall_app. split; [assumption|]. constructor; [|constructor].
    rewrite Hs. intros [? ?]. discriminate.
  - intros e' s' He' Hs'. apply elem_of_app in He' as [He'|He'].
    + eauto.
    + apply list_elem_of_singleton in He'. subst e'. congruence.
Qed.

Lemma decodeInv_data pre st e :
  decodeInv pre st -> Codec e = Raw -> Key e = "d" -> dataFound st = false ->
  decodeInv (pre ++ [e])
            {| topicsFound := topicsFound st;
               topicsFoundCount := topicsFoundCount st;
               dataFound := true;
               data := Value e;
               topics := topics st |}.
Proof.
  intros I Hc Hk Hd.
  assert (Hs : topicSlot (Key e) = None) by (rewrite Hk; reflexivity).
  assert (Es : topicSlots (pre ++ [e]) = topicSlots pre).
  { rewrite topicSlots_app, topicSlots_single, Hs. apply app_nil_r. }
  assert (Ed : dataEntries (pre ++ [e]) = dataEntries pre ++ [e]).
  { rewrite dataEntries_app, dataEntries_single, Hk. reflexivity. }
  assert (En : dataEntries pre = []).
  { destruct (dataEntries pre) eqn:E; [reflexivity|].
    assert (dataFound st = true) by (apply (inv_dataFound _ _ I); rewrite E; discriminate).
    congruence. }
  destruct I. constructor; simpl; rewrite ?Es, ?Ed, ?En; try assumption.
  - apply Forall_app. split; [assumption|]. constructor; [exact Hc|constructor].
  - apply Forall_app. split; [assumption|]. constructor; [|constructor].
    rewrite Hs. intros [? ?]. discriminate.
  - simpl. lia.
  - split; [discriminate|reflexivity].
  - intros e' s' He' Hs'. apply elem_of_app in He' as [He'|He'].
    + eauto.
    + apply list_elem_of_singleton in He'. subst e'. congruence.
Qed.

Lemma decodeInv_topic pre st e s :
  decodeInv pre st -> Codec e = Raw -> topicSlot (Key e) = Some s ->
  length (Value e) = 32%nat -> s ∉ topicSlots pre ->
  decodeInv (pre ++ [e])
    {| topicsFound := <[s := true]> (topicsFound st);
       topicsFoundCount := Int64.add (topicsFoundCount st) 1;
       dataFound := dataFound st;
       data := data st;
       topics := <[s := copy (default zeroHash (extendTopics (topics st) s !! s))
                             (Value e)]> (extendTopics (topics st) s) |}.
Proof.
  intros I Hc Hs Hlen Hnew.
  pose proof (slots_length_le _ _ I) as Hle.
  destruct (topicSlot_isTopicKey _ _ Hs) as [_ Hs4].
  assert (Es : topicSlots (pre ++ [e]) = topicSlots pre ++ [s]).
  { rewrite topicSlots_app, topicSlots_single, Hs. reflexivity. }
  assert (Ed : dataEntries (pre ++ [e]) = dataEntries pre).
  { rewrite dataEntries_app, dataEntries_single.
    rewrite (topicSlot_not_data _ _ Hs). apply app_nil_r. }
  assert (Hext : Forall (fun h : EthHash => length h = 32%nat)
                        (extendTopics (topics st) s)).
  { unfold extendTopics. apply Forall_app. split; [apply (inv_topics_size _ _ I)|].
    apply Forall_replicate. reflexivity. }
  assert (Hlt : (s < length (extendTopics (topics st) s))%nat).
  { rewrite length_extendTopics. lia. }
  assert (Hcopy : copy (default zeroHash (extendTopics (topics st) s !! s))
                       (Value e) = Value e).
  { apply copy_full; [|exact Hlen].
    destruct (lookup_lt_is_Some_2 _ _ Hlt) as [h Hh]. rewrite Hh. simpl.
    eapply Forall_lookup_1 in Hext; eauto. }
  rewrite Hcopy.
  destruct I. constructor; simpl; rewrite ?Es, ?Ed; try assumption.
  - apply Forall_app. split; [assumption|]. constructor; [exact Hc|constructor].
  - apply Forall_app. split; [assumption|]. constructor; [|constructor].
    intros _. exact Hlen.
  - apply NoDup_app. repeat split; [assumption| |apply NoDup_singleton].
    intros x Hx Hx'. apply list_elem_of_singleton in Hx'. subst x. contradiction.
  - rewrite length_insert. assumption.
  - intros s'. rewrite elem_of_app, list_elem_of_singleton.
    destruct (decide (s = s')) as [<-|Hne].
    + rewrite list_lookup_insert_eq by lia. tauto.
    + rewrite list_lookup_insert_ne by exact Hne. rewrite inv_found0.
      split; [tauto|]. intros [?|?]; [assumption|congruence].
  - rewrite length_app. simpl. unfold Int64.add. rewrite Int64.signed_id.
    + lia.
    + unfold Int64.in_range, Int64.min_signed, Int64.max_signed,
        Int64.half_modulus. lia.
  - rewrite length_insert, length_extendTopics, slotBound_app. simpl. lia.
  - apply Forall_insert; [exact Hext|exact Hlen].
  - intros e' s' He' Hs'. apply elem_of_app in He' as [He'|He'].
    + assert (Hin : s' ∈ topicSlots pre).
      { apply list_elem_of_omap. exists e'. split; assumption. }
      assert (Hne : s <> s') by congruence.
      rewrite list_lookup_insert_ne by exact Hne.
      specialize (inv_topics0 _ _ He' Hs').
      unfold extendTopics. rewrite lookup_app_l; [assumption|].
      apply lookup_lt_Some in inv_topics0. assumption.
    + apply list_elem_of_singleton in He'. subst e'.
      assert (s' = s) by congruence. subst s'.
      apply list_lookup_insert_eq. exact Hlt.
Qed.

Lemma decodeEntry_step pre st e :
  decodeInv pre st ->
  match decodeEntry st e with
  | Some st' => decodeInv (pre ++ [e]) st'
  | None => rejects pre e
  end.
Proof.
  intros I.
  destruct (Z.eq_dec (Codec e) Raw) as [Hc|Hc];
    [|rewrite decodeEntry_nonraw by exact Hc; left; exact Hc].
  destruct (topicSlot (Key e)) as [s|] eqn:Hs.
  - rewrite (decodeEntry_topic st e s Hc Hs). unfold decodeTopic.
    destruct (Nat.eqb_spec (length (Value e)) 32) as [Hlen|Hlen]; simpl.
    + destruct (topicsFound st !! s) as [[|]|] eqn:Hf; simpl.
      * right; right; left. exists s. split; [exact Hs|].
        apply (inv_found _ _ I). exact Hf.
      * apply decodeInv_topic; try assumption.
        intros Hin. apply (inv_found _ _ I) in Hin. congruence.
      * apply decodeInv_topic; try assumption.
        intros Hin. apply (inv_found _ _ I) in Hin. congruence.
    + right; left. split; [exists s; exact Hs|exact Hlen].
  - destruct (String.eqb_spec (Key e) "d") as [Hk|Hk].
    + rewrite (decodeEntry_data st e Hc Hk).
      destruct (dataFound st) eqn:Hd.
      * right; right; right. split; [exact Hk|].
        apply (inv_dataFound _ _ I). exact Hd.
      * apply decodeInv_data; assumption.
    + rewrite (decodeEntry_other st e Hc Hs Hk).
      apply decodeInv_other; assumption.
Qed.

Lemma rejects_invalid pre e rest : rejects pre e -> invalid (pre ++ e :: rest).
Proof.
  intros [H|[H|[(s & Hs & Hin)|[Hk Hd]]]].
  - left. apply Exists_app. right. left. exact H.
  - right; left. apply Exists_app. right. left. exact H.
  - right; right; left. unfold hasDuplicateTopic.
    change (e :: rest) with ([e] ++ rest).
    rewrite !topicSlots_app, topicSlots_single, Hs.
    intros Hnd. apply NoDup_app in Hnd as (_ & Hdis & _).
    apply (Hdis s Hin). apply elem_of_app. left. left.
  - right; right; right. unfold hasSecondData.
    change (e :: rest) with ([e] ++ rest).
    rewrite !dataEntries_app, dataEntries_single, Hk, !length_app. simpl.
    destruct (dataEntries pre); [contradiction|simpl; lia].
Qed.

Lemma decodeLoop_inv rest : forall pre st,
  decodeInv pre st ->
  match decodeLoop rest st with
  | Some st' => decodeInv (pre ++ rest) st'
  | None => invalid (pre ++ rest)
  end.
Proof.
  induction rest as [|e rest IH]; intros pre st I; simpl.
  - rewrite app_nil_r. exact I.
  - pose proof (decodeEntry_step pre st e I) as Hstep.
    destruct (decodeEntry st e) as [st'|].
    + specialize (IH _ _ Hstep). rewrite <- app_assoc in IH. exact IH.
    + apply rejects_invalid. exact Hstep.
Qed.

Lemma decodeInv_valid l st : decodeInv l st -> ~ invalid l.
Proof.
  intros I [H|[H|[H|H]]].
  - unfold hasNonRawCodec in H. apply Exists_exists in H as (e & He & Hc).
    pose proof (inv_raw _ _ I) as Hr. rewrite Forall_forall in Hr.
    apply Hc, Hr, He.
  - unfold hasMisSizedTopic in H. apply Exists_exists in H as (e & He & Hs & Hn).
    pose proof (inv_size _ _ I) as Hr. rewrite Forall_forall in Hr.
    apply Hn, Hr; assumption.
  - apply H, (inv_nodup _ _ I).
  - unfold hasSecondData in H. pose proof (inv_data_once _ _ I). lia.
Qed.

Lemma ethLogFromEvent_inv entries :
  match decodeLoop entries initState with
  | Some st => decodeInv entries st
  | None => invalid entries
  end.
Proof. apply (decodeLoop_inv entries [] initState decodeInv_init). Qed.

Lemma ethLogFromEvent_None entries :
  ethLogFromEvent entries = None <-> invalid entries \/ hasTopicGap entries.
Proof.
  unfold ethLogFromEvent. pose proof (ethLogFromEvent_inv entries) as H.
  destruct (decodeLoop entries initState) as [st|].
  - pose proof (decodeInv_valid _ _ H) as Hv.
    pose proof (slotBound_length_gap _ (inv_nodup _ _ H)) as Hg.
    rewrite (inv_topics_len _ _ H), (inv_count _ _ H).
    destruct (Z.eqb_spec (Z.of_nat (slotBound (topicSlots entries)))
                         (Z.of_nat (length (topicSlots entries)))) as [E|E];
      simpl.
    + split; [discriminate|]. intros [Hi|Hgap]; [contradiction|].
      exfalso. apply Hg; [lia|exact Hgap].
    + split; [|reflexivity]. intros _. right.
      destruct (slotBound_gap_or _ (inv_nodup _ _ H)) as [Hn|Hgap];
        [|exact Hgap].
      exfalso. apply E. f_equal. exact Hn.
  - tauto.
Qed.

Lemma ethLogFromEvent_Some entries d ts :
  ethLogFromEvent entries = Some (d, ts) ->
  length ts = length (topicSlots entries)
  /\ (forall i, (i < length ts)%nat <-> i ∈ topicSlots entries)
  /\ (forall e i, e ∈ entries -> topicSlot (Key e) = Some i ->
                  ts !! i = Some (Value e) /\ length (Value e) = 32%nat).
Proof.
  unfold ethLogFromEvent. pose proof (ethLogFromEvent_inv entries) as H.
  destruct (decodeLoop entries initState) as [st|]; [|discriminate].
  rewrite (inv_count _ _ H).
  destruct (Z.eqb_spec (Z.of_nat (length (topics st)))
                       (Z.of_nat (length (topicSlots entries)))) as [E|E];
    simpl; [|discriminate].
  intros Heq. inversion Heq. subst d ts. apply Nat2Z.inj in E.
  split; [exact E|]. split.
  - intros i. rewrite E. apply slotBound_length_prefix; [apply (inv_nodup _ _ H)|].
    rewrite <- E. symmetry. apply (inv_topics_len _ _ H).
  - intros e i He Hi. split; [apply (inv_topics _ _ H); assumption|].
    pose proof (inv_size _ _ H) as Hs. rewrite Forall_forall in Hs.
    apply Hs; [exact He|]. exists i. exact Hi.
Qed.

Lemma ethLogFromEvent_skip l1 e l2 :
  Codec e = Raw -> topicSlot (Key e) = None -> Key e <> "d" ->
  ethLogFromEvent (l1 ++ e :: l2) = ethLogFromEvent (l1 ++ l2).
Proof.
  intros Hc Hs Hk. unfold ethLogFromEvent.
  rewrite !decodeLoop_app. destruct (decodeLoop l1 initState) as [st|];
    [|reflexivity].
  simpl. rewrite (decodeEntry_other st e Hc Hs Hk). reflexivity.
Qed.

(** *** The decoder against the rules of the specification *)

(** C1. [ethLogFromEvent] answers [ok = false] exactly for the entry lists
    that hold an entry with a codec other than raw, a topic entry
    (["t1"] to ["t4"]) whose value is not 32 bytes long, two topic entries
    of one slot, a second ["d"] entry, or topic entries whose slots leave a
    gap below a filled slot.  A raw entry with any other label can be
    removed from the list without changing the answer.  When [ok = true]
    the topics have as many elements as there are topic entries, index [i]
    is below that length exactly for the slots that occur, and slot [i]
    holds the 32 bytes of the entry labelled for it. *)
Theorem ethLogFromEvent_rules :
  (forall entries : list EventEntry,
     ethLogFromEvent entries = None <->
     hasNonRawCodec entries \/ hasMisSizedTopic entries
     \/ hasDuplicateTopic entries \/ hasSecondData entries
     \/ hasTopicGap entries)
  /\ (forall (l1 : list EventEntry) (e : EventEntry) (l2 : list EventEntry),
        Codec e = Raw -> topicSlot (Key e) = None -> Key e <> "d" ->
        ethLogFromEvent (l1 ++ e :: l2) = ethLogFromEvent (l1 ++ l2))
  /\ (forall (entries : list EventEntry) (d : list Byte.byte)
             (ts : list EthHash),
        ethLogFromEvent entries = Some (d, ts) ->
        length ts = length (topicSlots entries)
        /\ (forall i : nat, (i < length ts)%nat <-> i ∈ topicSlots entries)
        /\ (forall (e : EventEntry) (i : nat),
              e ∈ entries -> topicSlot (Key e) = Some i ->
              ts !! i = Some (Value e) /\ length (Value e) = 32%nat)).
Proof.
  split; [|split].
  - intros entries. rewrite ethLogFromEvent_None. unfold invalid. tauto.
  - exact ethLogFromEvent_skip.
  - exact ethLogFromEvent_Some.
Qed.

Lemma ethLogFromEvent_rules_witness :
  ethLogFromEvent sampleEntries = Some ([Byte.x07], [sampleTopic])
  /\ length [sampleTopic] = length (topicSlots sampleEntries)
  /\ ethLogFromEvent (firstn 1 sampleEntries ++ skipn 2 sampleEntries)
     = ethLogFromEvent sampleEntries.
Proof.
  split; [reflexivity|]. split.
  - apply (proj2 (proj2 ethLogFromEvent_rules) sampleEntries [Byte.x07]).
    reflexivity.
  - symmetry.
    apply (proj1 (proj2 ethLogFromEvent_rules) (firstn 1 sampleEntries)
             {| Flags := 3; Key := "x"; Codec := Raw; Value := [Byte.x01] |}
             (skipn 2 sampleEntries)).
    + reflexivity.
    + reflexivity.
    + discriminate.
Defined.

(** *** Events that do not decode *)

Lemma filterLogsLoop_drop l1 ev l2 : forall logs,
  ethLogFromEvent (Entries ev) = None ->
  filterLogsLoop (l1 ++ ev :: l2) logs = filterLogsLoop (l1 ++ l2) logs.
Proof.
  induction l1 as [|x l1 IH]; intros logs Hbad; simpl.
  - rewrite Hbad. reflexivity.
  - destruct (ethLogFromEvent (Entries x)) as [[d ts]|]; [|auto].
    destruct (EthAddressFromFilecoinAddress (EmitterAddr x)); [|reflexivity].
    destruct (ethTxHashFromMessageCid (MsgCid x)) as [h|]; [|reflexivity].
    destruct (bool_decide (h = EmptyEthHash)); [auto|].
    destruct (TipSetKeyCid (EventTipSetKey x)) as [c|]; [|reflexivity].
    destruct (EthHashFromCid c); [auto|reflexivity].
Qed.

Lemma filterLogsLoop_origin evs : forall logs out,
  filterLogsLoop evs logs = Ok out ->
  forall log, log ∈ out ->
    log ∈ logs
    \/ exists ev, ev ∈ evs
         /\ ethLogFromEvent (Entries ev) = Some (Data log, Topics log).
Proof.
  induction evs as [|x evs IH]; intros logs out H log Hin; simpl in H.
  - inversion H. subst out. left. exact Hin.
  - assert (Hmono : forall logs',
              filterLogsLoop evs logs' = Ok out ->
              (forall l, l ∈ logs' -> l ∈ logs
                 \/ ethLogFromEvent (Entries x) = Some (Data l, Topics l)) ->
              log ∈ logs
              \/ exists ev, ev ∈ x :: evs
                   /\ ethLogFromEvent (Entries ev) = Some (Data log, Topics log)).
    { intros logs' H' Hsub.
      destruct (IH _ _ H' log Hin) as [Hl|(ev & Hev & Hok)].
      - destruct (Hsub _ Hl) as [?|?]; [left; assumption|].
        right. exists x. split; [left|assumption].
      - right. exists ev. split; [right; exact Hev|exact Hok]. }
    destruct (ethLogFromEvent (Entries x)) as [[d ts]|] eqn:Hx.
    + destruct (EthAddressFromFilecoinAddress (EmitterAddr x)); [|discriminate].
      destruct (ethTxHashFromMessageCid (MsgCid x)) as [h|]; [|discriminate].
      destruct (bool_decide (h = EmptyEthHash)).
      * apply (Hmono _ H). intros l Hl. left. exact Hl.
      * destruct (TipSetKeyCid (EventTipSetKey x)) as [c|]; [|discriminate].
        destruct (EthHashFromCid c); [|discriminate].
        apply (Hmono _ H). intros l Hl. apply elem_of_app in Hl as [Hl|Hl].
        -- left. exact Hl.
        -- apply list_elem_of_singleton in Hl. subst l. right. reflexivity.
    + apply (Hmono _ H). intros l Hl. left. exact Hl.
Qed.

(** C7. An event whose entries fail the decode is left out of the result
    of [ethFilterLogsFromEvents] and of [ethFilterResultFromEvents]: the
    answer, error or not, is the one the list without that event gets, and
    every item of a result is the log of an event of the list whose
    entries decode. *)
Theorem malformed_events_dropped :
  (forall (l1 : list CollectedEvent) (ev : CollectedEvent)
          (l2 : list CollectedEvent),
     ethLogFromEvent (Entries ev) = None ->
     ethFilterLogsFromEvents (l1 ++ ev :: l2) = ethFilterLogsFromEvents (l1 ++ l2)
     /\ ethFilterResultFromEvents (l1 ++ ev :: l2)
        = ethFilterResultFromEvents (l1 ++ l2))
  /\ (forall (evs : list CollectedEvent) (logs : list EthLog),
        ethFilterLogsFromEvents evs = Ok logs ->
        forall log : EthLog, log ∈ logs ->
          exists ev, ev ∈ evs
            /\ ethLogFromEvent (Entries ev) = Some (Data log, Topics log))
  /\ (forall (evs : list CollectedEvent) (res : EthFilterResult),
        ethFilterResultFromEvents evs = Ok res ->
        forall item : resultItem, item ∈ Results res ->
          exists log ev, item = ResLog log /\ ev ∈ evs
            /\ ethLogFromEvent (Entries ev) = Some (Data log, Topics log)).
Proof.
  assert (Horigin : forall evs logs,
            ethFilterLogsFromEvents evs = Ok logs ->
            forall log, log ∈ logs ->
              exists ev, ev ∈ evs
                /\ ethLogFromEvent (Entries ev) = Some (Data log, Topics log)).
  { intros evs logs H log Hin.
    destruct (filterLogsLoop_origin evs [] logs H log Hin) as [Hnil|?];
      [inversion Hnil|assumption]. }
  split; [|split].
  - intros l1 ev l2 Hbad. unfold ethFilterResultFromEvents, ethFilterLogsFromEvents.
    rewrite (filterLogsLoop_drop l1 ev l2 [] Hbad). split; reflexivity.
  - exact Horigin.
  - intros evs res H item Hin. unfold ethFilterResultFromEvents in H.
    destruct (ethFilterLogsFromEvents evs) as [logs|] eqn:Hl; [|discriminate].
    inversion H. subst res. simpl in Hin.
    apply list_elem_of_fmap in Hin as (log & -> & Hlog).
    destruct (Horigin evs logs Hl log Hlog) as (ev & Hev & Hok).
    exists log, ev. repeat split; assumption.
Qed.

End FilterLogs.

Lemma malformed_events_dropped_witness :
  ethFilterLogsFromEvents (fun _ => Err "no address"%string)
    (fun _ => Err "no message"%string) (fun _ => Err "no cid"%string)
    (fun _ => Err "no hash"%string) ([] ++ cborEvent :: [])
  = Ok [].
Proof.
  rewrite (proj1 (proj1 (malformed_events_dropped
                           (fun _ => Err "no address"%string)
                           (fun _ => Err "no message"%string)
                           (fun _ => Err "no cid"%string)
                           (fun _ => Err "no hash"%string))
                    [] cborEvent [] eq_refl)).
  reflexivity.
Defined.

End EventLog.

(** ** Height ranges: [parseBlockRange] *)

Module BlockRange.

(** The errors of [parseBlockRange], one constructor per [fmt.Errorf]. *)
Inductive rangeError :=
| ErrFromNotHex
| ErrToNotHex
| ErrInvalidEpoch
| ErrTooFarInFuture (maximum : Z)
| ErrTooFarInPast (maximum : Z)
| ErrInverted (minHeight maxHeight : Z)
| ErrRangeTooLarge (maximum : Z).

(** The errors that report a span above the configured maximum. *)
Definition isRangeTooLarge (e : rangeError) : bool :=
  match e with
  | ErrTooFarInFuture _ | ErrTooFarInPast _ | ErrRangeTooLarge _ => true
  | _ => false
  end.

Definition isInverted (e : rangeError) : bool :=
  match e with
  | ErrInverted _ _ => true
  | _ => false
  end.

Definition isParseError (e : rangeError) : bool :=
  match e with
  | ErrFromNotHex | ErrToNotHex | ErrInvalidEpoch => true
  | _ => false
  end.

(** [b == nil || *b == "latest" || len( *b) == 0] *)
Definition isLatest (b : option string) : bool :=
  match b with
  | None => true
  | Some s => String.eqb s "latest" || Nat.eqb (String.length s) 0
  end.

(** Modelled from the spec: [types.EthUint64FromHex] is not among the
    sources.  The specification writes explicit heights as hexadecimal
    numerals with the prefix ["0x"] (["0x5"], ["0x0a"]) and counts bad hex
    as an invalid request; the result is a [types.EthUint64], an unsigned
    64-bit number. *)
Definition hexDigit (c : ascii) : option Z :=
  let n := Z.of_nat (nat_of_ascii c) in
  if (48 <=? n) && (n <=? 57) then Some (n - 48)
  else if (97 <=? n) && (n <=? 102) then Some (n - 87)
  else if (65 <=? n) && (n <=? 70) then Some (n - 55)
  else None.

Fixpoint hexDigits (s : string) (acc : Z) : option Z :=
  match s with
  | EmptyString => Some acc
  | String c rest =>
      match hexDigit c with
      | None => None
      | Some d => hexDigits rest (16 * acc + d)
      end
  end.

Definition EthUint64FromHex (s : string) : option Z :=
  let digits :=
    if String.prefix "0x" s then String.substring 2 (String.length s - 2) s
    else s in
  match digits with
  | EmptyString => None
  | _ =>
      match hexDigits digits 0 with
      | Some v => if v <? Int64.modulus then Some v else None
      | None => None
      end
  end.

Section Parse.

(** [types.EthUint64FromHex], defined outside this file: the value of a
    hexadecimal numeral as an unsigned 64-bit number, or an error. *)
Variable hex : string -> option Z.

(** Lines 347-360: the lower bound; [abi.ChainEpoch(epoch)] converts the
    unsigned 64-bit value to [int64]. *)
Definition fromHeight (heaviest : Z) (fromBlock : option string)
  : result rangeError Z :=
  match fromBlock with
  | None => Ok heaviest
  | Some s =>
      if isLatest fromBlock then Ok heaviest
      else if String.eqb s "earliest" then Ok 0
      else if negb (String.prefix "0x" s) then Err ErrFromNotHex
      else match hex s with
           | None => Err ErrInvalidEpoch
           | Some epoch => Ok (Int64.signed epoch)
           end
  end.

(** Lines 362-376: the upper bound; [-1] stands for the head at the time
    of evaluation. *)
Definition toHeight (toBlock : option string) : result rangeError Z :=
  match toBlock with
  | None => Ok (-1)
  | Some s =>
      if isLatest toBlock then Ok (-1)
      else if String.eqb s "earliest" then Ok 0
      else if negb (String.prefix "0x" s) then Err ErrToNotHex
      else match hex s with
           | None => Err ErrInvalidEpoch
           | Some epoch => Ok (Int64.signed epoch)
           end
  end.

(** Lines 378-396: the limits set by the node operator. *)
Definition validateRange (heaviest minHeight maxHeight maxRange : Z)
  : result rangeError (Z * Z) :=
  if (minHeight =? -1) && (maxHeight >? 0) then
    if Int64.sub maxHeight heaviest >? maxRange
    then Err (ErrTooFarInFuture maxRange)
    else Ok (minHeight, maxHeight)
  else if (minHeight >=? 0) && (maxHeight =? -1) then
    if Int64.sub heaviest minHeight >? maxRange
    then Err (ErrTooFarInPast maxRange)
    else Ok (minHeight, maxHeight)
  else if (minHeight >=? 0) && (maxHeight >=? 0) then
    if minHeight >? maxHeight then Err (ErrInverted minHeight maxHeight)
    else if Int64.sub maxHeight minHeight >? maxRange
    then Err (ErrRangeTooLarge maxRange)
    else Ok (minHeight, maxHeight)
  else Ok (minHeight, maxHeight).

Definition parseBlockRange (heaviest : Z) (fromBlock toBlock : option string)
  (maxRange : Z) : result rangeError (Z * Z) :=
  match fromHeight heaviest fromBlock with
  | Err e => Err e
  | Ok minHeight =>
      match toHeight toBlock with
      | Err e => Err e
      | Ok maxHeight => validateRange heaviest minHeight maxHeight maxRange
      end
  end.

(** *** The inputs in the words of the specification *)

(** Absent, ["latest"] or empty. *)
Definition openEnded (b : option string) : Prop :=
  b = None \/ b = Some "latest"%string \/ b = Some ""%string.

(** A string that is none of the keywords. *)
Definition otherString (b : option string) (s : string) : Prop :=
  b = Some s /\ s <> "latest"%string /\ s <> ""%string
  /\ s <> "earliest"%string.

(** [b] names the height [h] explicitly: ["earliest"], or a hexadecimal
    numeral with the prefix ["0x"]. *)
Definition explicitHeight (b : option string) (h : Z) : Prop :=
  (b = Some "earliest"%string /\ h = 0)
  \/ exists s, otherString b s /\ String.prefix "0x" s = true
               /\ hex s = Some h.

(** A string that is no keyword and no hexadecimal numeral. *)
Definition badHex (b : option string) : Prop :=
  exists s, otherString b s
            /\ (String.prefix "0x" s = false \/ hex s = None).

(** *** Resolution and validation *)

Lemma isLatest_open b : openEnded b -> isLatest b = true.
Proof. intros [->|[->| ->]]; reflexivity. Qed.

Lemma isLatest_other b s : otherString b s -> isLatest b = false.
Proof.
  intros (-> & Hl & He & _). simpl.
  destruct (String.eqb_spec s "latest"); [contradiction|].
  destruct s; [contradiction|reflexivity].
Qed.

Lemma fromHeight_open heaviest b :
  openEnded b -> fromHeight heaviest b = Ok heaviest.
Proof.
  intros H. unfold fromHeight. rewrite (isLatest_open b H).
  destruct b; reflexivity.
Qed.

Lemma toHeight_open b : openEnded b -> toHeight b = Ok (-1).
Proof.
  intros H. unfold toHeight. rewrite (isLatest_open b H).
  destruct b; reflexivity.
Qed.

Lemma fromHeight_explicit heaviest b h :
  explicitHeight b h -> 0 <= h <= Int64.max_signed ->
  fromHeight heaviest b = Ok h.
Proof.
  intros [[-> ->]|(s & Ho & Hp & Hx)] Hr; [reflexivity|].
  unfold fromHeight. rewrite (isLatest_other b s Ho).
  destruct Ho as (-> & _ & _ & He).
  destruct (String.eqb_spec s "earliest"); [contradiction|].
  rewrite Hp, Hx. simpl. rewrite Int64.signed_id; [reflexivity|].
  unfold Int64.in_range, Int64.min_signed, Int64.max_signed in *.
  unfold Int64.half_modulus in *. lia.
Qed.

Lemma toHeight_explicit b h :
  explicitHeight b h -> 0 <= h <= Int64.max_signed ->
  toHeight b = Ok h.
Proof.
  intros [[-> ->]|(s & Ho & Hp & Hx)] Hr; [reflexivity|].
  unfold toHeight. rewrite (isLatest_other b s Ho).
  destruct Ho as (-> & _ & _ & He).
  destruct (String.eqb_spec s "earliest"); [contradiction|].
  rewrite Hp, Hx. simpl. rewrite Int64.signed_id; [reflexivity|].
  unfold Int64.in_range, Int64.min_signed, Int64.max_signed in *.
  unfold Int64.half_modulus in *. lia.
Qed.

Lemma fromHeight_bad heaviest b :
  badHex b ->
  exists e, fromHeight heaviest b = Err e /\ isParseError e = true.
Proof.
  intros (s & Ho & Hbad). unfold fromHeight. rewrite (isLatest_other b s Ho).
  destruct Ho as (-> & _ & _ & He).
  destruct (String.eqb_spec s "earliest"); [contradiction|].
  destruct (String.prefix "0x" s) eqn:Hp; simpl.
  - destruct Hbad as [?|Hx]; [discriminate|]. rewrite Hx. eexists; eauto.
  - eexists; eauto.
Qed.

Lemma toHeight_bad b :
  badHex b ->
  exists e, toHeight b = Err e /\ isParseError e = true.
Proof.
  intros (s & Ho & Hbad). unfold toHeight. rewrite (isLatest_other b s Ho).
  destruct Ho as (-> & _ & _ & He).
  destruct (String.eqb_spec s "earliest"); [contradiction|].
  destruct (String.prefix "0x" s) eqn:Hp; simpl.
  - destruct Hbad as [?|Hx]; [discriminate|]. rewrite Hx. eexists; eauto.
  - eexists; eauto.
Qed.

Lemma fromHeight_Err_parse heaviest b e :
  fromHeight heaviest b = Err e -> isParseError e = true.
Proof.
  unfold fromHeight. destruct b as [s|]; [|discriminate].
  destruct (isLatest (Some s)); [discriminate|].
  destruct (String.eqb s "earliest"); [discriminate|].
  destruct (String.prefix "0x" s); simpl.
  - destruct (hex s); [discriminate|]. intros H; inversion H; reflexivity.
  - intros H; inversion H; reflexivity.
Qed.

Lemma parseBlockRange_bad heaviest from to maxRange :
  badHex from \/ badHex to ->
  exists e, parseBlockRange heaviest from to maxRange = Err e
            /\ isParseError e = true.
Proof.
  intros [H|H]; unfold parseBlockRange.
  - destruct (fromHeight_bad heaviest from H) as (e & -> & He). eauto.
  - destruct (fromHeight heaviest from) as [mn|e] eqn:Hf.
    + destruct (toHeight_bad to H) as (e & -> & He). eauto.
    + exists e. split; [reflexivity|]. eapply fromHeight_Err_parse; eauto.
Qed.

Lemma sub_exact x y :
  0 <= x <= Int64.max_signed -> 0 <= y <= Int64.max_signed ->
  Int64.sub x y = x - y.
Proof.
  intros Hx Hy. unfold Int64.sub. apply Int64.signed_id.
  unfold Int64.in_range, Int64.min_signed, Int64.max_signed in *.
  unfold Int64.half_modulus in *. lia.
Qed.

Lemma validateRange_open heaviest f maxRange :
  0 <= heaviest <= Int64.max_signed -> 0 <= f <= Int64.max_signed ->
  validateRange heaviest f (-1) maxRange =
    if heaviest - f >? maxRange then Err (ErrTooFarInPast maxRange)
    else Ok (f, -1).
Proof.
  intros Hh Hf. unfold validateRange.
  replace (f =? -1) with false by (symmetry; apply Z.eqb_neq; lia).
  replace (f >=? 0) with true by (symmetry; apply Z.geb_le; lia).
  simpl. rewrite sub_exact by assumption. reflexivity.
Qed.

Lemma validateRange_closed heaviest f t maxRange :
  0 <= f <= Int64.max_signed -> 0 <= t <= Int64.max_signed ->
  validateRange heaviest f t maxRange =
    if f >? t then Err (ErrInverted f t)
    else if t - f >? maxRange then Err (ErrRangeTooLarge maxRange)
    else Ok (f, t).
Proof.
  intros Hf Ht. unfold validateRange.
  replace (f =? -1) with false by (symmetry; apply Z.eqb_neq; lia).
  replace (f >=? 0) with true by (symmetry; apply Z.geb_le; lia).
  replace (t =? -1) with false by (symmetry; apply Z.eqb_neq; lia).
  replace (t >=? 0) with true by (symmetry; apply Z.geb_le; lia).
  simpl. rewrite sub_exact by assumption. reflexivity.
Qed.

End Parse.

(** The claims of the specification about [parseBlockRange], for a head
    and a maximum range that are non-negative epochs and for explicit
    heights that fit a non-negative [abi.ChainEpoch]: open bounds resolve
    to the head and to [-1], ["earliest"] to 0, other strings that are not
    hexadecimal numerals are refused, a span above [maxRange] is refused as
    too large and an explicit lower bound above an explicit upper bound as
    inverted. *)
Lemma parseBlockRange_on_epochs (hex : string -> option Z)
  (heaviest maxRange : Z) :
  0 <= heaviest <= Int64.max_signed -> 0 <= maxRange ->
  (forall from to, openEnded from -> openEnded to ->
     parseBlockRange hex heaviest from to maxRange = Ok (heaviest, -1))
  /\ (forall from to f, explicitHeight hex from f ->
        0 <= f <= Int64.max_signed -> openEnded to ->
        parseBlockRange hex heaviest from to maxRange =
          if heaviest - f >? maxRange then Err (ErrTooFarInPast maxRange)
          else Ok (f, -1))
  /\ (forall from to t, openEnded from -> explicitHeight hex to t ->
        0 <= t <= Int64.max_signed ->
        parseBlockRange hex heaviest from to maxRange =
          if heaviest >? t then Err (ErrInverted heaviest t)
          else if t - heaviest >? maxRange then Err (ErrRangeTooLarge maxRange)
          else Ok (heaviest, t))
  /\ (forall from to f t, explicitHeight hex from f ->
        explicitHeight hex to t ->
        0 <= f <= Int64.max_signed -> 0 <= t <= Int64.max_signed ->
        parseBlockRange hex heaviest from to maxRange =
          if f >? t then Err (ErrInverted f t)
          else if t - f >? maxRange then Err (ErrRangeTooLarge maxRange)
          else Ok (f, t))
  /\ (forall from to, badHex hex from \/ badHex hex to ->
        exists e, parseBlockRange hex heaviest from to maxRange = Err e
                  /\ isParseError e = true).
Proof.
  intros Hh Hr. repeat split.
  - intros from to Hf Ht. unfold parseBlockRange.
    rewrite (fromHeight_open hex heaviest from Hf), (toHeight_open hex to Ht).
    rewrite validateRange_open by assumption.
    replace (heaviest - heaviest >? maxRange) with false; [reflexivity|].
    symmetry. rewrite Z.gtb_ltb. apply Z.ltb_ge. lia.
  - intros from to f Hf Hfr Ht. unfold parseBlockRange.
    rewrite (fromHeight_explicit hex heaviest from f Hf Hfr),
      (toHeight_open hex to Ht).
    apply validateRange_open; assumption.
  - intros from to t Hf Ht Htr. unfold parseBlockRange.
    rewrite (fromHeight_open hex heaviest from Hf),
      (toHeight_explicit hex to t Ht Htr).
    apply validateRange_closed; assumption.
  - intros from to f t Hf Ht Hfr Htr. unfold parseBlockRange.
    rewrite (fromHeight_explicit hex heaviest from f Hf Hfr),
      (toHeight_explicit hex to t Ht Htr).
    apply validateRange_closed; assumption.
  - intros from to H. apply parseBlockRange_bad. exact H.
Qed.

(** The three worked examples of the specification. *)
Lemma parseBlockRange_examples :
  parseBlockRange EthUint64FromHex 100 (Some "0x5"%string)
                  (Some "0x0a"%string) 50 = Ok (5, 10)
  /\ parseBlockRange EthUint64FromHex 100 (Some "0x0a"%string)
                     (Some "0x05"%string) 50 = Err (ErrInverted 10 5)
  /\ parseBlockRange EthUint64FromHex 100 None None 50 = Ok (100, -1).
Proof. repeat split; reflexivity. Qed.

(** C2. The conversion [abi.ChainEpoch(epoch)] is unchecked: an explicit
    height of 2^63 or more becomes a negative epoch, and the validation of
    lines 378-396 then lets the range through.  With head 100 and maximum
    range 50, the range from ["0x0"] to ["0x8000000000000000"] spans 2^63
    epochs and is returned as [(0, -2^63)] without an error, and the range
    from ["0xffffffffffffffff"] to ["0x5"], whose lower bound exceeds the
    upper one, is returned as [(-1, 5)]. *)
Theorem parseBlockRange_unchecked_conversion :
  explicitHeight EthUint64FromHex (Some "0x0"%string) 0
  /\ explicitHeight EthUint64FromHex (Some "0x8000000000000000"%string)
                    (2 ^ 63)
  /\ 2 ^ 63 - 0 > 50
  /\ parseBlockRange EthUint64FromHex 100 (Some "0x0"%string)
                     (Some "0x8000000000000000"%string) 50
     = Ok (0, - 2 ^ 63)
  /\ explicitHeight EthUint64FromHex (Some "0xffffffffffffffff"%string)
                    (2 ^ 64 - 1)
  /\ explicitHeight EthUint64FromHex (Some "0x5"%string) 5
  /\ 2 ^ 64 - 1 > 5
  /\ parseBlockRange EthUint64FromHex 100 (Some "0xffffffffffffffff"%string)
                     (Some "0x5"%string) 50
     = Ok (-1, 5).
Proof.
  assert (Hex : forall s h,
            s <> "latest"%string -> s <> ""%string -> s <> "earliest"%string ->
            String.prefix "0x" s = true -> EthUint64FromHex s = Some h ->
            explicitHeight EthUint64FromHex (Some s) h).
  { intros s h H1 H2 H3 H4 H5. right. exists s. repeat split; assumption. }
  repeat split; try (apply Hex; [discriminate..|reflexivity|reflexivity]);
    try reflexivity.
Qed.

End BlockRange.

(** ** Waiting for the event index: [waitForHeightProcessed] *)

Module IndexWait.

(** [context.Canceled] and [context.DeadlineExceeded]. *)
Inductive ctxError := Canceled | DeadlineExceeded.

Inductive waitError :=
| ErrHeightInFuture
| ErrIndexCheck (cause : string)
| ErrContext (e : ctxError).

(** What a call does to its collaborators, in the order of execution. *)
Inductive action :=
| GetHead
| WithTimeout (seconds : Z)
| IsHeightPast (height : Z)
| SubscribeUpdates
| Select
| UnSubscribe
| CancelTimeout.

(** What a [select] on the update channel and on [ctx.Done()] receives. *)
Inductive wakeup :=
| Updated
| Done (e : ctxError).

(** The collaborators as one call sees them: the height of the head, the
    answer of the index to the n-th [IsHeightPast] of the call, and what
    the successive [select] statements receive.  The index advances on its
    own, so two queries for one height may differ. *)
Record world := {
  headHeight : Z;
  isHeightPast : nat -> result string bool;
  wakeups : list wakeup;
}.

(** A call returns, or stays blocked in a [select] that receives nothing. *)
Inductive outcome (A : Type) :=
| Returned (a : A)
| Blocked.
Arguments Returned {A} a.
Arguments Blocked {A}.

(** [eventReadTimeout = 90 * time.Second], in seconds. *)
Definition eventReadTimeout : Z := 90.

(** Lines 287-298: the loop; [q] is the number of queries made so far. *)
Fixpoint waitLoop (isPast : nat -> result string bool) (h : Z)
  (ws : list wakeup) (q : nat) : list action * outcome (option waitError) :=
  match ws with
  | [] => ([Select], Blocked)
  | Done e :: _ => ([Select], Returned (Some (ErrContext e)))
  | Updated :: rest =>
      match isPast q with
      | Err cause =>
          ([Select; IsHeightPast h], Returned (Some (ErrIndexCheck cause)))
      | Ok true => ([Select; IsHeightPast h], Returned None)
      | Ok false =>
          let '(tr, r) := waitLoop isPast h rest (S q) in
          (Select :: IsHeightPast h :: tr, r)
      end
  end.

(** The deferred calls run when the function returns, last one first. *)
Definition deferred {A} (ds : list action) (r : outcome A) : list action :=
  match r with
  | Returned _ => ds
  | Blocked => []
  end.

(** [waitForHeightProcessed]; [None] is the [nil] error.  The height is
    passed to the index as [uint64(height)]. *)
Definition waitForHeightProcessed (w : world) (height : Z)
  : list action * outcome (option waitError) :=
  if height >? headHeight w then
    ([GetHead], Returned (Some ErrHeightInFuture))
  else
    let h := Int64.unsigned height in
    let start := [GetHead; WithTimeout eventReadTimeout; IsHeightPast h] in
    match isHeightPast w 0 with
    | Err cause =>
        (start ++ [CancelTimeout], Returned (Some (ErrIndexCheck cause)))
    | Ok true => (start ++ [CancelTimeout], Returned None)
    | Ok false =>
        let recheck := start ++ [SubscribeUpdates; IsHeightPast h] in
        match isHeightPast w 1 with
        | Err cause =>
            (recheck ++ [UnSubscribe; CancelTimeout],
             Returned (Some (ErrIndexCheck cause)))
        | Ok true => (recheck ++ [UnSubscribe; CancelTimeout], Returned None)
        | Ok false =>
            let '(tr, r) := waitLoop (isHeightPast w) h (wakeups w) 2 in
            (recheck ++ tr ++ deferred [UnSubscribe; CancelTimeout] r, r)
        end
    end.

(** [n] notifications, each followed by a recheck. *)
Definition rechecks (h : Z) (n : nat) : list action :=
  concat (replicate n [Select; IsHeightPast h]).

(** The actions up to and including the second check. *)
Definition checkSubscribeRecheck (h : Z) : list action :=
  [GetHead; WithTimeout 90; IsHeightPast h; SubscribeUpdates; IsHeightPast h].

(** A world in which the index is behind at both checks, is still behind
    after the first notification and has caught up at the second one. *)
Definition laggingIndex : world := {|
  headHeight := 100;
  isHeightPast := fun n => Ok (Nat.leb 3 n);
  wakeups := [Updated; Updated; Done DeadlineExceeded];
|}.

Lemma waitLoop_notified isPast h : forall n rest q,
  (forall i, (i < n)%nat -> isPast (q + i)%nat = Ok false) ->
  waitLoop isPast h (replicate n Updated ++ rest) q =
    let '(tr, r) := waitLoop isPast h rest (q + n)%nat in
    (rechecks h n ++ tr, r).
Proof.
  induction n as [|n IH]; intros rest q Hfalse.
  - simpl. rewrite Nat.add_0_r. destruct (waitLoop isPast h rest q).
    reflexivity.
  - simpl. rewrite <- (Nat.add_0_r q) at 1. rewrite Hfalse by lia.
    rewrite IH.
    + replace (S q + n)%nat with (q + S n)%nat by lia.
      destruct (waitLoop isPast h rest (q + S n)). reflexivity.
    + intros i Hi. replace (S q + i)%nat with (q + S i)%nat by lia.
      apply Hfalse. lia.
Qed.

(** C3. [waitForHeightProcessed] fails without a query to the index when
    the height is above the head; returns [nil] without subscribing when
    the first [IsHeightPast] is true; otherwise subscribes before the
    second [IsHeightPast], and returns [nil] without waiting when that one
    is true; otherwise it rechecks once per notification, returning [nil]
    at the first recheck that is true and the error of the context when
    the context is done, by cancellation or by the deadline of 90 seconds
    set at the start. *)
Theorem waitForHeightProcessed_protocol :
  (forall (w : world) (height : Z),
     height > headHeight w ->
     waitForHeightProcessed w height
     = ([GetHead], Returned (Some ErrHeightInFuture)))
  /\ (forall (w : world) (height : Z),
        height <= headHeight w -> isHeightPast w 0 = Ok true ->
        waitForHeightProcessed w height
        = ([GetHead; WithTimeout 90; IsHeightPast (Int64.unsigned height);
            CancelTimeout], Returned None))
  /\ (forall (w : world) (height : Z),
        height <= headHeight w -> isHeightPast w 0 = Ok false ->
        exists tr r,
          waitForHeightProcessed w height
          = (checkSubscribeRecheck (Int64.unsigned height) ++ tr, r))
  /\ (forall (w : world) (height : Z),
        height <= headHeight w -> isHeightPast w 0 = Ok false ->
        isHeightPast w 1 = Ok true ->
        waitForHeightProcessed w height
        = (checkSubscribeRecheck (Int64.unsigned height)
             ++ [UnSubscribe; CancelTimeout], Returned None))
  /\ (forall (w : world) (height : Z) (n : nat) (rest : list wakeup),
        height <= headHeight w ->
        (forall i, (i < n + 2)%nat -> isHeightPast w i = Ok false) ->
        wakeups w = replicate n Updated ++ rest ->
        (forall tl, rest = Updated :: tl ->
           isHeightPast w (n + 2) = Ok true ->
           waitForHeightProcessed w height
           = (checkSubscribeRecheck (Int64.unsigned height)
                ++ rechecks (Int64.unsigned height) n
                ++ [Select; IsHeightPast (Int64.unsigned height);
                    UnSubscribe; CancelTimeout],
              Returned None))
        /\ (forall e tl, rest = Done e :: tl ->
              waitForHeightProcessed w height
              = (checkSubscribeRecheck (Int64.unsigned height)
                   ++ rechecks (Int64.unsigned height) n
                   ++ [Select; UnSubscribe; CancelTimeout],
                 Returned (Some (ErrContext e))))
        /\ (rest = [] ->
              waitForHeightProcessed w height
              = (checkSubscribeRecheck (Int64.unsigned height)
                   ++ rechecks (Int64.unsigned height) n ++ [Select],
                 Blocked))).
Proof.
  assert (Hle : forall (w : world) height,
            height <= headHeight w -> (height >? headHeight w) = false).
  { intros w height H. rewrite Z.gtb_ltb. apply Z.ltb_ge. exact H. }
  split; [|split; [|split; [|split]]].
  - intros w height H. unfold waitForHeightProcessed.
    replace (height >? headHeight w) with true; [reflexivity|].
    symmetry. rewrite Z.gtb_ltb. apply Z.ltb_lt. lia.
  - intros w height H H0. unfold waitForHeightProcessed.
    rewrite (Hle w height H), H0. reflexivity.
  - intros w height H H0. unfold waitForHeightProcessed.
    rewrite (Hle w height H), H0.
    destruct (isHeightPast w 1) as [[|]|cause].
    + eexists _, _. reflexivity.
    + destruct (waitLoop (isHeightPast w) (Int64.unsigned height) (wakeups w) 2)
        as [tr r].
      eexists _, _. reflexivity.
    + eexists _, _. reflexivity.
  - intros w height H H0 H1. unfold waitForHeightProcessed.
    rewrite (Hle w height H), H0, H1. reflexivity.
  - intros w height n rest H Hfalse Hw.
    assert (Hloop : forall tr r,
              waitLoop (isHeightPast w) (Int64.unsigned height) rest (2 + n)
              = (tr, r) ->
              waitForHeightProcessed w height
              = (checkSubscribeRecheck (Int64.unsigned height)
                   ++ (rechecks (Int64.unsigned height) n ++ tr)
                   ++ deferred [UnSubscribe; CancelTimeout] r, r)).
    { intros tr r Hl. unfold waitForHeightProcessed.
      rewrite (Hle w height H), (Hfalse 0%nat), (Hfalse 1%nat) by lia.
      rewrite Hw, waitLoop_notified, Hl; [reflexivity|].
      intros i Hi. apply Hfalse. lia. }
    split; [|split].
    + intros tl -> Htrue. erewrite Hloop.
      2:{ simpl. replace (S (S n)) with (n + 2)%nat by lia.
          rewrite Htrue. reflexivity. }
      simpl. rewrite <- !app_assoc. reflexivity.
    + intros e tl ->. erewrite Hloop by reflexivity.
      simpl. rewrite <- !app_assoc. reflexivity.
    + intros ->. erewrite Hloop by reflexivity.
      simpl. rewrite app_nil_r. reflexivity.
Qed.

Lemma waitForHeightProcessed_protocol_witness :
  waitForHeightProcessed laggingIndex 42
  = (checkSubscribeRecheck 42 ++ rechecks 42 1
       ++ [Select; IsHeightPast 42; UnSubscribe; CancelTimeout],
     Returned None).
Proof.
  refine (proj1 (proj2 (proj2 (proj2 (proj2
            waitForHeightProcessed_protocol)))
            laggingIndex 42 1%nat [Updated; Done DeadlineExceeded]
            _ _ _) [Done DeadlineExceeded] _ _).
  - simpl. lia.
  - intros i Hi. destruct i as [|[|[|i]]]; [reflexivity..|simpl in Hi; lia].
  - reflexivity.
  - reflexivity.
  - reflexivity.
Defined.

End IndexWait.

(** ** Historical queries: [ethGetEventsForFilter] *)

Module HistoricQuery.

(** [types.EthFilterSpec]. *)
Record EthFilterSpec := {
  FromBlock : option string;
  ToBlock : option string;
  SpecAddress : list EventLog.EthAddress;
  SpecTopics : list (list EventLog.EthHash);
  SpecBlockHash : option EventLog.EthHash;
}.

(** [types.ActorEventBlock]. *)
Record ActorEventBlock := {
  BlockCodec : Z;
  BlockValue : list Byte.byte;
}.

(** [parsedFilter]; [tipsetCid = None] stands for [cid.Undef]. *)
Record parsedFilter := {
  minHeight : Z;
  maxHeight : Z;
  tipsetCid : option EventLog.Cid;
  addresses : list EventLog.Address;
  keys : gmap string (list ActorEventBlock);
}.

Inductive specError :=
| ErrHashAndRange
| ErrRange (e : BlockRange.rangeError)
| ErrInvalidAddress (ea : EventLog.EthAddress)
| ErrTopics (cause : string).

Inductive queryError :=
| ErrNotSupported
| ErrIndexDisabled
| ErrParseSpec (e : specError)
| ErrMaxHeightNegative
| ErrMaxHeightAboveHead
| ErrWait (e : IndexWait.waitError)
| ErrGetTipSet (cause : string)
| ErrTipsetCheck (cause : string)
| ErrTipsetNotIndexed (c : EventLog.Cid)
| ErrInstall (cause : string).

(** The node as one query sees it.  [collect] is the temporary filter of
    lines 246-255: [Install], [TakeCollectedEvents] and [uninstallFilter],
    whose own error is dropped. *)
Record node := {
  EventFilterManager : bool;
  EventIndex : bool;
  MaxFilterHeightRange : Z;
  chain : IndexWait.world;
  GetTipSetByCid : EventLog.Cid -> result string Z;
  IsTipsetProcessed : EventLog.Cid -> result string bool;
  collect : parsedFilter -> result string (list EventLog.CollectedEvent);
}.

(** [keysToKeysWithCodec]: every value becomes a block with the raw codec;
    a key with no value gets no entry. *)
Definition keysToKeysWithCodec (ks : gmap string (list (list Byte.byte)))
  : gmap string (list ActorEventBlock) :=
  fmap (map (fun vv => {| BlockCodec := EventLog.Raw; BlockValue := vv |}))
       (filter (fun kv => kv.2 <> []) ks).

(** A node with head 100 whose index has caught up, and a query for the
    last ten epochs. *)
Definition sampleNode : node := {|
  EventFilterManager := true;
  EventIndex := true;
  MaxFilterHeightRange := 50;
  chain := {| IndexWait.headHeight := 100;
              IndexWait.isHeightPast := fun _ => Ok true;
              IndexWait.wakeups := [] |};
  GetTipSetByCid := fun _ => Err "tipset not found"%string;
  IsTipsetProcessed := fun _ => Ok true;
  collect := fun _ => Ok [];
|}.

Definition sampleSpec : EthFilterSpec := {|
  FromBlock := Some "0x5a"%string;
  ToBlock := None;
  SpecAddress := [];
  SpecTopics := [];
  SpecBlockHash := None;
|}.


Section Query.

(** Conversions defined outside this file. *)
Variable EthUint64FromHex : string -> option Z.
Variable ToCid : EventLog.EthHash -> EventLog.Cid.
Variable ToFilecoinAddress : EventLog.EthAddress -> option EventLog.Address.
Variable parseEthTopics :
  list (list EventLog.EthHash) -> result string (gmap string (list (list Byte.byte))).

(** The loop over [filterSpec.Address]. *)
Fixpoint convertAddresses (eas : list EventLog.EthAddress)
  (acc : list EventLog.Address) : result specError (list EventLog.Address) :=
  match eas with
  | [] => Ok acc
  | ea :: rest =>
      match ToFilecoinAddress ea with
      | None => Err (ErrInvalidAddress ea)
      | Some a => convertAddresses rest (acc ++ [a])
      end
  end.

Definition parseEthFilterSpec (n : node) (filterSpec : EthFilterSpec)
  : result specError parsedFilter :=
  let range :=
    match SpecBlockHash filterSpec with
    | Some blockHash =>
        match FromBlock filterSpec, ToBlock filterSpec with
        | None, None => Ok (0, 0, Some (ToCid blockHash))
        | _, _ => Err ErrHashAndRange
        end
    | None =>
        match BlockRange.parseBlockRange EthUint64FromHex
                (IndexWait.headHeight (chain n)) (FromBlock filterSpec)
                (ToBlock filterSpec) (MaxFilterHeightRange n) with
        | Err e => Err (ErrRange e)
        | Ok (lo, hi) => Ok (lo, hi, None)
        end
    end in
  match range with
  | Err e => Err e
  | Ok (lo, hi, c) =>
      match convertAddresses (SpecAddress filterSpec) [] with
      | Err e => Err e
      | Ok addrs =>
          match parseEthTopics (SpecTopics filterSpec) with
          | Err cause => Err (ErrTopics cause)
          | Ok ks =>
              Ok {| minHeight := lo; maxHeight := hi; tipsetCid := c;
                    addresses := addrs; keys := keysToKeysWithCodec ks |}
          end
      end
  end.

(** Lines 246-255. *)
Definition collectEvents (n : node) (pf : parsedFilter)
  : result queryError (list EventLog.CollectedEvent) :=
  match collect n pf with
  | Err cause => Err (ErrInstall cause)
  | Ok ces => Ok ces
  end.

(** Lines 200-204: the upper bound the query waits for. *)
Definition resolvedMaxHeight (n : node) (pf : parsedFilter) : Z :=
  if maxHeight pf =? -1
  then Int64.sub (IndexWait.headHeight (chain n)) 1
  else maxHeight pf.

(** [ethGetEventsForFilter].  The first component lists the actions of the
    wait on the index; it is empty when the call fails before the wait. *)
Definition ethGetEventsForFilter (n : node) (filterSpec : EthFilterSpec)
  : list IndexWait.action
    * IndexWait.outcome (result queryError (list EventLog.CollectedEvent)) :=
  if negb (EventFilterManager n) then
    ([], IndexWait.Returned (Err ErrNotSupported))
  else if negb (EventIndex n) then
    ([], IndexWait.Returned (Err ErrIndexDisabled))
  else
    match parseEthFilterSpec n filterSpec with
    | Err e => ([], IndexWait.Returned (Err (ErrParseSpec e)))
    | Ok pf =>
        match tipsetCid pf with
        | None =>
            let maxH := resolvedMaxHeight n pf in
            if maxH <? 0 then
              ([], IndexWait.Returned (Err ErrMaxHeightNegative))
            else if maxH >? Int64.sub (IndexWait.headHeight (chain n)) 1 then
              ([], IndexWait.Returned (Err ErrMaxHeightAboveHead))
            else
              match IndexWait.waitForHeightProcessed (chain n) maxH with
              | (tr, IndexWait.Blocked) => (tr, IndexWait.Blocked)
              | (tr, IndexWait.Returned (Some e)) =>
                  (tr, IndexWait.Returned (Err (ErrWait e)))
              | (tr, IndexWait.Returned None) =>
                  (tr, IndexWait.Returned (collectEvents n pf))
              end
        | Some c =>
            match GetTipSetByCid n c with
            | Err cause => ([], IndexWait.Returned (Err (ErrGetTipSet cause)))
            | Ok height =>
                match IndexWait.waitForHeightProcessed (chain n) height with
                | (tr, IndexWait.Blocked) => (tr, IndexWait.Blocked)
                | (tr, IndexWait.Returned (Some e)) =>
                    (tr, IndexWait.Returned (Err (ErrWait e)))
                | (tr, IndexWait.Returned None) =>
                    match IsTipsetProcessed n c with
                    | Err cause =>
                        (tr, IndexWait.Returned (Err (ErrTipsetCheck cause)))
                    | Ok false =>
                        (tr, IndexWait.Returned (Err (ErrTipsetNotIndexed c)))
                    | Ok true =>
                        (tr, IndexWait.Returned (collectEvents n pf))
                    end
                end
            end
        end
    end.



End Query.


End HistoricQuery.

(** ** Filters and subscriptions *)

Module Engine.

(** [types.FilterID] and [types.EthSubscriptionID] are 32-byte arrays,
    read here as numbers. *)
Definition FilterID : Type := N.
Definition SubID : Type := N.

(** The dynamic type of a [filter.Filter]: the three filters of the
    package and any other implementation of the interface. *)
Inductive filterKind :=
| EventFilter
| TipSetFilter
| MemPoolFilter
| OtherFilter.

(** A [filter.Filter] value: a reference to the filter registered under
    [ID] with the manager of its kind. *)
Record Filter := {
  kind : filterKind;
  ID : FilterID;
}.

#[global] Instance filterKind_eq_dec : EqDecision filterKind.
Proof. solve_decision. Defined.

#[global] Instance Filter_eq_dec : EqDecision Filter.
Proof. solve_decision. Defined.

Inductive error :=
| ErrNotSupported
| ErrFilterNotFound
| ErrStoreFull
| ErrAlreadyRegistered
| ErrUnknownFilterType
| ErrInstall (cause : string)
| ErrCleanup (err2 err : error)
| ErrHashAndRange
| ErrChainHead (cause : string)
| ErrRange (e : BlockRange.rangeError)
| ErrInvalidAddress (ea : EventLog.EthAddress)
| ErrTopics (cause : string)
| ErrDecodeParams (cause : string)
| ErrNoCallbacks
| ErrNewUUID (cause : string)
| ErrSubscriptionNotFound
| ErrUnsupportedEventType (eventType : string).

(** [errors.Is(err, filter.ErrFilterNotFound)] *)
Definition isFilterNotFound (e : error) : bool :=
  match e with
  | ErrFilterNotFound => true
  | _ => false
  end.

(** The errors after which [EthSubscribe] runs its clean-up: a failure of
    [parseEthTopics] and a failure of [Install]. *)
Definition cleansUp (err : error) : bool :=
  match err with
  | ErrInstall _ | ErrTopics _ => true
  | _ => false
  end.

(** The state of a filter manager: the filters it has registered, each
    with the subscription channel bound to it by [SetSubChannel], if any.
    A channel is named by the address of the subscription that owns it. *)
Abbreviation manager := (gmap FilterID (option nat)).

(** Modelled from the spec: the managers of package [filter] are not among
    the sources.  [Install] validates the criteria, allocates an
    identifier and registers the filter, or creates nothing; the outcome of
    the validation and the identifier drawn are given by [outcome]. *)
Definition managerInstall (outcome : result string FilterID) (m : manager)
  : result error FilterID * manager :=
  match outcome with
  | Err cause => (Err (ErrInstall cause), m)
  | Ok fid => (Ok fid, <[fid := None]> m)
  end.

(** Modelled from the spec: [Remove] of a manager unregisters the filter;
    an identifier that is not registered is reported as
    [filter.ErrFilterNotFound], the error the callers test for. *)
Definition managerRemove (fid : FilterID) (m : manager)
  : result error unit * manager :=
  match m !! fid with
  | Some _ => (Ok tt, delete fid m)
  | None => (Err ErrFilterNotFound, m)
  end.

(** Modelled from the spec: [SetSubChannel] binds the output of a filter
    to a channel. *)
Definition managerSetSubChannel (fid : FilterID) (ch : nat) (m : manager)
  : manager :=
  match m !! fid with
  | Some _ => <[fid := Some ch]> m
  | None => m
  end.

(** The Filter Store: a registry of the live filters with a capacity. *)
Record filterStore := {
  maxFilters : nat;
  stored : gmap FilterID Filter;
}.

(** Modelled from the spec: [FilterStore.Add] registers a filter and fails
    if the store is full or the identifier collides. *)
Definition storeAdd (f : Filter) (st : filterStore)
  : result error unit * filterStore :=
  if Nat.leb (maxFilters st) (size (stored st)) then (Err ErrStoreFull, st)
  else match stored st !! ID f with
       | Some _ => (Err ErrAlreadyRegistered, st)
       | None =>
           (Ok tt, {| maxFilters := maxFilters st;
                      stored := <[ID f := f]> (stored st) |})
       end.

(** Modelled from the spec: [FilterStore.Get] returns the filter or a
    not-found error. *)
Definition storeGet (fid : FilterID) (st : filterStore) : result error Filter :=
  match stored st !! fid with
  | Some f => Ok f
  | None => Err ErrFilterNotFound
  end.

(** Modelled from the spec: [FilterStore.Remove] deletes the filter; an
    identifier that is not stored is reported as not found. *)
Definition storeRemove (fid : FilterID) (st : filterStore)
  : result error unit * filterStore :=
  match stored st !! fid with
  | Some _ =>
      (Ok tt, {| maxFilters := maxFilters st;
                 stored := delete fid (stored st) |})
  | None => (Err ErrFilterNotFound, st)
  end.

(** [types.TipSet], as far as the subscription reads it. *)
Record TipSet := {
  TsHeight : Z;
  TsKey : EventLog.TipSetKey;
  TsParents : EventLog.TipSetKey;
}.

(** [types.EthBlock], as far as needed to tell blocks apart. *)
Record EthBlock := {
  BlockNumber : Z;
  BlockHash : EventLog.EthHash;
  BlockParentHash : EventLog.EthHash;
}.

(** What a filter posts on the channel [in] of a subscription. *)
Inductive item :=
| ItemEvent (ev : EventLog.CollectedEvent)
| ItemTipSet (ts : TipSet)
| ItemMessage (msg : EventLog.Cid)
| ItemOther.

(** The [Result] of a [types.EthSubscriptionResponse]. *)
Inductive sentValue :=
| SentItem (r : EventLog.resultItem)
| SentBlock (b : EthBlock).

Record EthSubscriptionResponse := {
  SubscriptionID : SubID;
  Result : sentValue;
}.

(** [maxSendQueue]. *)
Definition maxSendQueue : Z := 20000.

(** An [ethSubscription].  [quit] tells whether the field [quit] is not
    [nil]; [cancelled] whether the context of the two stages has been
    cancelled; [sendCond] whether the channel of capacity 1 holds a
    signal. *)
Record ethSubscription := {
  id : SubID;
  subFilters : list Filter;
  quit : bool;
  cancelled : bool;
  sendQueueLen : Z;
  toSend : list (list Byte.byte);
  sendCond : bool;
  lastSentTipset : option EventLog.TipSetKey;
}.

(** The [ethEventAPI] with what it points to.  [newEthEventAPI] leaves
    [FilterStore], [SubManager] and the three managers [nil] exactly when
    it sets [disable], so the tests of these fields against [nil] read
    [disable] here.  [subs] is [SubManager.subs]; it holds pointers, and
    [heap] maps each pointer to the subscription it points to. *)
Record ethEventAPI := {
  disable : bool;
  FilterStore : filterStore;
  EventFilterManager : manager;
  TipSetFilterManager : manager;
  MemPoolFilterManager : manager;
  subs : gmap SubID nat;
  heap : gmap nat ethSubscription;
}.

Definition setFilterStore (st : filterStore) (e : ethEventAPI) : ethEventAPI :=
  {| disable := disable e; FilterStore := st;
     EventFilterManager := EventFilterManager e;
     TipSetFilterManager := TipSetFilterManager e;
     MemPoolFilterManager := MemPoolFilterManager e;
     subs := subs e; heap := heap e |}.

Definition setSubs (s : gmap SubID nat) (e : ethEventAPI) : ethEventAPI :=
  {| disable := disable e; FilterStore := FilterStore e;
     EventFilterManager := EventFilterManager e;
     TipSetFilterManager := TipSetFilterManager e;
     MemPoolFilterManager := MemPoolFilterManager e;
     subs := s; heap := heap e |}.

Definition setHeap (h : gmap nat ethSubscription) (e : ethEventAPI)
  : ethEventAPI :=
  {| disable := disable e; FilterStore := FilterStore e;
     EventFilterManager := EventFilterManager e;
     TipSetFilterManager := TipSetFilterManager e;
     MemPoolFilterManager := MemPoolFilterManager e;
     subs := subs e; heap := h |}.

(** The manager of a kind of filter, read and written. *)
Definition managerOf (k : filterKind) (e : ethEventAPI) : manager :=
  match k with
  | EventFilter => EventFilterManager e
  | TipSetFilter => TipSetFilterManager e
  | MemPoolFilter => MemPoolFilterManager e
  | OtherFilter => ∅
  end.

Definition setManager (k : filterKind) (m : manager) (e : ethEventAPI)
  : ethEventAPI :=
  {| disable := disable e; FilterStore := FilterStore e;
     EventFilterManager :=
       match k with EventFilter => m | _ => EventFilterManager e end;
     TipSetFilterManager :=
       match k with TipSetFilter => m | _ => TipSetFilterManager e end;
     MemPoolFilterManager :=
       match k with MemPoolFilter => m | _ => MemPoolFilterManager e end;
     subs := subs e; heap := heap e |}.

(** [uninstallFilter]: the manager of the filter's type forgets it, an
    absent filter being fine, then the store does. *)
Definition uninstallFilter (f : Filter) (e : ethEventAPI)
  : result error unit * ethEventAPI :=
  match kind f with
  | OtherFilter => (Err ErrUnknownFilterType, e)
  | k =>
      let '(r, m) := managerRemove (ID f) (managerOf k e) in
      let e1 := setManager k m e in
      match r with
      | Err err =>
          if negb (isFilterNotFound err) then (Err err, e1)
          else
            let '(r2, st) := storeRemove (ID f) (FilterStore e1) in
            (r2, setFilterStore st e1)
      | Ok _ =>
          let '(r2, st) := storeRemove (ID f) (FilterStore e1) in
          (r2, setFilterStore st e1)
      end
  end.

(** [EthUninstallFilter]; the result is the pair [(bool, error)]. *)
Definition EthUninstallFilter (fid : FilterID) (e : ethEventAPI)
  : (bool * option error) * ethEventAPI :=
  if disable e then ((false, Some ErrNotSupported), e)
  else
    match storeGet fid (FilterStore e) with
    | Err err =>
        if isFilterNotFound err then ((false, None), e)
        else ((false, Some err), e)
    | Ok f =>
        match uninstallFilter f e with
        | (Err err, e1) => ((false, Some err), e1)
        | (Ok _, e1) => ((true, None), e1)
        end
    end.

(** [types.EthSubscribeParams]; [Params = None] is the [nil] pointer. *)
Record EthSubscriptionParams := {
  ParamTopics : list (list EventLog.EthHash);
  ParamAddress : list EventLog.EthAddress;
}.

Record EthSubscribeParams := {
  EventType : string;
  Params : option EthSubscriptionParams;
}.

Definition EthSubscribeEventTypeHeads : string := "newHeads".
Definition EthSubscribeEventTypeLogs : string := "logs".
Definition EthSubscribeEventTypePendingTransactions : string :=
  "newPendingTransactions".

(** What the environment decides in one call of the API: the head of the
    chain, the outcome of [Install] (the validation of the criteria and
    the identifier drawn), the identifier drawn for a subscription, and
    whether the connection supports callbacks. *)
Record oracle := {
  ChainHead : result string Z;
  installOutcome : result string FilterID;
  newUUID : result string SubID;
  reverseClient : bool;
}.

(** *** Subscriptions *)

(** The subscription [StartSubscription] creates. *)
Definition newSubscription (sid : SubID) : ethSubscription :=
  {| id := sid; subFilters := [];
     quit := true; cancelled := false;
     sendQueueLen := 0; toSend := [];
     sendCond := false; lastSentTipset := None |}.

(** Updates of single fields of a subscription. *)
Definition stopped (sub : ethSubscription) : ethSubscription :=
  {| id := id sub; subFilters := subFilters sub;
     quit := false; cancelled := true;
     sendQueueLen := sendQueueLen sub; toSend := toSend sub;
     sendCond := sendCond sub; lastSentTipset := lastSentTipset sub |}.

Definition enqueued (outParam : list Byte.byte) (sub : ethSubscription)
  : ethSubscription :=
  {| id := id sub; subFilters := subFilters sub;
     quit := quit sub; cancelled := cancelled sub;
     sendQueueLen := Int64.add (sendQueueLen sub) 1;
     toSend := toSend sub ++ [outParam];
     sendCond := sendCond sub; lastSentTipset := lastSentTipset sub |}.

Definition signalled (sub : ethSubscription) : ethSubscription :=
  {| id := id sub; subFilters := subFilters sub;
     quit := quit sub; cancelled := cancelled sub;
     sendQueueLen := sendQueueLen sub; toSend := toSend sub;
     sendCond := true; lastSentTipset := lastSentTipset sub |}.

Definition withFilter (f : Filter) (sub : ethSubscription) : ethSubscription :=
  {| id := id sub; subFilters := subFilters sub ++ [f];
     quit := quit sub; cancelled := cancelled sub;
     sendQueueLen := sendQueueLen sub; toSend := toSend sub;
     sendCond := sendCond sub; lastSentTipset := lastSentTipset sub |}.

Definition withLastSent (k : EventLog.TipSetKey) (sub : ethSubscription)
  : ethSubscription :=
  {| id := id sub; subFilters := subFilters sub;
     quit := quit sub; cancelled := cancelled sub;
     sendQueueLen := sendQueueLen sub; toSend := toSend sub;
     sendCond := sendCond sub; lastSentTipset := Some k |}.

(** The loop of [stop] over the filters; an error of [uninstallFilter] is
    logged and the loop goes on. *)
Definition uninstallAll (fs : list Filter) (e : ethEventAPI) : ethEventAPI :=
  foldl (fun e' f => snd (uninstallFilter f e')) e fs.

(** [ethSubscription.stop], on the subscription at address [a]. *)
Definition stop (a : nat) (e : ethEventAPI) : ethEventAPI :=
  match heap e !! a with
  | None => e
  | Some sub =>
      if negb (quit sub) then e
      else uninstallAll (subFilters sub)
                        (setHeap (<[a := stopped sub]> (heap e)) e)
  end.

(** [ethSubscription.addFilter]. *)
Definition addFilter (a : nat) (f : Filter) (e : ethEventAPI) : ethEventAPI :=
  let e1 :=
    setManager (kind f)
               (managerSetSubChannel (ID f) a (managerOf (kind f) e)) e in
  setHeap (alter (withFilter f) a (heap e1)) e1.

(** [EthSubscriptionManager.StartSubscription]; the result is the pointer
    to the new subscription.  The two stages it starts are the functions
    [ingest] and [send] below, run by the scheduler. *)
Definition StartSubscription (o : oracle) (e : ethEventAPI)
  : result error nat * ethEventAPI :=
  match newUUID o with
  | Err cause => (Err (ErrNewUUID cause), e)
  | Ok sid =>
      let a := fresh (dom (heap e)) in
      (Ok a, setSubs (<[sid := a]> (subs e))
                     (setHeap (<[a := newSubscription sid]> (heap e)) e))
  end.

(** [EthSubscriptionManager.StopSubscription]. *)
Definition StopSubscription (sid : SubID) (e : ethEventAPI)
  : result error unit * ethEventAPI :=
  match subs e !! sid with
  | None => (Err ErrSubscriptionNotFound, e)
  | Some a =>
      let e1 := stop a e in
      (Ok tt, setSubs (delete sid (subs e1)) e1)
  end.

(** [EthUnsubscribe]; the result is the pair [(bool, error)]. *)
Definition EthUnsubscribe (sid : SubID) (e : ethEventAPI)
  : (bool * option error) * ethEventAPI :=
  if disable e then ((false, Some ErrNotSupported), e)
  else
    match StopSubscription sid e with
    | (Err _, e1) => ((false, None), e1)
    | (Ok _, e1) => ((true, None), e1)
    end.

(** *** Sample nodes *)

(** An enabled node with room for 16 filters and nothing registered. *)
Definition emptyAPI : ethEventAPI := {|
  disable := false;
  FilterStore := {| maxFilters := 16; stored := ∅ |};
  EventFilterManager := ∅;
  TipSetFilterManager := ∅;
  MemPoolFilterManager := ∅;
  subs := ∅;
  heap := ∅;
|}.

Definition sampleOracle : oracle := {|
  ChainHead := Ok 100;
  installOutcome := Ok 1%N;
  newUUID := Ok 42%N;
  reverseClient := true;
|}.

(** Every response marshals to the two bytes of an empty JSON object. *)
Definition sampleMarshal (r : EthSubscriptionResponse)
  : option (list Byte.byte) :=
  Some [Byte.x7b; Byte.x7d].

Definition sampleHash : sentValue :=
  SentItem (EventLog.ResHash EventLog.zeroHash).

(** The node after one [StartSubscription]: the subscription 42 lives at
    address 0. *)
Definition runningAPI : ethEventAPI :=
  snd (StartSubscription sampleOracle emptyAPI).

(** 20000 payloads that wait for delivery. *)
Definition backlog : list (list Byte.byte) :=
  replicate (Pos.to_nat 20000) [Byte.x7b; Byte.x7d].

(** The subscription 42 after [n] values have been sent and none has been
    delivered, while [n] is at most the cap. *)
Definition queued (n : nat) : ethSubscription := {|
  id := 42%N; subFilters := [];
  quit := true; cancelled := false;
  sendQueueLen := Z.of_nat n;
  toSend := replicate n [Byte.x7b; Byte.x7d];
  sendCond := negb (Z.of_nat n =? 0);
  lastSentTipset := None;
|}.

(** The subscription with that backlog: one payload below the cap. *)
Definition fullSubscription : ethSubscription := {|
  id := 42%N; subFilters := [];
  quit := true; cancelled := false;
  sendQueueLen := 20000;
  toSend := backlog;
  sendCond := true; lastSentTipset := None;
|}.

(** The node after 20000 values have been sent on the subscription and
    none has been delivered. *)
Definition fullAPI : ethEventAPI :=
  setHeap (<[0%nat := fullSubscription]> (heap runningAPI)) runningAPI.

(** The node after one more value has been sent: the subscription is
    stopped, with 20001 payloads in its queue. *)
Definition floodedAPI : ethEventAPI :=
  setHeap (<[0%nat := stopped (enqueued [Byte.x7b; Byte.x7d] fullSubscription)]>
             (heap fullAPI)) fullAPI.

(** A chain of two tipsets: the genesis and its child at height 1. *)
Definition genesis : TipSet :=
  {| TsHeight := 0; TsKey := "genesis"; TsParents := "" |}.

Definition firstTipSet : TipSet :=
  {| TsHeight := 1; TsKey := "first"; TsParents := "genesis" |}.

Definition sampleChain (k : EventLog.TipSetKey) : option TipSet :=
  if String.eqb k "genesis" then Some genesis
  else if String.eqb k "first" then Some firstTipSet
  else None.

Definition sampleBlock (ts : TipSet) : option EthBlock :=
  Some {| BlockNumber := TsHeight ts;
          BlockHash := EventLog.zeroHash;
          BlockParentHash := EventLog.zeroHash |}.

Section Node.

(** Conversions and collaborators defined outside this file. *)
Variable EthUint64FromHex : string -> option Z.
Variable ToFilecoinAddress : EventLog.EthAddress -> option EventLog.Address.
Variable parseEthTopics :
  list (list EventLog.EthHash)
  -> result string (gmap string (list (list Byte.byte))).
Variable MaxFilterHeightRange : Z.
Variable Marshal : EthSubscriptionResponse -> option (list Byte.byte).
Variable ChainGetTipSet : EventLog.TipSetKey -> option TipSet.
Variable newEthBlockFromFilecoinTipSet : TipSet -> option EthBlock.
Variable EthAddressFromFilecoinAddress :
  EventLog.Address -> result EventLog.error EventLog.EthAddress.
Variable ethTxHashFromMessageCid :
  EventLog.Cid -> result EventLog.error EventLog.EthHash.
Variable TipSetKeyCid : EventLog.TipSetKey -> result EventLog.error EventLog.Cid.
Variable EthHashFromCid : EventLog.Cid -> result EventLog.error EventLog.EthHash.
Variable ethTxHashFromSignedMessage :
  EventLog.Cid -> result string EventLog.EthHash.

(** The loop over the addresses of a filter specification. *)
Fixpoint convertAddresses (eas : list EventLog.EthAddress)
  (acc : list EventLog.Address) : result error (list EventLog.Address) :=
  match eas with
  | [] => Ok acc
  | ea :: rest =>
      match ToFilecoinAddress ea with
      | None => Err (ErrInvalidAddress ea)
      | Some a => convertAddresses rest (acc ++ [a])
      end
  end.

(** [installEthFilterSpec]: the criteria are computed and handed to
    [EventFilterManager.Install]. *)
Definition installEthFilterSpec (o : oracle)
  (filterSpec : HistoricQuery.EthFilterSpec) (e : ethEventAPI)
  : result error Filter * ethEventAPI :=
  let range :=
    match HistoricQuery.SpecBlockHash filterSpec with
    | Some _ =>
        match HistoricQuery.FromBlock filterSpec,
              HistoricQuery.ToBlock filterSpec with
        | None, None => Ok (0, 0)
        | _, _ => Err ErrHashAndRange
        end
    | None =>
        match ChainHead o with
        | Err cause => Err (ErrChainHead cause)
        | Ok head =>
            match BlockRange.parseBlockRange EthUint64FromHex head
                    (HistoricQuery.FromBlock filterSpec)
                    (HistoricQuery.ToBlock filterSpec)
                    MaxFilterHeightRange with
            | Err err => Err (ErrRange err)
            | Ok r => Ok r
            end
        end
    end in
  match range with
  | Err err => (Err err, e)
  | Ok _ =>
      match convertAddresses (HistoricQuery.SpecAddress filterSpec) [] with
      | Err err => (Err err, e)
      | Ok _ =>
          match parseEthTopics (HistoricQuery.SpecTopics filterSpec) with
          | Err cause => (Err (ErrTopics cause), e)
          | Ok _ =>
              let '(r, m) :=
                managerInstall (installOutcome o) (EventFilterManager e) in
              match r with
              | Err err => (Err err, setManager EventFilter m e)
              | Ok fid =>
                  (Ok {| kind := EventFilter; ID := fid |},
                   setManager EventFilter m e)
              end
          end
      end
  end.

(** [EthNewFilter]. *)
Definition EthNewFilter (o : oracle)
  (filterSpec : HistoricQuery.EthFilterSpec) (e : ethEventAPI)
  : result error FilterID * ethEventAPI :=
  if disable e then (Err ErrNotSupported, e)
  else
    match installEthFilterSpec o filterSpec e with
    | (Err err, e1) => (Err err, e1)
    | (Ok f, e1) =>
        match storeAdd f (FilterStore e1) with
        | (Err err, _) =>
            let '(r2, m) := managerRemove (ID f) (EventFilterManager e1) in
            let e2 := setManager EventFilter m e1 in
            match r2 with
            | Err err2 => (Err (ErrCleanup err2 err), e2)
            | Ok _ => (Err err, e2)
            end
        | (Ok _, st) => (Ok (ID f), setFilterStore st e1)
        end
    end.

(** The identifier of the subscription at an address. *)
Definition subID (a : nat) (e : ethEventAPI) : SubID :=
  match heap e !! a with
  | Some sub => id sub
  | None => 0%N
  end.

(** [EthSubscribe].  [params] is the outcome of [jsonrpc.DecodeParams]. *)
Definition EthSubscribe (params : result string EthSubscribeParams)
  (o : oracle) (e : ethEventAPI) : result error SubID * ethEventAPI :=
  match params with
  | Err cause => (Err (ErrDecodeParams cause), e)
  | Ok p =>
      if disable e then (Err ErrNotSupported, e)
      else if negb (reverseClient o) then (Err ErrNoCallbacks, e)
      else
        match StartSubscription o e with
        | (Err err, e1) => (Err err, e1)
        | (Ok a, e1) =>
            let sid := subID a e1 in
            if String.eqb (EventType p) EthSubscribeEventTypeHeads then
              let '(r, m) :=
                managerInstall (installOutcome o) (TipSetFilterManager e1) in
              let e2 := setManager TipSetFilter m e1 in
              match r with
              | Err err => (Err err, snd (EthUnsubscribe sid e2))
              | Ok fid =>
                  (Ok sid, addFilter a {| kind := TipSetFilter; ID := fid |} e2)
              end
            else if String.eqb (EventType p) EthSubscribeEventTypeLogs then
              let topics :=
                match Params p with
                | None => Ok ∅
                | Some ps => parseEthTopics (ParamTopics ps)
                end in
              match topics with
              | Err cause =>
                  (Err (ErrTopics cause), snd (EthUnsubscribe sid e1))
              | Ok _ =>
                  let addrs :=
                    match Params p with
                    | None => Ok []
                    | Some ps =>
                        convertAddresses (ParamAddress ps) []
                    end in
                  match addrs with
                  | Err err => (Err err, e1)
                  | Ok _ =>
                      let '(r, m) :=
                        managerInstall (installOutcome o)
                                       (EventFilterManager e1) in
                      let e2 := setManager EventFilter m e1 in
                      match r with
                      | Err err => (Err err, snd (EthUnsubscribe sid e2))
                      | Ok fid =>
                          (Ok sid,
                           addFilter a {| kind := EventFilter; ID := fid |} e2)
                      end
                  end
              end
            else if String.eqb (EventType p)
                               EthSubscribeEventTypePendingTransactions then
              let '(r, m) :=
                managerInstall (installOutcome o) (MemPoolFilterManager e1) in
              let e2 := setManager MemPoolFilter m e1 in
              match r with
              | Err err => (Err err, snd (EthUnsubscribe sid e2))
              | Ok fid =>
                  (Ok sid,
                   addFilter a {| kind := MemPoolFilter; ID := fid |} e2)
              end
            else (Err (ErrUnsupportedEventType (EventType p)), e1)
        end
  end.

(** [ethSubscription.send]: a value that cannot be marshalled is logged
    and dropped; otherwise the payload is queued and counted, and the
    subscription is stopped if the count is above [maxSendQueue], the
    drain loop signalled otherwise. *)
Definition send (a : nat) (v : sentValue) (e : ethEventAPI) : ethEventAPI :=
  match heap e !! a with
  | None => e
  | Some sub =>
      match Marshal {| SubscriptionID := id sub; Result := v |} with
      | None => e
      | Some outParam =>
          let sub1 := enqueued outParam sub in
          if sendQueueLen sub1 >? maxSendQueue then
            stop a (setHeap (<[a := sub1]> (heap e)) e)
          else setHeap (<[a := signalled sub1]> (heap e)) e
      end
  end.

(** [ethFilterResultFromMessages]. *)
Fixpoint messageHashes (cs : list EventLog.Cid) (acc : list EventLog.resultItem)
  : result string EventLog.EthFilterResult :=
  match cs with
  | [] => Ok {| EventLog.Results := acc |}
  | c :: rest =>
      match ethTxHashFromSignedMessage c with
      | Err cause => Err cause
      | Ok h => messageHashes rest (acc ++ [EventLog.ResHash h])
      end
  end.

Definition ethFilterResultFromMessages (cs : list EventLog.Cid)
  : result string EventLog.EthFilterResult :=
  messageHashes cs [].

Definition sendAll (a : nat) (rs : list EventLog.resultItem) (e : ethEventAPI)
  : ethEventAPI :=
  foldl (fun e' r => send a (SentItem r) e') e rs.

(** One turn of the loop of [ethSubscription.start]: the value [v] has
    been received from the channel [in] of the subscription at [a]. *)
Definition ingest (a : nat) (v : item) (e : ethEventAPI) : ethEventAPI :=
  match v with
  | ItemEvent ev =>
      match EventLog.ethFilterResultFromEvents EthAddressFromFilecoinAddress
              ethTxHashFromMessageCid TipSetKeyCid EthHashFromCid [ev] with
      | Err _ => e
      | Ok evs => sendAll a (EventLog.Results evs) e
      end
  | ItemTipSet vt =>
      if TsHeight vt =? 0 then e
      else
        let parentTipSetKey := TsParents vt in
        match heap e !! a with
        | None => e
        | Some sub =>
            if bool_decide (lastSentTipset sub = Some parentTipSetKey) then e
            else
              match ChainGetTipSet parentTipSetKey with
              | None => e
              | Some parentTipSet =>
                  match newEthBlockFromFilecoinTipSet parentTipSet with
                  | None => e
                  | Some ethBlock =>
                      let e1 := send a (SentBlock ethBlock) e in
                      setHeap (alter (withLastSent parentTipSetKey) a (heap e1))
                              e1
                  end
              end
        end
  | ItemMessage msg =>
      match ethFilterResultFromMessages [msg] with
      | Err _ => e
      | Ok evs => sendAll a (EventLog.Results evs) e
      end
  | ItemOther => e
  end.


(** *** Installing and uninstalling a filter *)

Lemma installEthFilterSpec_Ok o filterSpec e f e1 :
  installEthFilterSpec o filterSpec e = (Ok f, e1) ->
  kind f = EventFilter
  /\ e1 = setManager EventFilter (<[ID f := None]> (EventFilterManager e)) e.
Proof.
  unfold installEthFilterSpec.
  destruct (match HistoricQuery.SpecBlockHash filterSpec with
            | Some _ => _ | None => _ end) as [rg|err];
    [|intros H; inversion H].
  destruct (convertAddresses _ _); [|intros H; inversion H].
  destruct (parseEthTopics _); [|intros H; inversion H].
  unfold managerInstall. destruct (installOutcome o) as [fid|cause];
    intros H; inversion H. split; reflexivity.
Qed.

Lemma storeAdd_Ok f st st' :
  storeAdd f st = (Ok tt, st') ->
  stored st !! ID f = None
  /\ st' = {| maxFilters := maxFilters st; stored := <[ID f := f]> (stored st) |}.
Proof.
  unfold storeAdd. destruct (Nat.leb _ _); [intros H; inversion H|].
  destruct (stored st !! ID f); intros H; inversion H. split; reflexivity.
Qed.

Lemma EthNewFilter_Ok o filterSpec e fid e1 :
  EthNewFilter o filterSpec e = (Ok fid, e1) ->
  disable e = false
  /\ stored (FilterStore e) !! fid = None
  /\ e1 = setFilterStore
            {| maxFilters := maxFilters (FilterStore e);
               stored := <[fid := {| kind := EventFilter; ID := fid |}]>
                           (stored (FilterStore e)) |}
            (setManager EventFilter (<[fid := None]> (EventFilterManager e)) e).
Proof.
  unfold EthNewFilter. destruct (disable e) eqn:Hd; [intros H; inversion H|].
  destruct (installEthFilterSpec o filterSpec e) as [[f|err] e0] eqn:Hi;
    [|intros H; inversion H].
  apply installEthFilterSpec_Ok in Hi as [Hk ->].
  destruct (storeAdd f _) as [[[]|err] st] eqn:Ha.
  - apply storeAdd_Ok in Ha as [Hnone ->]. intros H. inversion H. subst.
    destruct f as [k i]. simpl in *. subst k. repeat split. exact Hnone.
  - destruct (managerRemove _ _) as [[?|?] ?]; intros H; inversion H.
Qed.

(** C8. A successful [EthNewFilter] followed by [EthUninstallFilter] of
    the identifier it returned succeeds and leaves the Filter Store as it
    was before the installation, in particular with the same number of
    filters; the filter, registered with the event filter manager and
    with the store in between, is registered with neither afterwards. *)
Theorem install_uninstall_round_trip (o : oracle)
  (filterSpec : HistoricQuery.EthFilterSpec) (e e1 : ethEventAPI)
  (fid : FilterID) :
  EthNewFilter o filterSpec e = (Ok fid, e1) ->
  exists e2,
    EthUninstallFilter fid e1 = ((true, None), e2)
    /\ FilterStore e2 = FilterStore e
    /\ size (stored (FilterStore e2)) = size (stored (FilterStore e))
    /\ size (stored (FilterStore e1)) = S (size (stored (FilterStore e)))
    /\ is_Some (stored (FilterStore e1) !! fid)
    /\ is_Some (EventFilterManager e1 !! fid)
    /\ stored (FilterStore e2) !! fid = None
    /\ EventFilterManager e2 !! fid = None.
Proof.
  intros H. apply EthNewFilter_Ok in H as (Hd & Hnone & ->).
  unfold EthUninstallFilter, storeGet, uninstallFilter, managerRemove,
    storeRemove.
  simpl. rewrite Hd. rewrite !lookup_insert_eq. simpl.
  eexists. split; [reflexivity|]. simpl.
  rewrite delete_insert_id by exact Hnone.
  repeat split.
  - destruct (FilterStore e). reflexivity.
  - apply map_size_insert_None. exact Hnone.
  - eexists; reflexivity.
  - eexists; reflexivity.
  - exact Hnone.
  - apply lookup_delete_eq.
Qed.

(** C10. With the event API enabled, [EthUninstallFilter] of an
    identifier that is not in the Filter Store returns [(false, nil)] and
    changes nothing; [EthUnsubscribe] returns [(false, nil)] whenever
    [StopSubscription] fails, as it does for an unknown identifier, and
    [(true, nil)] when it succeeds. *)
Theorem not_found_is_not_an_error :
  (forall (e : ethEventAPI) (fid : FilterID),
     disable e = false -> stored (FilterStore e) !! fid = None ->
     EthUninstallFilter fid e = ((false, None), e))
  /\ (forall (e e1 : ethEventAPI) (sid : SubID) (err : error),
        disable e = false -> StopSubscription sid e = (Err err, e1) ->
        EthUnsubscribe sid e = ((false, None), e1))
  /\ (forall (e : ethEventAPI) (sid : SubID),
        disable e = false -> subs e !! sid = None ->
        StopSubscription sid e = (Err ErrSubscriptionNotFound, e)
        /\ EthUnsubscribe sid e = ((false, None), e))
  /\ (forall (e e1 : ethEventAPI) (sid : SubID),
        disable e = false -> StopSubscription sid e = (Ok tt, e1) ->
        EthUnsubscribe sid e = ((true, None), e1)).
Proof.
  split; [|split; [|split]].
  - intros e fid Hd Hnone. unfold EthUninstallFilter, storeGet.
    rewrite Hd, Hnone. reflexivity.
  - intros e e1 sid err Hd Hs. unfold EthUnsubscribe. rewrite Hd, Hs.
    reflexivity.
  - intros e sid Hd Hnone. unfold EthUnsubscribe, StopSubscription.
    rewrite Hd, Hnone. split; reflexivity.
  - intros e e1 sid Hd Hs. unfold EthUnsubscribe. rewrite Hd, Hs.
    reflexivity.
Qed.

Lemma not_found_is_not_an_error_witness :
  EthUninstallFilter 7%N emptyAPI = ((false, None), emptyAPI)
  /\ EthUnsubscribe 7%N emptyAPI = ((false, None), emptyAPI).
Proof.
  split.
  - apply (proj1 not_found_is_not_an_error emptyAPI 7%N); reflexivity.
  - apply (proj1 (proj2 (proj2 not_found_is_not_an_error)) emptyAPI 7%N);
      reflexivity.
Defined.

(** *** What [uninstallFilter] and [stop] change *)

Lemma uninstallFilter_frame f e :
  heap (snd (uninstallFilter f e)) = heap e
  /\ subs (snd (uninstallFilter f e)) = subs e
  /\ disable (snd (uninstallFilter f e)) = disable e.
Proof.
  unfold uninstallFilter, managerRemove, storeRemove.
  destruct (kind f); simpl;
    repeat match goal with
           | |- context [match ?m !! ?i with _ => _ end] =>
               destruct (m !! i); simpl
           end; repeat split; reflexivity.
Qed.

(** [uninstallFilter] registers nothing. *)
Lemma uninstallFilter_absent f e k (i : FilterID) :
  (managerOf k e !! i = None ->
   managerOf k (snd (uninstallFilter f e)) !! i = None)
  /\ (stored (FilterStore e) !! i = None ->
      stored (FilterStore (snd (uninstallFilter f e))) !! i = None).
Proof.
  assert (Hdel : forall (A : Type) (m : gmap FilterID A) j,
            m !! i = None -> delete j m !! i = None).
  { intros A m j H. rewrite lookup_delete. destruct (decide (j = i)); auto. }
  unfold uninstallFilter, managerRemove, storeRemove.
  destruct (kind f), k; simpl;
    repeat match goal with
           | |- context [match ?m !! ?i with _ => _ end] =>
               destruct (m !! i) eqn:?; simpl
           end; split; intros H; auto.
Qed.

(** A filter of one of the three kinds is registered neither with its
    manager nor with the store once [uninstallFilter] has run. *)
Lemma uninstallFilter_gone f e :
  managerOf (kind f) (snd (uninstallFilter f e)) !! ID f = None
  /\ (kind f <> OtherFilter ->
      stored (FilterStore (snd (uninstallFilter f e))) !! ID f = None).
Proof.
  unfold uninstallFilter, managerRemove, storeRemove.
  destruct (kind f); simpl;
    repeat match goal with
           | |- context [match ?m !! ?i with _ => _ end] =>
               destruct (m !! i) eqn:?; simpl
           end;
    split; intros; try contradiction; try assumption;
    try apply lookup_delete_eq; try apply lookup_empty.
Qed.

Lemma uninstallAll_frame fs : forall e,
  heap (uninstallAll fs e) = heap e
  /\ subs (uninstallAll fs e) = subs e
  /\ disable (uninstallAll fs e) = disable e.
Proof.
  induction fs as [|f fs IH]; intros e; simpl; [repeat split|].
  destruct (IH (snd (uninstallFilter f e))) as (-> & -> & ->).
  apply uninstallFilter_frame.
Qed.

Lemma uninstallAll_absent fs k (i : FilterID) : forall e,
  (managerOf k e !! i = None -> managerOf k (uninstallAll fs e) !! i = None)
  /\ (stored (FilterStore e) !! i = None ->
      stored (FilterStore (uninstallAll fs e)) !! i = None).
Proof.
  induction fs as [|f fs IH]; intros e; simpl; [tauto|].
  destruct (IH (snd (uninstallFilter f e))) as [IH1 IH2].
  destruct (uninstallFilter_absent f e k i) as [H1 H2].
  split; auto.
Qed.

Lemma uninstallAll_gone fs : forall e f,
  f ∈ fs ->
  managerOf (kind f) (uninstallAll fs e) !! ID f = None
  /\ (kind f <> OtherFilter ->
      stored (FilterStore (uninstallAll fs e)) !! ID f = None).
Proof.
  induction fs as [|g fs IH]; intros e f Hin; [inversion Hin|].
  simpl. apply elem_of_cons in Hin as [->|Hin].
  - destruct (uninstallFilter_gone g e) as [H1 H2].
    destruct (uninstallAll_absent fs (kind g) (ID g)
                (snd (uninstallFilter g e))) as [A1 A2].
    split; auto.
  - apply IH. exact Hin.
Qed.

(** *** Errors of [EthSubscribe] *)

Lemma StartSubscription_Ok o e a e1 :
  StartSubscription o e = (Ok a, e1) ->
  exists sid,
    newUUID o = Ok sid /\ subID a e1 = sid
    /\ e1 = setSubs (<[sid := a]> (subs e))
                    (setHeap (<[a := newSubscription sid]> (heap e)) e).
Proof.
  unfold StartSubscription. destruct (newUUID o) as [sid|]; [|discriminate].
  intros H. inversion H. subst. exists sid. repeat split.
  unfold subID. simpl. rewrite lookup_insert_eq. reflexivity.
Qed.

(** [EthUnsubscribe] of a running subscription without filters: it is
    stopped and leaves the registry; managers and store are untouched. *)
Lemma EthUnsubscribe_fresh sid a sub e :
  disable e = false -> subs e !! sid = Some a -> heap e !! a = Some sub ->
  quit sub = true -> subFilters sub = [] ->
  snd (EthUnsubscribe sid e)
  = setSubs (delete sid (subs e)) (setHeap (<[a := stopped sub]> (heap e)) e).
Proof.
  intros Hd Hs Hh Hq Hf. unfold EthUnsubscribe, StopSubscription, stop.
  rewrite Hd, Hs, Hh, Hq, Hf. reflexivity.
Qed.

Lemma convertAddresses_Err eas : forall acc err,
  convertAddresses eas acc = Err err -> cleansUp err = false.
Proof.
  induction eas as [|ea eas IH]; intros acc err; simpl; [discriminate|].
  destruct (ToFilecoinAddress ea); [apply IH|].
  intros H. inversion H. reflexivity.
Qed.

(** After these errors the subscription is out of the registry, stopped,
    and no filter has been added to a manager or to the store. *)
Lemma EthSubscribe_cleanup params o e err e' :
  EthSubscribe params o e = (Err err, e') -> cleansUp err = true ->
  exists sid a,
    newUUID o = Ok sid
    /\ subs e' = delete sid (subs e)
    /\ heap e' !! a = Some (stopped (newSubscription sid))
    /\ EventFilterManager e' = EventFilterManager e
    /\ TipSetFilterManager e' = TipSetFilterManager e
    /\ MemPoolFilterManager e' = MemPoolFilterManager e
    /\ FilterStore e' = FilterStore e.
Proof.
  unfold EthSubscribe. destruct params as [p|]; [|intros H; inversion H; discriminate].
  destruct (disable e) eqn:Hd; [intros H; inversion H; discriminate|].
  destruct (reverseClient o); simpl; [|intros H; inversion H; discriminate].
  destruct (StartSubscription o e) as [[a|err0] e1] eqn:Hstart.
  2:{ unfold StartSubscription in Hstart. destruct (newUUID o); inversion Hstart.
      intros H; inversion H; subst; discriminate. }
  apply StartSubscription_Ok in Hstart as (sid & Hu & Hsid & ->).
  rewrite Hsid.
  assert (Hclean : forall k m,
            m = managerOf k e ->
            snd (EthUnsubscribe sid
                   (setManager k m
                      (setSubs (<[sid := a]> (subs e))
                         (setHeap (<[a := newSubscription sid]> (heap e)) e))))
            = setSubs (delete sid (<[sid := a]> (subs e)))
                (setHeap (<[a := stopped (newSubscription sid)]>
                            (<[a := newSubscription sid]> (heap e)))
                   (setManager k m
                      (setSubs (<[sid := a]> (subs e))
                         (setHeap (<[a := newSubscription sid]> (heap e)) e))))).
  { intros k m _.
    rewrite (EthUnsubscribe_fresh sid a (newSubscription sid));
      [reflexivity|..]; simpl; try reflexivity; try assumption;
      apply lookup_insert_eq. }
  assert (Hdone : forall k m e2,
            m = managerOf k e ->
            e2 = snd (EthUnsubscribe sid
                   (setManager k m
                      (setSubs (<[sid := a]> (subs e))
                         (setHeap (<[a := newSubscription sid]> (heap e)) e)))) ->
            exists sid0 a0,
              newUUID o = Ok sid0
              /\ subs e2 = delete sid0 (subs e)
              /\ heap e2 !! a0 = Some (stopped (newSubscription sid0))
              /\ EventFilterManager e2 = EventFilterManager e
              /\ TipSetFilterManager e2 = TipSetFilterManager e
              /\ MemPoolFilterManager e2 = MemPoolFilterManager e
              /\ FilterStore e2 = FilterStore e).
  { intros k m e2 Hm ->. rewrite (Hclean k m Hm). exists sid, a.
    split; [exact Hu|]. simpl. rewrite delete_insert_eq, lookup_insert_eq.
    subst m. destruct k; repeat split; reflexivity. }
  assert (Hsame : setSubs (<[sid := a]> (subs e))
                    (setHeap (<[a := newSubscription sid]> (heap e)) e)
                  = setManager EventFilter (managerOf EventFilter e)
                      (setSubs (<[sid := a]> (subs e))
                         (setHeap (<[a := newSubscription sid]> (heap e)) e)))
    by reflexivity.
  unfold managerInstall.
  destruct (String.eqb (EventType p) EthSubscribeEventTypeHeads).
  { destruct (installOutcome o); intros H; inversion H; subst.
    intros _. eapply (Hdone TipSetFilter); reflexivity. }
  destruct (String.eqb (EventType p) EthSubscribeEventTypeLogs).
  { destruct (Params p) as [ps|].
    - destruct (parseEthTopics (ParamTopics ps)) as [ks|cause].
      + destruct (convertAddresses (ParamAddress ps) [])
          as [ads|err1] eqn:Hconv.
        * destruct (installOutcome o); intros H; inversion H; subst.
          intros _. eapply (Hdone EventFilter); reflexivity.
        * intros H. inversion H. subst. intros Hc.
          rewrite (convertAddresses_Err _ _ _ Hconv) in Hc. discriminate.
      + intros H. inversion H. subst. intros _. rewrite Hsame.
        eapply (Hdone EventFilter); reflexivity.
    - destruct (installOutcome o); intros H; inversion H; subst.
      intros _. eapply (Hdone EventFilter); reflexivity. }
  destruct (String.eqb (EventType p) EthSubscribeEventTypePendingTransactions).
  { destruct (installOutcome o); intros H; inversion H; subst.
    intros _. eapply (Hdone MemPoolFilter); reflexivity. }
  intros H. inversion H. subst. discriminate.
Qed.

(** An event type that is none of the three known ones is refused after
    the subscription has been started, and nothing is undone. *)
Lemma EthSubscribe_unsupported p o e sid :
  disable e = false -> reverseClient o = true -> newUUID o = Ok sid ->
  EventType p <> EthSubscribeEventTypeHeads ->
  EventType p <> EthSubscribeEventTypeLogs ->
  EventType p <> EthSubscribeEventTypePendingTransactions ->
  EthSubscribe (Ok p) o e
  = (Err (ErrUnsupportedEventType (EventType p)),
     snd (StartSubscription o e))
  /\ subs (snd (StartSubscription o e)) !! sid = Some (fresh (dom (heap e)))
  /\ heap (snd (StartSubscription o e)) !! fresh (dom (heap e))
     = Some (newSubscription sid).
Proof.
  intros Hd Hr Hu H1 H2 H3. unfold EthSubscribe, StartSubscription.
  rewrite Hd, Hr, Hu. simpl.
  destruct (String.eqb_spec (EventType p) EthSubscribeEventTypeHeads);
    [contradiction|].
  destruct (String.eqb_spec (EventType p) EthSubscribeEventTypeLogs);
    [contradiction|].
  destruct (String.eqb_spec (EventType p)
              EthSubscribeEventTypePendingTransactions); [contradiction|].
  repeat split; apply lookup_insert_eq.
Qed.

(** *** The cap on the send queue *)

Lemma send_unmarshalled a v e sub :
  heap e !! a = Some sub ->
  Marshal {| SubscriptionID := id sub; Result := v |} = None ->
  send a v e = e.
Proof. intros H Hm. unfold send. rewrite H, Hm. reflexivity. Qed.

Lemma enqueued_over_cap p sub :
  maxSendQueue <= sendQueueLen sub < Int64.max_signed ->
  sendQueueLen (enqueued p sub) = sendQueueLen sub + 1
  /\ (sendQueueLen (enqueued p sub) >? maxSendQueue) = true.
Proof.
  intros Hq. simpl. unfold Int64.add. rewrite Int64.signed_id.
  - split; [reflexivity|]. rewrite Z.gtb_ltb. apply Z.ltb_lt. lia.
  - unfold Int64.in_range, Int64.min_signed, Int64.max_signed, maxSendQueue in *.
    unfold Int64.half_modulus in *. lia.
Qed.

Lemma send_over_cap a v e sub p :
  heap e !! a = Some sub ->
  Marshal {| SubscriptionID := id sub; Result := v |} = Some p ->
  maxSendQueue <= sendQueueLen sub < Int64.max_signed ->
  send a v e =
    if quit sub
    then uninstallAll (subFilters sub)
           (setHeap (<[a := stopped (enqueued p sub)]> (heap e)) e)
    else setHeap (<[a := enqueued p sub]> (heap e)) e.
Proof.
  intros H Hm Hq. unfold send. rewrite H, Hm.
  destruct (enqueued_over_cap p sub Hq) as [_ ->].
  unfold stop. simpl. rewrite lookup_insert_eq. simpl.
  destruct (quit sub); simpl; [|reflexivity].
  unfold setHeap. simpl. rewrite insert_insert_eq. reflexivity.
Qed.

(** C5 (amended). A [send] that raises the counter of a running
    subscription above [maxSendQueue] keeps the payload in the queue and
    stops the subscription: [quit] is cleared, the context of the stages
    is cancelled and every attached filter is removed from its manager
    (and from the store).  A further [send] on the stopped subscription
    stops nothing and signals nothing; it still appends the payload to the
    queue and increments the counter. *)
Theorem send_above_cap_stops_subscription (a : nat) (v : sentValue)
  (e : ethEventAPI) (sub : ethSubscription) (p : list Byte.byte) :
  heap e !! a = Some sub ->
  Marshal {| SubscriptionID := id sub; Result := v |} = Some p ->
  maxSendQueue <= sendQueueLen sub < Int64.max_signed ->
  (quit sub = true ->
     heap (send a v e) !! a = Some (stopped (enqueued p sub))
     /\ quit (stopped (enqueued p sub)) = false
     /\ cancelled (stopped (enqueued p sub)) = true
     /\ toSend (stopped (enqueued p sub)) = toSend sub ++ [p]
     /\ sendQueueLen (stopped (enqueued p sub)) = sendQueueLen sub + 1
     /\ subs (send a v e) = subs e
     /\ (forall f : Filter, f ∈ subFilters sub ->
           managerOf (kind f) (send a v e) !! ID f = None
           /\ (kind f <> OtherFilter ->
               stored (FilterStore (send a v e)) !! ID f = None)))
  /\ (quit sub = false ->
        send a v e = setHeap (<[a := enqueued p sub]> (heap e)) e
        /\ toSend (enqueued p sub) = toSend sub ++ [p]
        /\ sendQueueLen (enqueued p sub) = sendQueueLen sub + 1
        /\ send a v e <> e).
Proof.
  intros H Hm Hq. pose proof (send_over_cap a v e sub p H Hm Hq) as Hs.
  destruct (enqueued_over_cap p sub Hq) as [Hlen _].
  split; intros Hquit; rewrite Hquit in Hs; rewrite Hs.
  - destruct (uninstallAll_frame (subFilters sub)
                (setHeap (<[a := stopped (enqueued p sub)]> (heap e)) e))
      as (-> & -> & _).
    simpl. rewrite lookup_insert_eq.
    repeat split; try reflexivity; try exact Hlen.
    + apply uninstallAll_gone. assumption.
    + apply uninstallAll_gone. assumption.
  - repeat split; try exact Hlen.
    intros Heq. apply (f_equal (fun x => heap x !! a)) in Heq.
    simpl in Heq. rewrite lookup_insert_eq, H in Heq.
    inversion Heq as [Hsub]. apply (f_equal sendQueueLen) in Hsub.
    rewrite Hlen in Hsub. lia.
Qed.

(** *** Tipset notifications *)



End Node.

(** *** Concrete runs *)

(** The ingest stage of the subscription at address 0, on the sample
    chain; no event and no message reaches it in the runs below. *)
Definition sampleIngest (v : item) (e : ethEventAPI) : ethEventAPI :=
  ingest sampleMarshal sampleChain sampleBlock
         (fun _ => Err "no address"%string) (fun _ => Err "no message"%string)
         (fun _ => Err "no cid"%string) (fun _ => Err "no hash"%string)
         (fun _ => Err "no message"%string)
         0%nat v e.

Example runningAPI_heap :
  heap runningAPI !! 0%nat = Some (newSubscription 42%N)
  /\ subs runningAPI !! 42%N = Some 0%nat.
Proof. vm_compute. split; reflexivity. Qed.

Lemma fullAPI_heap : heap fullAPI !! 0%nat = Some fullSubscription.
Proof. unfold fullAPI, setHeap. cbn [heap]. apply lookup_insert_eq. Qed.

Lemma fullSubscription_len :
  maxSendQueue <= sendQueueLen fullSubscription < Int64.max_signed.
Proof.
  unfold fullSubscription, maxSendQueue, Int64.max_signed, Int64.half_modulus.
  cbn [sendQueueLen]. lia.
Qed.

Lemma sends_below_cap (n : nat) :
  Z.of_nat n <= maxSendQueue ->
  Nat.iter n (send sampleMarshal 0%nat sampleHash) runningAPI
  = setHeap (<[0%nat := queued n]> (heap runningAPI)) runningAPI.
Proof.
  induction n as [|n IH]; intros Hn.
  - simpl. rewrite insert_id; [reflexivity|]. exact (proj1 runningAPI_heap).
  - rewrite Nat.iter_succ, IH by lia. unfold send.
    cbn [heap setHeap]. rewrite lookup_insert_eq.
    cbn [sampleMarshal].
    assert (Hlen : sendQueueLen (enqueued [Byte.x7b; Byte.x7d] (queued n))
                   = Z.of_nat (S n)).
    { cbn [sendQueueLen enqueued queued]. unfold Int64.add.
      rewrite Int64.signed_id; [lia|].
      unfold maxSendQueue, Int64.in_range, Int64.min_signed, Int64.max_signed in *.
      unfold Int64.half_modulus. lia. }
    rewrite Hlen.
    replace (Z.of_nat (S n) >? maxSendQueue) with false
      by (symmetry; rewrite Z.gtb_ltb; apply Z.ltb_ge; lia).
    rewrite insert_insert_eq.
    change (setHeap ?h (setHeap ?h' ?r)) with (setHeap h r).
    f_equal. f_equal.
    unfold signalled, queued. cbn [id subFilters quit cancelled sendQueueLen
                                     toSend sendCond lastSentTipset enqueued].
    fold (Int64.add (Z.of_nat n) 1).
    change (sendQueueLen (enqueued [Byte.x7b; Byte.x7d] (queued n)))
      with (Int64.add (Z.of_nat n) 1) in Hlen.
    rewrite Hlen.
    replace (Z.of_nat (S n) =? 0) with false
      by (symmetry; apply Z.eqb_neq; lia).
    rewrite <- replicate_cons_app. reflexivity.
Qed.

(** 20000 sends on the new subscription lead to [fullAPI], one more to
    [floodedAPI]. *)
Lemma fullAPI_reached :
  Nat.iter (Pos.to_nat 20000) (send sampleMarshal 0%nat sampleHash) runningAPI
  = fullAPI.
Proof.
  rewrite sends_below_cap by (rewrite positive_nat_Z; unfold maxSendQueue; lia).
  unfold fullAPI, fullSubscription, queued, backlog.
  rewrite positive_nat_Z. reflexivity.
Qed.

Lemma floodedAPI_eq :
  send sampleMarshal 0%nat sampleHash fullAPI = floodedAPI.
Proof.
  rewrite (send_over_cap sampleMarshal 0%nat sampleHash fullAPI fullSubscription
             [Byte.x7b; Byte.x7d] fullAPI_heap eq_refl fullSubscription_len).
  reflexivity.
Qed.

Lemma send_above_cap_stops_subscription_witness :
  heap (send sampleMarshal 0%nat sampleHash fullAPI) !! 0%nat
  = Some (stopped (enqueued [Byte.x7b; Byte.x7d] fullSubscription)).
Proof.
  exact (proj1 (proj1 (send_above_cap_stops_subscription sampleMarshal
                         0%nat sampleHash fullAPI fullSubscription
                         [Byte.x7b; Byte.x7d] fullAPI_heap eq_refl
                         fullSubscription_len) eq_refl)).
Defined.

(** C5, as stated, fails: 20001 sends on a new subscription, none of them
    delivered, lead to [floodedAPI], where the subscription is stopped,
    and one more [send] is not a no-op: it appends a payload to the queue
    and raises the counter to 20002. *)
Lemma send_after_stop_still_enqueues :
  Nat.iter (S (Pos.to_nat 20000)) (send sampleMarshal 0%nat sampleHash)
           runningAPI
  = floodedAPI
  /\   (quit <$> heap floodedAPI !! 0%nat) = Some false
  /\ (cancelled <$> heap floodedAPI !! 0%nat) = Some true
  /\ (sendQueueLen <$> heap floodedAPI !! 0%nat) = Some 20001
  /\ (sendQueueLen <$>
        heap (send sampleMarshal 0%nat sampleHash floodedAPI) !! 0%nat)
     = Some 20002
  /\ (toSend <$>
        heap (send sampleMarshal 0%nat sampleHash floodedAPI) !! 0%nat)
     = Some ((backlog ++ [[Byte.x7b; Byte.x7d]]) ++ [[Byte.x7b; Byte.x7d]])
  /\ send sampleMarshal 0%nat sampleHash floodedAPI <> floodedAPI.
Proof.
  assert (Hh : heap floodedAPI !! 0%nat
               = Some (stopped (enqueued [Byte.x7b; Byte.x7d] fullSubscription))).
  { unfold floodedAPI, setHeap. cbn [heap]. apply lookup_insert_eq. }
  assert (Hlen : maxSendQueue
                 <= sendQueueLen
                      (stopped (enqueued [Byte.x7b; Byte.x7d] fullSubscription))
                 < Int64.max_signed).
  { unfold maxSendQueue, Int64.max_signed, Int64.half_modulus.
    cbn [sendQueueLen stopped enqueued fullSubscription].
    change (Int64.add 20000 1) with 20001. lia. }
  pose proof (send_over_cap sampleMarshal 0%nat sampleHash floodedAPI _
                [Byte.x7b; Byte.x7d] Hh eq_refl Hlen) as Hs.
  cbn [quit stopped] in Hs.
  assert (Hh2 : heap (send sampleMarshal 0%nat sampleHash floodedAPI) !! 0%nat
                = Some (enqueued [Byte.x7b; Byte.x7d]
                          (stopped (enqueued [Byte.x7b; Byte.x7d]
                                      fullSubscription)))).
  { rewrite Hs. unfold setHeap. cbn [heap]. apply lookup_insert_eq. }
  split; [rewrite Nat.iter_succ, fullAPI_reached; exact floodedAPI_eq|].
  split; [rewrite Hh; reflexivity|].
  split; [rewrite Hh; reflexivity|].
  split; [rewrite Hh; reflexivity|].
  split; [rewrite Hh2; reflexivity|].
  split; [rewrite Hh2; reflexivity|].
  intros Heq. rewrite Heq, Hh in Hh2. inversion Hh2.
Qed.



(** C4. Two error returns of [EthSubscribe] come after
    [StartSubscription] and skip the clean-up of the other ones: an
    unsupported event type and an address that does not convert.  The
    node is left as [StartSubscription] made it: subscription 42 is in the
    registry, not stopped and not cancelled. *)
Theorem EthSubscribe_errors_without_cleanup :
  EthSubscribe (fun _ => None) (fun _ => Ok ∅)
    (Ok {| EventType := "newBlocks"; Params := None |})
    sampleOracle emptyAPI
  = (Err (ErrUnsupportedEventType "newBlocks"), runningAPI)
  /\ EthSubscribe (fun _ => None) (fun _ => Ok ∅)
       (Ok {| EventType := "logs";
              Params := Some {| ParamTopics := [];
                                ParamAddress := [[Byte.xff]] |} |})
       sampleOracle emptyAPI
     = (Err (ErrInvalidAddress [Byte.xff]), runningAPI)
  /\ subs emptyAPI !! 42%N = None
  /\ subs runningAPI !! 42%N = Some 0%nat
  /\ heap runningAPI !! 0%nat = Some (newSubscription 42%N)
  /\ quit (newSubscription 42%N) = true
  /\ cancelled (newSubscription 42%N) = false.
Proof.
  destruct runningAPI_heap as [Hh Hs].
  repeat split; try reflexivity; assumption.
Qed.

Lemma install_uninstall_round_trip_witness :
  exists e2,
    EthUninstallFilter 1%N
      (snd (EthNewFilter BlockRange.EthUint64FromHex (fun _ => None)
              (fun _ => Ok ∅) 50 sampleOracle HistoricQuery.sampleSpec
              emptyAPI))
    = ((true, None), e2)
    /\ FilterStore e2 = FilterStore emptyAPI.
Proof.
  destruct (install_uninstall_round_trip BlockRange.EthUint64FromHex
              (fun _ => None) (fun _ => Ok ∅) 50 sampleOracle
              HistoricQuery.sampleSpec emptyAPI
              (snd (EthNewFilter BlockRange.EthUint64FromHex (fun _ => None)
                      (fun _ => Ok ∅) 50 sampleOracle
                      HistoricQuery.sampleSpec emptyAPI))
              1%N eq_refl) as (e2 & H1 & H2 & _).
  exists e2. split; assumption.
Defined.

End Engine.

(** ** Further properties of the log decoder *)

Module LogFacts.

Import EventLog.

(** The data field an entry list stands for: the value of its ["d"]
    entry, empty without one. *)
Definition dataOf (entries : list EventEntry) : list Byte.byte :=
  match dataEntries entries with
  | e :: _ => Value e
  | [] => []
  end.

(** The data field after the entries [rest], starting from [d]: the value
    of the last ["d"] entry, [d] without one. *)
Definition lastData (d : list Byte.byte) (rest : list EventEntry)
  : list Byte.byte :=
  match last (dataEntries rest) with
  | Some e => Value e
  | None => d
  end.

Lemma decodeEntry_data_field st e st1 :
  decodeEntry st e = Some st1 ->
  data st1 = if String.eqb (Key e) "d" then Value e else data st.
Proof.
  unfold decodeEntry.
  destruct (negb (Codec e =? Raw)); [discriminate|].
  destruct (isTopicKey (Key e)) eqn:Hk.
  - apply isTopicKey_slot in Hk. rewrite (topicSlot_not_data _ _ Hk).
    destruct (negb (Nat.eqb (length (Value e)) 32)); [discriminate|].
    destruct (default false (topicsFound st !! topicIndex (Key e)));
      [discriminate|].
    intros H. inversion H. reflexivity.
  - destruct (String.eqb (Key e) "d").
    + destruct (dataFound st); [discriminate|].
      intros H. inversion H. reflexivity.
    + intros H. inversion H. reflexivity.
Qed.

Lemma decodeLoop_data rest : forall st st',
  decodeLoop rest st = Some st' -> data st' = lastData (data st) rest.
Proof.
  induction rest as [|e rest IH]; intros st st' H; simpl in H.
  - inversion H. reflexivity.
  - destruct (decodeEntry st e) as [st1|] eqn:He; [|discriminate].
    rewrite (IH _ _ H), (decodeEntry_data_field _ _ _ He).
    unfold lastData, dataEntries. simpl.
    destruct (String.eqb (Key e) "d"); [|reflexivity].
    rewrite last_cons.
    destruct (last (List.filter (fun e0 => String.eqb (Key e0) "d") rest));
      reflexivity.
Qed.

(** An accepted entry list with the state the loop ends in. *)
Lemma ethLogFromEvent_view entries d ts :
  ethLogFromEvent entries = Some (d, ts) ->
  exists st,
    decodeLoop entries initState = Some st /\ decodeInv entries st
    /\ d = data st /\ ts = topics st
    /\ length ts = length (topicSlots entries).
Proof.
  unfold ethLogFromEvent. pose proof (ethLogFromEvent_inv entries) as Hinv.
  destruct (decodeLoop entries initState) as [st|]; [|discriminate].
  rewrite (inv_count _ _ Hinv).
  destruct (Z.eqb_spec (Z.of_nat (length (topics st)))
                       (Z.of_nat (length (topicSlots entries)))) as [E|E];
    simpl; [|discriminate].
  intros H. inversion H. subst. exists st.
  split; [reflexivity|]. split; [exact Hinv|].
  split; [reflexivity|]. split; [reflexivity|].
  apply Nat2Z.inj. exact E.
Qed.

Lemma dataOf_accepted entries d ts :
  ethLogFromEvent entries = Some (d, ts) -> d = dataOf entries.
Proof.
  intros H. apply ethLogFromEvent_view in H as (st & Hl & Hinv & -> & _ & _).
  rewrite (decodeLoop_data _ _ _ Hl). unfold lastData, dataOf.
  pose proof (inv_data_once _ _ Hinv) as Hone.
  destruct (dataEntries entries) as [|e [|e' l]]; simpl in *;
    [reflexivity|reflexivity|lia].
Qed.

(** X1. An accepted event has at most four topics, each of exactly 32
    bytes, and its data is the value of its ["d"] entry, or empty when it
    has none. *)
Theorem ethLogFromEvent_shape (entries : list EventEntry)
  (d : list Byte.byte) (ts : list EthHash) :
  ethLogFromEvent entries = Some (d, ts) ->
  (length ts <= 4)%nat
  /\ Forall (fun h : EthHash => length h = 32%nat) ts
  /\ d = dataOf entries
  /\ (length (dataEntries entries) <= 1)%nat.
Proof.
  intros H. pose proof (dataOf_accepted _ _ _ H) as Hd.
  apply ethLogFromEvent_view in H as (st & Hl & Hinv & _ & -> & Hlen).
  split; [|split; [|split]].
  - rewrite Hlen. apply (slots_length_le _ _ Hinv).
  - apply (inv_topics_size _ _ Hinv).
  - exact Hd.
  - apply (inv_data_once _ _ Hinv).
Qed.

Lemma ethLogFromEvent_shape_witness :
  (length [sampleTopic] <= 4)%nat
  /\ Forall (fun h : EthHash => length h = 32%nat) [sampleTopic]
  /\ [Byte.x07] = dataOf sampleEntries
  /\ (length (dataEntries sampleEntries) <= 1)%nat.
Proof.
  exact (ethLogFromEvent_shape sampleEntries [Byte.x07] [sampleTopic] eq_refl).
Defined.

Lemma dataEntries_Permutation l l' :
  l ≡ₚ l' -> dataEntries l ≡ₚ dataEntries l'.
Proof.
  unfold dataEntries. induction 1 as [|x l l' _ IH|x y l|l l' l'' _ IH1 _ IH2];
    simpl.
  - reflexivity.
  - destruct (String.eqb (Key x) "d"); [constructor|]; exact IH.
  - destruct (String.eqb (Key x) "d"), (String.eqb (Key y) "d");
      try reflexivity. apply perm_swap.
  - etransitivity; eassumption.
Qed.

Lemma topicSlots_Permutation l l' :
  l ≡ₚ l' -> topicSlots l ≡ₚ topicSlots l'.
Proof. intros H. unfold topicSlots. rewrite H. reflexivity. Qed.

Lemma invalid_Permutation l l' : l ≡ₚ l' -> invalid l -> invalid l'.
Proof.
  intros Hp [H|[H|[H|H]]].
  - left. unfold hasNonRawCodec in *. rewrite <- Hp. exact H.
  - right; left. unfold hasMisSizedTopic in *. rewrite <- Hp. exact H.
  - right; right; left. unfold hasDuplicateTopic in *.
    rewrite <- (topicSlots_Permutation _ _ Hp). exact H.
  - right; right; right. unfold hasSecondData in *.
    rewrite <- (Permutation_length (dataEntries_Permutation _ _ Hp)). exact H.
Qed.

Lemma hasTopicGap_Permutation l l' : l ≡ₚ l' -> hasTopicGap l -> hasTopicGap l'.
Proof.
  intros Hp (s & s' & Hlt & Hin & Hnin). exists s, s'.
  rewrite <- (topicSlots_Permutation _ _ Hp). repeat split; assumption.
Qed.

Lemma rejected_Permutation l l' :
  l ≡ₚ l' -> ethLogFromEvent l = None -> ethLogFromEvent l' = None.
Proof.
  intros Hp H. apply ethLogFromEvent_None. apply ethLogFromEvent_None in H.
  destruct H as [H|H]; [left|right].
  - eapply invalid_Permutation; eassumption.
  - eapply hasTopicGap_Permutation; eassumption.
Qed.

(** An event with a topic in slot 1 before the one in slot 0, and the
    same event with the two topics in the order of their slots. *)
Definition swappedEntries : list EventEntry :=
  [ {| Flags := 3; Key := "t2"; Codec := Raw; Value := replicate 32 Byte.x02 |};
    {| Flags := 3; Key := "d"; Codec := Raw; Value := [Byte.x07] |};
    {| Flags := 3; Key := "t1"; Codec := Raw; Value := replicate 32 Byte.x01 |} ].

Definition orderedEntries : list EventEntry :=
  [ {| Flags := 3; Key := "t1"; Codec := Raw; Value := replicate 32 Byte.x01 |};
    {| Flags := 3; Key := "t2"; Codec := Raw; Value := replicate 32 Byte.x02 |};
    {| Flags := 3; Key := "d"; Codec := Raw; Value := [Byte.x07] |} ].

(** X2. The answer of [ethLogFromEvent] does not depend on the order of
    the entries: two lists with the same entries in another order are both
    rejected, or both accepted with the same data and the same topics. *)
Theorem ethLogFromEvent_order_independent (entries entries' : list EventEntry) :
  entries ≡ₚ entries' ->
  ethLogFromEvent entries = ethLogFromEvent entries'.
Proof.
  intros Hp.
  destruct (ethLogFromEvent entries) as [[d ts]|] eqn:H1;
    destruct (ethLogFromEvent entries') as [[d' ts']|] eqn:H2.
  - pose proof (dataOf_accepted _ _ _ H1) as Hd.
    pose proof (dataOf_accepted _ _ _ H2) as Hd'.
    pose proof (ethLogFromEvent_Some _ _ _ H1) as (Hlen & Hpre & Htop).
    pose proof (ethLogFromEvent_Some _ _ _ H2) as (Hlen' & Hpre' & Htop').
    apply ethLogFromEvent_view in H1 as (st & _ & Hinv & _ & _ & _).
    assert (Edata : dataOf entries = dataOf entries').
    { unfold dataOf. pose proof (dataEntries_Permutation _ _ Hp) as Hdp.
      pose proof (inv_data_once _ _ Hinv) as Hone.
      destruct (dataEntries entries) as [|e [|e2 l]]; simpl in Hone; [| |lia].
      - apply Permutation_nil_l in Hdp. rewrite <- Hdp. reflexivity.
      - apply Permutation_singleton_l in Hdp. rewrite <- Hdp. reflexivity. }
    assert (Etop : ts = ts').
    { apply list_eq. intros i.
      destruct (decide (i < length ts)%nat) as [Hi|Hi].
      - apply Hpre in Hi. apply list_elem_of_omap in Hi as (e & He & Hs).
        destruct (Htop e i He Hs) as [E1 _].
        rewrite Hp in He. destruct (Htop' e i He Hs) as [E2 _].
        etransitivity; [exact E1|symmetry; exact E2].
      - assert (Hlen2 : length ts' = length ts).
        { rewrite Hlen, Hlen'.
          apply Permutation_length, topicSlots_Permutation.
          symmetry. exact Hp. }
        rewrite !lookup_ge_None_2 by lia. reflexivity. }
    subst. rewrite Edata. reflexivity.
  - apply (rejected_Permutation entries' entries) in H2;
      [congruence|symmetry; exact Hp].
  - apply (rejected_Permutation entries entries') in H1; [congruence|exact Hp].
  - reflexivity.
Qed.

Lemma ethLogFromEvent_order_independent_witness :
  ethLogFromEvent swappedEntries = ethLogFromEvent orderedEntries.
Proof.
  apply ethLogFromEvent_order_independent.
  unfold swappedEntries, orderedEntries.
  etransitivity; [apply perm_skip, perm_swap|]. apply perm_swap.
Defined.

End LogFacts.

(** ** Further properties of the result builders *)

Module ResultFacts.

Import EventLog.

(** An event whose entries decode, with a topic and no data. *)
Definition plainEvent : CollectedEvent := {|
  Entries := [ {| Flags := 3; Key := "t1"; Codec := Raw; Value := sampleTopic |} ];
  EmitterAddr := "f410f";
  EventIdx := 0;
  Reverted := false;
  Height := 10;
  EventTipSetKey := "tsk";
  MsgIdx := 0;
  MsgCid := "msg";
|}.

(** The hash a message store answers with for every message. *)
Definition oneHash : EthHash := replicate 32 Byte.x01.

Section Builders.

(** Conversions that live outside this file; each may fail. *)
Variable EthAddressFromFilecoinAddress : Address -> result error EthAddress.
Variable ethTxHashFromMessageCid : Cid -> result error EthHash.
Variable TipSetKeyCid : TipSetKey -> result error Cid.
Variable EthHashFromCid : Cid -> result error EthHash.
Variable ethTxHashFromSignedMessage : Cid -> result string EthHash.

(** The loop of [ethFilterResultFromTipSets]; [acc] is [res.Results]. *)
Fixpoint tipSetHashes (tsks : list TipSetKey) (acc : list resultItem)
  : result error EthFilterResult :=
  match tsks with
  | [] => Ok {| Results := acc |}
  | tsk :: rest =>
      match TipSetKeyCid tsk with
      | Err e => Err e
      | Ok c =>
          match EthHashFromCid c with
          | Err e => Err e
          | Ok h => tipSetHashes rest (acc ++ [ResHash h])
          end
      end
  end.

Definition ethFilterResultFromTipSets (tsks : list TipSetKey)
  : result error EthFilterResult :=
  tipSetHashes tsks [].

(** The hash of one tipset key: its CID, then the hash of the CID. *)
Definition hashOfTipSetKey (tsk : TipSetKey) : result error EthHash :=
  match TipSetKeyCid tsk with
  | Err e => Err e
  | Ok c => EthHashFromCid c
  end.

Lemma filterLogsLoop_acc evs : forall acc,
  filterLogsLoop EthAddressFromFilecoinAddress ethTxHashFromMessageCid
                 TipSetKeyCid EthHashFromCid evs acc
  = match filterLogsLoop EthAddressFromFilecoinAddress ethTxHashFromMessageCid
                         TipSetKeyCid EthHashFromCid evs [] with
    | Ok l => Ok (acc ++ l)
    | Err e => Err e
    end.
Proof.
  induction evs as [|ev evs IH]; intros acc; simpl.
  - rewrite app_nil_r. reflexivity.
  - destruct (ethLogFromEvent (Entries ev)) as [[d ts]|]; [|apply IH].
    destruct (EthAddressFromFilecoinAddress (EmitterAddr ev)); [|reflexivity].
    destruct (ethTxHashFromMessageCid (MsgCid ev)) as [h|]; [|reflexivity].
    destruct (bool_decide (h = EmptyEthHash)); [apply IH|].
    destruct (TipSetKeyCid (EventTipSetKey ev)) as [c|]; [|reflexivity].
    destruct (EthHashFromCid c); [|reflexivity].
    rewrite IH. rewrite (IH [_]).
    destruct (filterLogsLoop _ _ _ _ evs []); [|reflexivity].
    rewrite <- app_assoc. reflexivity.
Qed.

Lemma filterLogsLoop_app l1 : forall l2 acc,
  filterLogsLoop EthAddressFromFilecoinAddress ethTxHashFromMessageCid
                 TipSetKeyCid EthHashFromCid (l1 ++ l2) acc
  = match filterLogsLoop EthAddressFromFilecoinAddress ethTxHashFromMessageCid
                         TipSetKeyCid EthHashFromCid l1 acc with
    | Ok a => filterLogsLoop EthAddressFromFilecoinAddress
                ethTxHashFromMessageCid TipSetKeyCid EthHashFromCid l2 a
    | Err e => Err e
    end.
Proof.
  induction l1 as [|ev l1 IH]; intros l2 acc; simpl; [reflexivity|].
  destruct (ethLogFromEvent (Entries ev)) as [[d ts]|]; [|apply IH].
  destruct (EthAddressFromFilecoinAddress (EmitterAddr ev)); [|reflexivity].
  destruct (ethTxHashFromMessageCid (MsgCid ev)) as [h|]; [|reflexivity].
  destruct (bool_decide (h = EmptyEthHash)); [apply IH|].
  destruct (TipSetKeyCid (EventTipSetKey ev)) as [c|]; [|reflexivity].
  destruct (EthHashFromCid c); [apply IH|reflexivity].
Qed.

Lemma filterLogsLoop_length evs : forall acc out,
  filterLogsLoop EthAddressFromFilecoinAddress ethTxHashFromMessageCid
                 TipSetKeyCid EthHashFromCid evs acc = Ok out ->
  (length out <= length acc + length evs)%nat.
Proof.
  induction evs as [|ev evs IH]; intros acc out H; simpl in H.
  - inversion H. lia.
  - assert (Hskip : filterLogsLoop EthAddressFromFilecoinAddress
                      ethTxHashFromMessageCid TipSetKeyCid EthHashFromCid
                      evs acc = Ok out ->
                    (length out <= length acc + length (ev :: evs))%nat).
    { intros H'. apply IH in H'. simpl. lia. }
    destruct (ethLogFromEvent (Entries ev)) as [[d ts]|]; [|auto].
    destruct (EthAddressFromFilecoinAddress (EmitterAddr ev)); [|discriminate].
    destruct (ethTxHashFromMessageCid (MsgCid ev)) as [h|]; [|discriminate].
    destruct (bool_decide (h = EmptyEthHash)); [auto|].
    destruct (TipSetKeyCid (EventTipSetKey ev)) as [c|]; [|discriminate].
    destruct (EthHashFromCid c); [|discriminate].
    apply IH in H. rewrite length_app in H. simpl in *. lia.
Qed.

(** X3. [ethFilterLogsFromEvents] works event by event: the answer for
    two lists one after the other is the error of the first list, else
    the error of the second one, else the logs of the first followed by
    the logs of the second; and there are never more logs than events. *)
Theorem ethFilterLogsFromEvents_app :
  (forall l1 l2 : list CollectedEvent,
     ethFilterLogsFromEvents EthAddressFromFilecoinAddress
       ethTxHashFromMessageCid TipSetKeyCid EthHashFromCid (l1 ++ l2)
     = match ethFilterLogsFromEvents EthAddressFromFilecoinAddress
               ethTxHashFromMessageCid TipSetKeyCid EthHashFromCid l1 with
       | Err e => Err e
       | Ok a =>
           match ethFilterLogsFromEvents EthAddressFromFilecoinAddress
                   ethTxHashFromMessageCid TipSetKeyCid EthHashFromCid l2 with
           | Err e => Err e
           | Ok b => Ok (a ++ b)
           end
       end)
  /\ (forall (evs : list CollectedEvent) (logs : list EthLog),
        ethFilterLogsFromEvents EthAddressFromFilecoinAddress
          ethTxHashFromMessageCid TipSetKeyCid EthHashFromCid evs = Ok logs ->
        (length logs <= length evs)%nat).
Proof.
  split.
  - intros l1 l2. unfold ethFilterLogsFromEvents.
    rewrite filterLogsLoop_app.
    destruct (filterLogsLoop _ _ _ _ l1 []) as [a|]; [|reflexivity].
    apply filterLogsLoop_acc.
  - intros evs logs H. unfold ethFilterLogsFromEvents in H.
    apply filterLogsLoop_length in H. simpl in H. exact H.
Qed.

Lemma filterLogsLoop_collected l1 ev l2 addr : forall acc,
  EthAddressFromFilecoinAddress (EmitterAddr ev) = Ok addr ->
  ethTxHashFromMessageCid (MsgCid ev) = Ok EmptyEthHash ->
  filterLogsLoop EthAddressFromFilecoinAddress ethTxHashFromMessageCid
                 TipSetKeyCid EthHashFromCid (l1 ++ ev :: l2) acc
  = filterLogsLoop EthAddressFromFilecoinAddress ethTxHashFromMessageCid
                   TipSetKeyCid EthHashFromCid (l1 ++ l2) acc.
Proof.
  intros acc Ha Hh. rewrite !filterLogsLoop_app.
  destruct (filterLogsLoop _ _ _ _ l1 acc) as [a|]; [|reflexivity].
  simpl. rewrite Ha, Hh.
  rewrite bool_decide_eq_true_2 by reflexivity.
  destruct (ethLogFromEvent (Entries ev)) as [[d ts]|]; reflexivity.
Qed.

(** X4. An event whose emitter address converts and whose message hash
    comes back as the empty hash (the message has been garbage collected)
    is left out without an error, whether its entries decode or not. *)
Theorem collected_message_events_dropped (l1 : list CollectedEvent)
  (ev : CollectedEvent) (l2 : list CollectedEvent) (addr : EthAddress) :
  EthAddressFromFilecoinAddress (EmitterAddr ev) = Ok addr ->
  ethTxHashFromMessageCid (MsgCid ev) = Ok EmptyEthHash ->
  ethFilterLogsFromEvents EthAddressFromFilecoinAddress
    ethTxHashFromMessageCid TipSetKeyCid EthHashFromCid (l1 ++ ev :: l2)
  = ethFilterLogsFromEvents EthAddressFromFilecoinAddress
      ethTxHashFromMessageCid TipSetKeyCid EthHashFromCid (l1 ++ l2)
  /\ ethFilterResultFromEvents EthAddressFromFilecoinAddress
       ethTxHashFromMessageCid TipSetKeyCid EthHashFromCid (l1 ++ ev :: l2)
     = ethFilterResultFromEvents EthAddressFromFilecoinAddress
         ethTxHashFromMessageCid TipSetKeyCid EthHashFromCid (l1 ++ l2).
Proof.
  intros Ha Hh. unfold ethFilterResultFromEvents, ethFilterLogsFromEvents.
  rewrite (filterLogsLoop_collected l1 ev l2 addr [] Ha Hh).
  split; reflexivity.
Qed.

Lemma tipSetHashes_spec tsks : forall acc res,
  tipSetHashes tsks acc = Ok res <->
  exists hs, Forall2 (fun tsk h => hashOfTipSetKey tsk = Ok h) tsks hs
             /\ res = {| Results := acc ++ map ResHash hs |}.
Proof.
  induction tsks as [|tsk tsks IH]; intros acc res; simpl.
  - split.
    + intros H. inversion H. exists []. split; [constructor|].
      simpl. rewrite app_nil_r. reflexivity.
    + intros (hs & Hf & ->). inversion Hf. simpl. rewrite app_nil_r.
      reflexivity.
  - unfold hashOfTipSetKey at 1.
    destruct (TipSetKeyCid tsk) as [c|e] eqn:Hc.
    + destruct (EthHashFromCid c) as [h|e] eqn:Hh.
      * rewrite IH. split.
        -- intros (hs & Hf & ->). exists (h :: hs). split.
           ++ constructor; [|exact Hf]. unfold hashOfTipSetKey.
              rewrite Hc. exact Hh.
           ++ simpl. rewrite <- app_assoc. reflexivity.
        -- intros (hs & Hf & ->). inversion Hf as [|? h' ? hs' H1 H2]; subst.
           unfold hashOfTipSetKey in H1. rewrite Hc, Hh in H1.
           inversion H1. subst. exists hs'. split; [exact H2|].
           simpl. rewrite <- app_assoc. reflexivity.
      * split; [discriminate|]. intros (hs & Hf & _).
        inversion Hf as [|? h' ? hs' H1 H2]; subst.
        unfold hashOfTipSetKey in H1. rewrite Hc, Hh in H1. discriminate.
    + split; [discriminate|]. intros (hs & Hf & _).
      inversion Hf as [|? h' ? hs' H1 H2]; subst.
      unfold hashOfTipSetKey in H1. rewrite Hc in H1. discriminate.
Qed.

Lemma messageHashes_spec cs : forall acc res,
  Engine.messageHashes ethTxHashFromSignedMessage cs acc = Ok res <->
  exists hs, Forall2 (fun c h => ethTxHashFromSignedMessage c = Ok h) cs hs
             /\ res = {| Results := acc ++ map ResHash hs |}.
Proof.
  induction cs as [|c cs IH]; intros acc res; simpl.
  - split.
    + intros H. inversion H. exists []. split; [constructor|].
      simpl. rewrite app_nil_r. reflexivity.
    + intros (hs & Hf & ->). inversion Hf. simpl. rewrite app_nil_r.
      reflexivity.
  - destruct (ethTxHashFromSignedMessage c) as [h|e] eqn:Hh.
    + rewrite IH. split.
      * intros (hs & Hf & ->). exists (h :: hs). split.
        -- constructor; [exact Hh|exact Hf].
        -- simpl. rewrite <- app_assoc. reflexivity.
      * intros (hs & Hf & ->). inversion Hf as [|? h' ? hs' H1 H2]; subst.
        rewrite Hh in H1. inversion H1. subst. exists hs'.
        split; [exact H2|]. simpl. rewrite <- app_assoc. reflexivity.
    + split; [discriminate|]. intros (hs & Hf & _).
      inversion Hf as [|? h' ? hs' H1 H2]; subst.
      rewrite Hh in H1. discriminate.
Qed.

(** X5. [ethFilterResultFromTipSets] and [ethFilterResultFromMessages]
    answer all or nothing: the result is a list with exactly one hash per
    input, in the order of the inputs, when every input converts, and an
    error as soon as one does not. *)
Theorem hash_results_all_or_nothing :
  (forall (tsks : list TipSetKey) (res : EthFilterResult),
     ethFilterResultFromTipSets tsks = Ok res <->
     exists hs : list EthHash,
       Forall2 (fun tsk h => hashOfTipSetKey tsk = Ok h) tsks hs
       /\ res = {| Results := map ResHash hs |})
  /\ (forall (cs : list Cid) (res : EthFilterResult),
        Engine.ethFilterResultFromMessages ethTxHashFromSignedMessage cs
        = Ok res <->
        exists hs : list EthHash,
          Forall2 (fun c h => ethTxHashFromSignedMessage c = Ok h) cs hs
          /\ res = {| Results := map ResHash hs |})
  /\ (forall (tsks : list TipSetKey) (res : EthFilterResult),
        ethFilterResultFromTipSets tsks = Ok res ->
        length (Results res) = length tsks).
Proof.
  split; [|split].
  - intros tsks res. unfold ethFilterResultFromTipSets.
    apply tipSetHashes_spec.
  - intros cs res. unfold Engine.ethFilterResultFromMessages.
    apply messageHashes_spec.
  - intros tsks res H. unfold ethFilterResultFromTipSets in H.
    apply tipSetHashes_spec in H as (hs & Hf & ->). simpl.
    rewrite length_map. symmetry. eapply Forall2_length. exact Hf.
Qed.

End Builders.

Lemma collected_message_events_dropped_witness :
  ethFilterLogsFromEvents (fun _ => Ok []) (fun _ => Ok EmptyEthHash)
    (fun _ => Ok "cid"%string) (fun _ => Ok oneHash)
    ([plainEvent] ++ plainEvent :: [])
  = ethFilterLogsFromEvents (fun _ => Ok []) (fun _ => Ok EmptyEthHash)
      (fun _ => Ok "cid"%string) (fun _ => Ok oneHash) ([plainEvent] ++ []).
Proof.
  exact (proj1 (collected_message_events_dropped (fun _ => Ok [])
                  (fun _ => Ok EmptyEthHash) (fun _ => Ok "cid"%string)
                  (fun _ => Ok oneHash) [plainEvent] plainEvent [] []
                  eq_refl eq_refl)).
Defined.

End ResultFacts.

(** ** Further properties of the historical queries *)

Module QueryFacts.

Import HistoricQuery.

(** A value of a topic filter, as a block with the raw codec. *)
Definition rawBlock (vv : list Byte.byte) : ActorEventBlock :=
  {| BlockCodec := EventLog.Raw; BlockValue := vv |}.

(** The errors of a query for logs: of the query itself, or of the
    conversion of the collected events. *)
Inductive logsError :=
| QueryFailed (e : queryError)
| ConversionFailed (e : EventLog.error).

(** A specification that names a block hash and a lower bound. *)
Definition conflictingSpec : EthFilterSpec := {|
  FromBlock := Some "0x1"%string;
  ToBlock := None;
  SpecAddress := [];
  SpecTopics := [];
  SpecBlockHash := Some EventLog.zeroHash;
|}.

(** A specification for the tipset with a given hash. *)
Definition hashSpec : EthFilterSpec := {|
  FromBlock := None;
  ToBlock := None;
  SpecAddress := [];
  SpecTopics := [];
  SpecBlockHash := Some EventLog.zeroHash;
|}.

(** A topic filter with one value for ["t1"] and none for ["t2"]. *)
Definition sampleKeys : gmap string (list (list Byte.byte)) :=
  {[ "t1"%string := [[Byte.x01]]; "t2"%string := [] ]}.

Section Queries.

(** Conversions defined outside this file. *)
Variable EthUint64FromHex : string -> option Z.
Variable ToCid : EventLog.EthHash -> EventLog.Cid.
Variable ToFilecoinAddress : EventLog.EthAddress -> option EventLog.Address.
Variable parseEthTopics :
  list (list EventLog.EthHash) -> result string (gmap string (list (list Byte.byte))).
Variable EthAddressFromFilecoinAddress :
  EventLog.Address -> result EventLog.error EventLog.EthAddress.
Variable ethTxHashFromMessageCid :
  EventLog.Cid -> result EventLog.error EventLog.EthHash.
Variable TipSetKeyCid : EventLog.TipSetKey -> result EventLog.error EventLog.Cid.
Variable EthHashFromCid : EventLog.Cid -> result EventLog.error EventLog.EthHash.

(** [EthGetLogs]. *)
Definition EthGetLogs (n : node) (filterSpec : EthFilterSpec)
  : list IndexWait.action
    * IndexWait.outcome (result logsError EventLog.EthFilterResult) :=
  match ethGetEventsForFilter EthUint64FromHex ToCid ToFilecoinAddress
          parseEthTopics n filterSpec with
  | (tr, IndexWait.Blocked) => (tr, IndexWait.Blocked)
  | (tr, IndexWait.Returned (Err e)) =>
      (tr, IndexWait.Returned (Err (QueryFailed e)))
  | (tr, IndexWait.Returned (Ok ces)) =>
      match EventLog.ethFilterResultFromEvents EthAddressFromFilecoinAddress
              ethTxHashFromMessageCid TipSetKeyCid EthHashFromCid ces with
      | Err e => (tr, IndexWait.Returned (Err (ConversionFailed e)))
      | Ok res => (tr, IndexWait.Returned (Ok res))
      end
  end.

(** [getEthLogsForBlockAndTransaction]; [blockHash] is a pointer and may
    be [nil]. *)
Definition getEthLogsForBlockAndTransaction (n : node)
  (blockHash : option EventLog.EthHash) (txHash : EventLog.EthHash)
  : list IndexWait.action
    * IndexWait.outcome (result logsError (list EventLog.EthLog)) :=
  match ethGetEventsForFilter EthUint64FromHex ToCid ToFilecoinAddress
          parseEthTopics n
          {| FromBlock := None; ToBlock := None; SpecAddress := [];
             SpecTopics := []; SpecBlockHash := blockHash |} with
  | (tr, IndexWait.Blocked) => (tr, IndexWait.Blocked)
  | (tr, IndexWait.Returned (Err e)) =>
      (tr, IndexWait.Returned (Err (QueryFailed e)))
  | (tr, IndexWait.Returned (Ok ces)) =>
      match EventLog.ethFilterLogsFromEvents EthAddressFromFilecoinAddress
              ethTxHashFromMessageCid TipSetKeyCid EthHashFromCid ces with
      | Err e => (tr, IndexWait.Returned (Err (ConversionFailed e)))
      | Ok logs =>
          (tr, IndexWait.Returned
                 (Ok (List.filter
                        (fun log => bool_decide
                                      (EventLog.TransactionHash log = txHash))
                        logs)))
      end
  end.

(** X6. [keysToKeysWithCodec] keeps exactly the keys that have at least
    one value; the blocks of a key are its values in their order, each
    with the raw codec. *)
Theorem keysToKeysWithCodec_lookup :
  (forall (ks : gmap string (list (list Byte.byte))) (k : string)
          (bs : list ActorEventBlock),
     keysToKeysWithCodec ks !! k = Some bs <->
     exists vs, ks !! k = Some vs /\ vs <> [] /\ bs = map rawBlock vs)
  /\ (forall (ks : gmap string (list (list Byte.byte))) (k : string),
        keysToKeysWithCodec ks !! k = None <->
        ks !! k = None \/ ks !! k = Some [])
  /\ (forall (ks : gmap string (list (list Byte.byte))) (k : string)
             (bs : list ActorEventBlock),
        keysToKeysWithCodec ks !! k = Some bs ->
        bs <> [] /\ Forall (fun b => BlockCodec b = EventLog.Raw) bs).
Proof.
  assert (Hsome : forall (ks : gmap string (list (list Byte.byte))) k bs,
            keysToKeysWithCodec ks !! k = Some bs <->
            exists vs, ks !! k = Some vs /\ vs <> [] /\ bs = map rawBlock vs).
  { intros ks k bs. unfold keysToKeysWithCodec. rewrite lookup_fmap.
    rewrite fmap_Some. split.
    - intros (vs & Hf & ->). apply map_lookup_filter_Some in Hf as [Hl Hne].
      exists vs. repeat split; assumption.
    - intros (vs & Hl & Hne & ->). exists vs. split; [|reflexivity].
      apply map_lookup_filter_Some. split; assumption. }
  split; [exact Hsome|]. split.
  - intros ks k. split.
    + intros Hnone. destruct (ks !! k) as [[|v vs]|] eqn:Hl; auto.
      assert (H : keysToKeysWithCodec ks !! k = Some (map rawBlock (v :: vs))).
      { apply Hsome. exists (v :: vs). repeat split; [exact Hl|discriminate]. }
      congruence.
    + intros Hl. destruct (keysToKeysWithCodec ks !! k) as [bs|] eqn:Hk;
        [|reflexivity].
      apply Hsome in Hk as (vs & Hv & Hne & _).
      destruct Hl as [Hl|Hl]; rewrite Hl in Hv; [discriminate|].
      inversion Hv. subst. contradiction.
  - intros ks k bs H. apply Hsome in H as (vs & _ & Hne & ->). split.
    + destruct vs; [contradiction|discriminate].
    + apply Forall_map. apply Forall_forall. intros; reflexivity.
Qed.

Lemma convertAddresses_converted eas : forall acc l,
  convertAddresses ToFilecoinAddress eas acc = Ok l ->
  exists conv,
    Forall2 (fun ea a => ToFilecoinAddress ea = Some a) eas conv
    /\ l = acc ++ conv.
Proof.
  induction eas as [|ea eas IH]; intros acc l H; simpl in H.
  - inversion H. exists []. split; [constructor|]. rewrite app_nil_r.
    reflexivity.
  - destruct (ToFilecoinAddress ea) as [a|] eqn:Ha; [|discriminate].
    apply IH in H as (conv & Hf & ->). exists (a :: conv). split.
    + constructor; assumption.
    + rewrite <- app_assoc. reflexivity.
Qed.

Lemma convertAddresses_first_failure eas : forall acc err,
  convertAddresses ToFilecoinAddress eas acc = Err err ->
  exists pre ea post,
    eas = pre ++ ea :: post /\ err = ErrInvalidAddress ea
    /\ ToFilecoinAddress ea = None
    /\ Forall (fun x => is_Some (ToFilecoinAddress x)) pre.
Proof.
  induction eas as [|ea eas IH]; intros acc err H; simpl in H; [discriminate|].
  destruct (ToFilecoinAddress ea) as [a|] eqn:Ha.
  - apply IH in H as (pre & ea' & post & -> & -> & Hn & Hall).
    exists (ea :: pre), ea', post. repeat split; try assumption.
    constructor; [eexists; exact Ha|exact Hall].
  - inversion H. exists [], ea, eas. repeat split; try assumption.
    constructor.
Qed.

(** X7. [parseEthFilterSpec] refuses a block hash together with a lower
    or an upper bound; with a block hash alone it yields the CID of the
    hash and heights 0, without one the heights of [parseBlockRange] and
    no CID.  The addresses are the converted ones, in order, and the first
    address that does not convert is the one reported. *)
Theorem parseEthFilterSpec_shape :
  (forall (n : node) (filterSpec : EthFilterSpec) (h : EventLog.EthHash),
     SpecBlockHash filterSpec = Some h ->
     FromBlock filterSpec <> None \/ ToBlock filterSpec <> None ->
     parseEthFilterSpec EthUint64FromHex ToCid ToFilecoinAddress
       parseEthTopics n filterSpec = Err ErrHashAndRange)
  /\ (forall (n : node) (filterSpec : EthFilterSpec) (h : EventLog.EthHash)
             (pf : parsedFilter),
        SpecBlockHash filterSpec = Some h ->
        parseEthFilterSpec EthUint64FromHex ToCid ToFilecoinAddress
          parseEthTopics n filterSpec = Ok pf ->
        tipsetCid pf = Some (ToCid h) /\ minHeight pf = 0
        /\ maxHeight pf = 0)
  /\ (forall (n : node) (filterSpec : EthFilterSpec) (pf : parsedFilter),
        SpecBlockHash filterSpec = None ->
        parseEthFilterSpec EthUint64FromHex ToCid ToFilecoinAddress
          parseEthTopics n filterSpec = Ok pf ->
        tipsetCid pf = None
        /\ BlockRange.parseBlockRange EthUint64FromHex
             (IndexWait.headHeight (chain n)) (FromBlock filterSpec)
             (ToBlock filterSpec) (MaxFilterHeightRange n)
           = Ok (minHeight pf, maxHeight pf))
  /\ (forall (n : node) (filterSpec : EthFilterSpec) (pf : parsedFilter),
        parseEthFilterSpec EthUint64FromHex ToCid ToFilecoinAddress
          parseEthTopics n filterSpec = Ok pf ->
        Forall2 (fun ea a => ToFilecoinAddress ea = Some a)
                (SpecAddress filterSpec) (addresses pf)
        /\ exists ks, parseEthTopics (SpecTopics filterSpec) = Ok ks
                      /\ keys pf = keysToKeysWithCodec ks)
  /\ (forall (n : node) (filterSpec : EthFilterSpec)
             (ea : EventLog.EthAddress),
        parseEthFilterSpec EthUint64FromHex ToCid ToFilecoinAddress
          parseEthTopics n filterSpec = Err (ErrInvalidAddress ea) ->
        exists pre post,
          SpecAddress filterSpec = pre ++ ea :: post
          /\ ToFilecoinAddress ea = None
          /\ Forall (fun x => is_Some (ToFilecoinAddress x)) pre).
Proof.
  split; [|split; [|split; [|split]]].
  - intros n filterSpec h Hh Hb. unfold parseEthFilterSpec. rewrite Hh.
    destruct (FromBlock filterSpec), (ToBlock filterSpec); try reflexivity.
    destruct Hb; contradiction.
  - intros n filterSpec h pf Hh. unfold parseEthFilterSpec. rewrite Hh.
    destruct (FromBlock filterSpec), (ToBlock filterSpec); try discriminate.
    destruct (convertAddresses _ _ _); [|discriminate].
    destruct (parseEthTopics _); [|discriminate].
    intros H. inversion H. repeat split.
  - intros n filterSpec pf Hh. unfold parseEthFilterSpec. rewrite Hh.
    destruct (BlockRange.parseBlockRange _ _ _ _ _) as [[lo hi]|];
      [|discriminate].
    destruct (convertAddresses _ _ _); [|discriminate].
    destruct (parseEthTopics _); [|discriminate].
    intros H. inversion H. repeat split.
  - intros n filterSpec pf. unfold parseEthFilterSpec.
    destruct (match SpecBlockHash filterSpec with
              | Some _ => _ | None => _ end) as [[[lo hi] c]|]; [|discriminate].
    destruct (convertAddresses _ _ _) as [addrs|] eqn:Ha; [|discriminate].
    destruct (parseEthTopics _) as [ks|] eqn:Hk; [|discriminate].
    intros H. inversion H. simpl.
    apply convertAddresses_converted in Ha as (conv & Hf & ->). split.
    + exact Hf.
    + exists ks. split; reflexivity.
  - intros n filterSpec ea. unfold parseEthFilterSpec.
    destruct (match SpecBlockHash filterSpec with
              | Some _ => _ | None => _ end) as [[[lo hi] c]|err] eqn:Hr.
    + destruct (convertAddresses _ _ _) as [addrs|err] eqn:Ha.
      * destruct (parseEthTopics _); discriminate.
      * intros H. inversion H. subst.
        apply convertAddresses_first_failure in Ha
          as (pre & ea' & post & E & E2 & Hn & Hall).
        inversion E2. subst. exists pre, post. repeat split; assumption.
    + intros H. inversion H. subst.
      destruct (SpecBlockHash filterSpec).
      * destruct (FromBlock filterSpec), (ToBlock filterSpec); discriminate.
      * destruct (BlockRange.parseBlockRange _ _ _ _ _) as [[? ?]|];
          discriminate.
Qed.

(** X8. A query needs the event filter manager and the event index.
    A query for a tipset by its CID first looks the tipset up, then waits
    for the height of the tipset, then asks the index whether the tipset
    itself has been processed: the call answers only when all three
    succeed, and a tipset that the index has skipped is an error. *)
Theorem tipset_query_checks :
  (forall (n : node) (filterSpec : EthFilterSpec),
     EventFilterManager n = false ->
     ethGetEventsForFilter EthUint64FromHex ToCid ToFilecoinAddress
       parseEthTopics n filterSpec
     = ([], IndexWait.Returned (Err ErrNotSupported)))
  /\ (forall (n : node) (filterSpec : EthFilterSpec),
        EventFilterManager n = true -> EventIndex n = false ->
        ethGetEventsForFilter EthUint64FromHex ToCid ToFilecoinAddress
          parseEthTopics n filterSpec
        = ([], IndexWait.Returned (Err ErrIndexDisabled)))
  /\ (forall (n : node) (filterSpec : EthFilterSpec) (pf : parsedFilter)
             (c : EventLog.Cid),
        EventFilterManager n = true -> EventIndex n = true ->
        parseEthFilterSpec EthUint64FromHex ToCid ToFilecoinAddress
          parseEthTopics n filterSpec = Ok pf ->
        tipsetCid pf = Some c ->
        (forall cause, GetTipSetByCid n c = Err cause ->
           ethGetEventsForFilter EthUint64FromHex ToCid ToFilecoinAddress
             parseEthTopics n filterSpec
           = ([], IndexWait.Returned (Err (ErrGetTipSet cause))))
        /\ (forall height tr,
              GetTipSetByCid n c = Ok height ->
              IndexWait.waitForHeightProcessed (chain n) height
              = (tr, IndexWait.Returned None) ->
              IsTipsetProcessed n c = Ok false ->
              ethGetEventsForFilter EthUint64FromHex ToCid ToFilecoinAddress
                parseEthTopics n filterSpec
              = (tr, IndexWait.Returned (Err (ErrTipsetNotIndexed c))))
        /\ (forall tr ces,
              ethGetEventsForFilter EthUint64FromHex ToCid ToFilecoinAddress
                parseEthTopics n filterSpec
              = (tr, IndexWait.Returned (Ok ces)) ->
              exists height,
                GetTipSetByCid n c = Ok height
                /\ IndexWait.waitForHeightProcessed (chain n) height
                   = (tr, IndexWait.Returned None)
                /\ IsTipsetProcessed n c = Ok true
                /\ collect n pf = Ok ces)).
Proof.
  split; [|split].
  - intros n filterSpec Hm. unfold ethGetEventsForFilter. rewrite Hm.
    reflexivity.
  - intros n filterSpec Hm Hi. unfold ethGetEventsForFilter. rewrite Hm, Hi.
    reflexivity.
  - intros n filterSpec pf c Hm Hi Hp Hc.
    unfold ethGetEventsForFilter. rewrite Hm, Hi, Hp, Hc. simpl.
    split; [|split].
    + intros cause Hg. rewrite Hg. reflexivity.
    + intros height tr Hg Hw Ht. rewrite Hg, Hw, Ht. reflexivity.
    + intros tr ces.
      destruct (GetTipSetByCid n c) as [height|]; [|discriminate].
      destruct (IndexWait.waitForHeightProcessed (chain n) height)
        as [tr' [[e|]|]] eqn:Hw; try discriminate.
      destruct (IsTipsetProcessed n c) as [[|]|]; try discriminate.
      unfold collectEvents. destruct (collect n pf) as [ces'|];
        [|discriminate].
      intros H. inversion H. subst. exists height.
      split; [reflexivity|]. split; [exact Hw|]. split; reflexivity.
Qed.

(** X9. The logs [getEthLogsForBlockAndTransaction] returns are the logs
    [EthGetLogs] returns for the block hash alone that carry the
    transaction hash asked for, in their order; no log of another
    transaction is returned and none of that transaction is left out. *)
Theorem transaction_logs_only (n : node)
  (blockHash : option EventLog.EthHash) (txHash : EventLog.EthHash)
  (tr : list IndexWait.action) (out : list EventLog.EthLog) :
  getEthLogsForBlockAndTransaction n blockHash txHash
  = (tr, IndexWait.Returned (Ok out)) ->
  exists ces logs,
    ethGetEventsForFilter EthUint64FromHex ToCid ToFilecoinAddress
      parseEthTopics n
      {| FromBlock := None; ToBlock := None; SpecAddress := [];
         SpecTopics := []; SpecBlockHash := blockHash |}
    = (tr, IndexWait.Returned (Ok ces))
    /\ EventLog.ethFilterLogsFromEvents EthAddressFromFilecoinAddress
         ethTxHashFromMessageCid TipSetKeyCid EthHashFromCid ces = Ok logs
    /\ EthGetLogs n
         {| FromBlock := None; ToBlock := None; SpecAddress := [];
            SpecTopics := []; SpecBlockHash := blockHash |}
       = (tr, IndexWait.Returned
                (Ok {| EventLog.Results := map EventLog.ResLog logs |}))
    /\ Forall (fun log => EventLog.TransactionHash log = txHash) out
    /\ sublist out logs
    /\ (forall log, log ∈ logs -> EventLog.TransactionHash log = txHash ->
                    log ∈ out).
Proof.
  unfold getEthLogsForBlockAndTransaction, EthGetLogs,
    EventLog.ethFilterResultFromEvents.
  destruct (ethGetEventsForFilter _ _ _ _ n _) as [tr' [[ces|e]|]];
    try discriminate.
  destruct (EventLog.ethFilterLogsFromEvents _ _ _ _ ces) as [logs|] eqn:Hl;
    [|discriminate].
  intros H. inversion H. subst. exists ces, logs.
  split; [reflexivity|]. split; [exact Hl|]. split; [reflexivity|].
  split; [|split].
  - apply Forall_forall. intros log Hin. apply list_elem_of_In in Hin.
    apply List.filter_In in Hin as [_ Hb].
    apply bool_decide_eq_true_1 in Hb. exact Hb.
  - clear. induction logs as [|log logs IH]; simpl; [constructor|].
    destruct (bool_decide _); [apply sublist_skip|apply sublist_cons];
      exact IH.
  - intros log Hin Hh. apply list_elem_of_In. apply List.filter_In. split.
    + apply list_elem_of_In. exact Hin.
    + apply bool_decide_eq_true_2. exact Hh.
Qed.

End Queries.

Lemma keysToKeysWithCodec_lookup_witness :
  keysToKeysWithCodec sampleKeys !! "t1"%string = Some [rawBlock [Byte.x01]]
  /\ keysToKeysWithCodec sampleKeys !! "t2"%string = None.
Proof.
  split.
  - apply (proj1 keysToKeysWithCodec_lookup). exists [[Byte.x01]].
    split; [vm_compute; reflexivity|]. split; [discriminate|reflexivity].
  - apply (proj1 (proj2 keysToKeysWithCodec_lookup)). right.
    vm_compute; reflexivity.
Defined.

Lemma parseEthFilterSpec_shape_witness :
  parseEthFilterSpec BlockRange.EthUint64FromHex (fun _ => "cid"%string)
    (fun _ => None) (fun _ => Ok ∅) sampleNode conflictingSpec
  = Err ErrHashAndRange.
Proof.
  apply (proj1 (parseEthFilterSpec_shape BlockRange.EthUint64FromHex
                  (fun _ => "cid"%string) (fun _ => None) (fun _ => Ok ∅))
           sampleNode conflictingSpec EventLog.zeroHash eq_refl).
  left. discriminate.
Defined.

Lemma tipset_query_checks_witness :
  ethGetEventsForFilter BlockRange.EthUint64FromHex (fun _ => "cid"%string)
    (fun _ => None) (fun _ => Ok ∅) sampleNode hashSpec
  = ([], IndexWait.Returned (Err (ErrGetTipSet "tipset not found"))).
Proof.
  refine (proj1 (proj2 (proj2 (tipset_query_checks BlockRange.EthUint64FromHex
            (fun _ => "cid"%string) (fun _ => None) (fun _ => Ok ∅)))
            sampleNode hashSpec
            {| minHeight := 0; maxHeight := 0; tipsetCid := Some "cid"%string;
               addresses := []; keys := keysToKeysWithCodec ∅ |}
            "cid"%string eq_refl eq_refl eq_refl eq_refl)
            "tipset not found"%string eq_refl).
Defined.

(** A node that finds every tipset at height 10 and has indexed it, and
    whose temporary filter collects two events of two messages. *)
Definition indexedNode : node := {|
  EventFilterManager := true;
  EventIndex := true;
  MaxFilterHeightRange := 50;
  chain := {| IndexWait.headHeight := 100;
              IndexWait.isHeightPast := fun _ => Ok true;
              IndexWait.wakeups := [] |};
  GetTipSetByCid := fun _ => Ok 10;
  IsTipsetProcessed := fun _ => Ok true;
  collect := fun _ => Ok [ResultFacts.plainEvent; ResultFacts.plainEvent];
|}.

Lemma transaction_logs_only_witness :
  exists ces logs,
    ethGetEventsForFilter BlockRange.EthUint64FromHex (fun _ => "cid"%string)
      (fun _ => None) (fun _ => Ok ∅) indexedNode
      {| FromBlock := None; ToBlock := None; SpecAddress := [];
         SpecTopics := []; SpecBlockHash := Some EventLog.zeroHash |}
    = ([IndexWait.GetHead; IndexWait.WithTimeout 90;
        IndexWait.IsHeightPast 10; IndexWait.CancelTimeout],
       IndexWait.Returned (Ok ces))
    /\ EventLog.ethFilterLogsFromEvents (fun _ => Ok [])
         (fun _ => Ok ResultFacts.oneHash) (fun _ => Ok "cid"%string)
         (fun _ => Ok ResultFacts.oneHash) ces = Ok logs
    /\ length logs = 2%nat.
Proof.
  destruct (transaction_logs_only BlockRange.EthUint64FromHex
              (fun _ => "cid"%string) (fun _ => None) (fun _ => Ok ∅)
              (fun _ => Ok []) (fun _ => Ok ResultFacts.oneHash)
              (fun _ => Ok "cid"%string) (fun _ => Ok ResultFacts.oneHash)
              indexedNode (Some EventLog.zeroHash) ResultFacts.oneHash
              _ _ eq_refl) as (ces & logs & H1 & H2 & _).
  exists ces, logs. split; [exact H1|]. split; [exact H2|].
  inversion H1. subst ces. inversion H2. reflexivity.
Defined.

End QueryFacts.

(** ** The wait on the index, read back from its outcome *)

Module WaitFacts.

Import IndexWait.

#[global] Instance ctxError_eq_dec : EqDecision ctxError.
Proof. solve_decision. Defined.

#[global] Instance action_eq_dec : EqDecision action.
Proof. solve_decision. Defined.

(** How often an action occurs in the trace of a call. *)
Definition occurrences (a : action) (tr : list action) : nat :=
  length (List.filter (fun x => bool_decide (x = a)) tr).

(** A world whose index never catches up and whose context is cancelled
    at the second [select]. *)
Definition cancelledWait : world := {|
  headHeight := 100;
  isHeightPast := fun _ => Ok false;
  wakeups := [Updated; Done Canceled];
|}.

Lemma rechecks_S h n :
  rechecks h (S n) = Select :: IsHeightPast h :: rechecks h n.
Proof. reflexivity. Qed.

Lemma occurrences_app a tr1 tr2 :
  occurrences a (tr1 ++ tr2) = (occurrences a tr1 + occurrences a tr2)%nat.
Proof. unfold occurrences. rewrite List.filter_app, length_app. reflexivity. Qed.

Lemma occurrences_rechecks a h n :
  occurrences a (rechecks h n)
  = ((if decide (a = Select) then n else 0)
     + (if decide (a = IsHeightPast h) then n else 0))%nat.
Proof.
  induction n as [|n IH].
  - simpl. repeat destruct (decide _); reflexivity.
  - rewrite rechecks_S. unfold occurrences in *. cbn [List.filter].
    repeat case_bool_decide; cbn [length]; rewrite IH;
      repeat (destruct (decide _); try congruence); lia.
Qed.

(** The loop, read back from its outcome: it has consumed [n]
    notifications that found the index behind, and then stopped at the
    wake-up with index [n]. *)
Lemma waitLoop_trace isPast h : forall ws q tr r,
  waitLoop isPast h ws q = (tr, r) ->
  exists n,
    (forall i, (i < n)%nat -> isPast (q + i)%nat = Ok false)
    /\ take n ws = replicate n Updated
    /\ match r with
       | Returned None =>
           isPast (q + n)%nat = Ok true /\ ws !! n = Some Updated
           /\ tr = rechecks h (S n)
       | Returned (Some (ErrIndexCheck cause)) =>
           isPast (q + n)%nat = Err cause /\ ws !! n = Some Updated
           /\ tr = rechecks h (S n)
       | Returned (Some (ErrContext e)) =>
           ws !! n = Some (Done e) /\ tr = rechecks h n ++ [Select]
       | Returned (Some ErrHeightInFuture) => False
       | Blocked => length ws = n /\ tr = rechecks h n ++ [Select]
       end.
Proof.
  induction ws as [|wk ws IH]; intros q tr r H; simpl in H.
  - inversion H. subst. exists 0%nat. split; [intros; lia|].
    split; [reflexivity|]. split; reflexivity.
  - destruct wk as [|e].
    + destruct (isPast q) as [[|]|cause] eqn:Hq.
      * inversion H. subst. exists 0%nat. split; [intros; lia|].
        split; [reflexivity|]. rewrite Nat.add_0_r.
        split; [exact Hq|]. split; reflexivity.
      * destruct (waitLoop isPast h ws (S q)) as [tr' r'] eqn:Hl.
        inversion H. subst. apply IH in Hl as (n & Hfalse & Htake & Hr).
        exists (S n). split; [|split].
        -- intros i Hi. destruct i as [|i].
           ++ rewrite Nat.add_0_r. exact Hq.
           ++ replace (q + S i)%nat with (S q + i)%nat by lia.
              apply Hfalse. lia.
        -- simpl. rewrite Htake. reflexivity.
        -- replace (q + S n)%nat with (S q + n)%nat by lia.
           destruct r as [[[| |]|]|]; simpl.
           ++ exact Hr.
           ++ destruct Hr as (H1 & H2 & ->). repeat split; assumption.
           ++ destruct Hr as (H1 & ->). split; [exact H1|reflexivity].
           ++ destruct Hr as (H1 & H2 & ->). repeat split; assumption.
           ++ destruct Hr as (H1 & ->). split; [lia|reflexivity].
      * inversion H. subst. exists 0%nat. split; [intros; lia|].
        split; [reflexivity|]. rewrite Nat.add_0_r.
        split; [exact Hq|]. split; reflexivity.
    + inversion H. subst. exists 0%nat. split; [intros; lia|].
      split; [reflexivity|]. split; reflexivity.
Qed.

Lemma occurrences_cons a x tr :
  occurrences a (x :: tr)
  = ((if decide (x = a) then 1 else 0) + occurrences a tr)%nat.
Proof.
  unfold occurrences. cbn [List.filter].
  case_bool_decide; destruct (decide _); try contradiction; reflexivity.
Qed.

Lemma occurrences_nil a : occurrences a [] = 0%nat.
Proof. reflexivity. Qed.

Ltac count_actions :=
  cbn [deferred app];
  repeat (rewrite occurrences_cons || rewrite occurrences_app
          || rewrite occurrences_rechecks || rewrite occurrences_nil);
  repeat (destruct (decide _); try congruence); try lia.

(** X10. Every call reads the head once.  A call that returns has
    released what it took: the subscription to the updates of the index,
    if it subscribed, and the timeout, if it set one; the timeout is
    cancelled last.  A call waits in a [select] only while it is
    subscribed, and asks the index at most twice plus once for each
    [select].  A call that stays blocked holds the subscription and the
    timeout. *)
Theorem waitForHeightProcessed_releases (w : world) (height : Z)
  (tr : list action) (r : outcome (option waitError)) :
  waitForHeightProcessed w height = (tr, r) ->
  occurrences GetHead tr = 1%nat
  /\ (occurrences (WithTimeout eventReadTimeout) tr <= 1)%nat
  /\ (occurrences SubscribeUpdates tr <= 1)%nat
  /\ ((0 < occurrences Select tr)%nat -> occurrences SubscribeUpdates tr = 1%nat)
  /\ (occurrences (IsHeightPast (Int64.unsigned height)) tr
      <= 2 + occurrences Select tr)%nat
  /\ match r with
     | Returned _ =>
         occurrences UnSubscribe tr = occurrences SubscribeUpdates tr
         /\ occurrences CancelTimeout tr
            = occurrences (WithTimeout eventReadTimeout) tr
         /\ (tr = [GetHead] \/ last tr = Some CancelTimeout)
     | Blocked =>
         occurrences SubscribeUpdates tr = 1%nat
         /\ occurrences UnSubscribe tr = 0%nat
         /\ occurrences (WithTimeout eventReadTimeout) tr = 1%nat
         /\ occurrences CancelTimeout tr = 0%nat
     end.
Proof.
  unfold waitForHeightProcessed.
  destruct (height >? headHeight w).
  { intros H. inversion H. subst. repeat split; try count_actions.
    left. reflexivity. }
  destruct (isHeightPast w 0) as [[|]|cause].
  - intros H. inversion H. subst. repeat split; try count_actions.
    right. reflexivity.
  - destruct (isHeightPast w 1) as [[|]|cause].
    + intros H. inversion H. subst. repeat split; try count_actions.
      right. reflexivity.
    + destruct (waitLoop (isHeightPast w) (Int64.unsigned height) (wakeups w) 2)
        as [tr' r'] eqn:Hl.
      intros H. inversion H. subst.
      apply waitLoop_trace in Hl as (n & _ & _ & Hr).
      destruct r as [[[| |]|]|]; simpl in Hr.
      * contradiction.
      * destruct Hr as (_ & _ & ->). repeat split; try count_actions.
        right. repeat (rewrite last_cons || rewrite last_app). reflexivity.
      * destruct Hr as (_ & ->). repeat split; try count_actions.
        right. repeat (rewrite last_cons || rewrite last_app). reflexivity.
      * destruct Hr as (_ & _ & ->). repeat split; try count_actions.
        right. repeat (rewrite last_cons || rewrite last_app). reflexivity.
      * destruct Hr as (_ & ->). repeat split; count_actions.
    + intros H. inversion H. subst. repeat split; try count_actions.
      right. reflexivity.
  - intros H. inversion H. subst. repeat split; try count_actions.
    right. reflexivity.
Qed.

Lemma waitForHeightProcessed_releases_witness :
  occurrences UnSubscribe (fst (waitForHeightProcessed laggingIndex 42))
  = occurrences SubscribeUpdates (fst (waitForHeightProcessed laggingIndex 42)).
Proof.
  exact (proj1 (proj2 (proj2 (proj2 (proj2 (proj2
           (waitForHeightProcessed_releases laggingIndex 42 _ (Returned None)
              eq_refl))))))).
Defined.

(** X11. The outcome of [waitForHeightProcessed] tells what the index and
    the context did.  A call returns [nil] only if the index answered
    true to its last query and false to all the queries before, the height
    being at most the head; it has then been woken once for each query
    after the second.  An error of the index is the error of the first
    query that did not answer false.  The error of the context is returned
    only after the index answered false at both checks and at every
    notification before the context was done.  A call stays blocked only
    if every query answered false and the notifications ran out. *)
Theorem waitForHeightProcessed_sound :
  (forall (w : world) (height : Z) (tr : list action),
     waitForHeightProcessed w height = (tr, Returned None) ->
     height <= headHeight w
     /\ exists q : nat,
          isHeightPast w q = Ok true
          /\ (forall i, (i < q)%nat -> isHeightPast w i = Ok false)
          /\ occurrences (IsHeightPast (Int64.unsigned height)) tr = S q
          /\ occurrences Select tr = Nat.pred q
          /\ take (Nat.pred q) (wakeups w) = replicate (Nat.pred q) Updated)
  /\ (forall (w : world) (height : Z) (tr : list action) (cause : string),
        waitForHeightProcessed w height
        = (tr, Returned (Some (ErrIndexCheck cause))) ->
        height <= headHeight w
        /\ exists q : nat,
             isHeightPast w q = Err cause
             /\ (forall i, (i < q)%nat -> isHeightPast w i = Ok false)
             /\ occurrences (IsHeightPast (Int64.unsigned height)) tr = S q)
  /\ (forall (w : world) (height : Z) (tr : list action) (e : ctxError),
        waitForHeightProcessed w height
        = (tr, Returned (Some (ErrContext e))) ->
        height <= headHeight w
        /\ exists n : nat,
             wakeups w !! n = Some (Done e)
             /\ take n (wakeups w) = replicate n Updated
             /\ (forall i, (i < n + 2)%nat -> isHeightPast w i = Ok false)
             /\ occurrences (IsHeightPast (Int64.unsigned height)) tr
                = (n + 2)%nat)
  /\ (forall (w : world) (height : Z) (tr : list action),
        waitForHeightProcessed w height
        = (tr, Returned (Some ErrHeightInFuture)) ->
        height > headHeight w /\ tr = [GetHead])
  /\ (forall (w : world) (height : Z) (tr : list action),
        waitForHeightProcessed w height = (tr, Blocked) ->
        height <= headHeight w
        /\ wakeups w = replicate (length (wakeups w)) Updated
        /\ (forall i, (i < length (wakeups w) + 2)%nat ->
              isHeightPast w i = Ok false)).
Proof.
  assert (Hgt : forall (w : world) height,
            (height >? headHeight w) = false -> height <= headHeight w).
  { intros w height H. rewrite Z.gtb_ltb in H. apply Z.ltb_ge in H. exact H. }
  assert (Hshift : forall (w : world) n,
            isHeightPast w 0 = Ok false -> isHeightPast w 1 = Ok false ->
            (forall i, (i < n)%nat -> isHeightPast w (2 + i) = Ok false) ->
            forall i, (i < n + 2)%nat -> isHeightPast w i = Ok false).
  { intros w n H0 H1 Hn i Hi. destruct i as [|[|i]]; [assumption..|].
    apply (Hn i). lia. }
  split; [|split; [|split; [|split]]].
  - intros w height tr. unfold waitForHeightProcessed.
    destruct (height >? headHeight w) eqn:Hh; [discriminate|].
    apply Hgt in Hh. intros H. split; [exact Hh|]. revert H.
    destruct (isHeightPast w 0) as [[|]|c0] eqn:H0; try discriminate.
    + intros H. inversion H. subst. exists 0%nat.
      split; [exact H0|]. split; [intros; lia|].
      repeat split; count_actions.
    + destruct (isHeightPast w 1) as [[|]|c1] eqn:H1; try discriminate.
      * intros H. inversion H. subst. exists 1%nat.
        split; [exact H1|]. split.
        { intros i Hi. replace i with 0%nat by lia. exact H0. }
        repeat split; count_actions.
      * destruct (waitLoop (isHeightPast w) (Int64.unsigned height)
                    (wakeups w) 2) as [tr' r'] eqn:Hl.
        intros H. inversion H. subst.
        apply waitLoop_trace in Hl as (n & Hfalse & Htake & Ht & Hu & ->).
        exists (2 + n)%nat. split; [exact Ht|]. split.
        { intros i Hi. apply (Hshift w n H0 H1 Hfalse). lia. }
        split; [count_actions|]. split; [count_actions|].
        simpl. erewrite take_S_r by exact Hu. rewrite Htake.
        change [Updated] with (replicate 1 Updated).
        rewrite <- replicate_add.
        replace (n + 1)%nat with (S n) by lia. reflexivity.
  - intros w height tr cause. unfold waitForHeightProcessed.
    destruct (height >? headHeight w) eqn:Hh; [discriminate|].
    apply Hgt in Hh. intros H. split; [exact Hh|]. revert H.
    destruct (isHeightPast w 0) as [[|]|c0] eqn:H0; try discriminate.
    + destruct (isHeightPast w 1) as [[|]|c1] eqn:H1; try discriminate.
      * destruct (waitLoop (isHeightPast w) (Int64.unsigned height)
                    (wakeups w) 2) as [tr' r'] eqn:Hl.
        intros H. inversion H. subst.
        apply waitLoop_trace in Hl as (n & Hfalse & Htake & Ht & Hu & ->).
        exists (2 + n)%nat. split; [exact Ht|]. split.
        { intros i Hi. apply (Hshift w n H0 H1 Hfalse). lia. }
        count_actions.
      * intros H. inversion H. subst. exists 1%nat.
        split; [exact H1|]. split.
        { intros i Hi. replace i with 0%nat by lia. exact H0. }
        count_actions.
    + intros H. inversion H. subst. exists 0%nat.
      split; [exact H0|]. split; [intros; lia|]. count_actions.
  - intros w height tr e. unfold waitForHeightProcessed.
    destruct (height >? headHeight w) eqn:Hh; [discriminate|].
    apply Hgt in Hh. intros H. split; [exact Hh|]. revert H.
    destruct (isHeightPast w 0) as [[|]|c0] eqn:H0; try discriminate.
    destruct (isHeightPast w 1) as [[|]|c1] eqn:H1; try discriminate.
    destruct (waitLoop (isHeightPast w) (Int64.unsigned height)
                (wakeups w) 2) as [tr' r'] eqn:Hl.
    intros H. inversion H. subst.
    apply waitLoop_trace in Hl as (n & Hfalse & Htake & Hd & ->).
    exists n. split; [exact Hd|]. split; [exact Htake|]. split.
    + apply (Hshift w n H0 H1 Hfalse).
    + count_actions.
  - intros w height tr. unfold waitForHeightProcessed.
    destruct (height >? headHeight w) eqn:Hh.
    + intros H. inversion H. split; [|reflexivity].
      rewrite Z.gtb_ltb in Hh. apply Z.ltb_lt in Hh. lia.
    + destruct (isHeightPast w 0) as [[|]|c0]; try discriminate.
      destruct (isHeightPast w 1) as [[|]|c1]; try discriminate.
      destruct (waitLoop (isHeightPast w) (Int64.unsigned height)
                  (wakeups w) 2) as [tr' r'] eqn:Hl.
      intros H. inversion H. subst.
      apply waitLoop_trace in Hl as (n & _ & _ & []).
  - intros w height tr. unfold waitForHeightProcessed.
    destruct (height >? headHeight w) eqn:Hh; [discriminate|].
    apply Hgt in Hh. intros H. split; [exact Hh|]. revert H.
    destruct (isHeightPast w 0) as [[|]|c0] eqn:H0; try discriminate.
    destruct (isHeightPast w 1) as [[|]|c1] eqn:H1; try discriminate.
    destruct (waitLoop (isHeightPast w) (Int64.unsigned height)
                (wakeups w) 2) as [tr' r'] eqn:Hl.
    intros H. inversion H. subst.
    apply waitLoop_trace in Hl as (n & Hfalse & Htake & Hlen & _).
    subst n. split.
    + rewrite <- Htake. rewrite firstn_all. reflexivity.
    + apply (Hshift w _ H0 H1 Hfalse).
Qed.

Lemma waitForHeightProcessed_sound_witness :
  waitForHeightProcessed cancelledWait 42
  = (checkSubscribeRecheck 42 ++ rechecks 42 1
       ++ [Select; UnSubscribe; CancelTimeout],
     Returned (Some (ErrContext Canceled)))
  /\ exists n : nat, wakeups cancelledWait !! n = Some (Done Canceled).
Proof.
  split; [reflexivity|].
  destruct (proj1 (proj2 (proj2 waitForHeightProcessed_sound))
              cancelledWait 42 _ Canceled eq_refl) as (_ & n & Hn & _).
  exists n. exact Hn.
Defined.

End WaitFacts.

(** ** The ranges [parseBlockRange] lets through *)

Module RangeFacts.

Import BlockRange.

Section Accepted.

(** [types.EthUint64FromHex], defined outside this file. *)
Variable hex : string -> option Z.

Lemma in_range_bounds z :
  Int64.in_range z <-> - 2 ^ 63 <= z <= 2 ^ 63 - 1.
Proof. reflexivity. Qed.

(** The lower bound is the head, 0 or the converted value of a numeral. *)
Lemma fromHeight_Ok heaviest from lo :
  fromHeight hex heaviest from = Ok lo ->
  lo = heaviest \/ lo = 0
  \/ exists s epoch, from = Some s /\ hex s = Some epoch
                     /\ lo = Int64.signed epoch.
Proof.
  unfold fromHeight. destruct from as [s|]; [|intros H; inversion H; auto].
  destruct (isLatest (Some s)); [intros H; inversion H; auto|].
  destruct (String.eqb s "earliest"); [intros H; inversion H; auto|].
  destruct (negb (String.prefix "0x" s)); [discriminate|].
  destruct (hex s) as [epoch|] eqn:Hx; [|discriminate].
  intros H. inversion H. right. right. exists s, epoch. auto.
Qed.

(** The upper bound is the open [-1], 0 or the converted value of a
    numeral. *)
Lemma toHeight_Ok to hi :
  toHeight hex to = Ok hi ->
  hi = -1 \/ hi = 0
  \/ exists s epoch, to = Some s /\ hex s = Some epoch
                     /\ hi = Int64.signed epoch.
Proof.
  unfold toHeight. destruct to as [s|]; [|intros H; inversion H; auto].
  destruct (isLatest (Some s)); [intros H; inversion H; auto|].
  destruct (String.eqb s "earliest"); [intros H; inversion H; auto|].
  destruct (negb (String.prefix "0x" s)); [discriminate|].
  destruct (hex s) as [epoch|] eqn:Hx; [|discriminate].
  intros H. inversion H. right. right. exists s, epoch. auto.
Qed.

Lemma fromHeight_in_range heaviest from lo :
  Int64.in_range heaviest -> fromHeight hex heaviest from = Ok lo ->
  Int64.in_range lo.
Proof.
  intros Hh H. apply fromHeight_Ok in H as [->|[->|(s & epoch & _ & _ & ->)]].
  - exact Hh.
  - apply in_range_bounds. lia.
  - apply Int64.signed_range.
Qed.

Lemma toHeight_in_range to hi :
  toHeight hex to = Ok hi -> Int64.in_range hi.
Proof.
  intros H. apply toHeight_Ok in H as [->|[->|(s & epoch & _ & _ & ->)]].
  - apply in_range_bounds. lia.
  - apply in_range_bounds. lia.
  - apply Int64.signed_range.
Qed.

(** The validation, with the tests decided. *)
Lemma validateRange_cases heaviest lo hi maxRange :
  0 <= heaviest <= Int64.max_signed ->
  Int64.in_range lo -> Int64.in_range hi ->
  validateRange heaviest lo hi maxRange =
    if bool_decide (lo = -1 /\ 0 < hi) then
      if bool_decide (hi - heaviest > maxRange)
      then Err (ErrTooFarInFuture maxRange) else Ok (lo, hi)
    else if bool_decide (0 <= lo /\ hi = -1) then
      if bool_decide (heaviest - lo > maxRange)
      then Err (ErrTooFarInPast maxRange) else Ok (lo, hi)
    else if bool_decide (0 <= lo /\ 0 <= hi) then
      if bool_decide (lo > hi) then Err (ErrInverted lo hi)
      else if bool_decide (hi - lo > maxRange)
      then Err (ErrRangeTooLarge maxRange) else Ok (lo, hi)
    else Ok (lo, hi).
Proof.
  intros Hh Hlo Hhi.
  assert (Hsub : forall x y, 0 <= x <= Int64.max_signed ->
                   0 <= y <= Int64.max_signed -> Int64.sub x y = x - y)
    by apply sub_exact.
  unfold Int64.in_range, Int64.min_signed, Int64.max_signed,
    Int64.half_modulus in *.
  unfold validateRange. rewrite !Z.gtb_ltb, !Z.geb_leb.
  destruct (Z.eqb_spec lo (-1)), (Z.ltb_spec 0 hi), (Z.leb_spec 0 lo),
    (Z.eqb_spec hi (-1)), (Z.leb_spec 0 hi); simpl;
    try (rewrite Hsub by lia);
    repeat case_bool_decide; try lia;
    repeat match goal with
           | |- context [?a <? ?b] => destruct (Z.ltb_spec a b)
           end; try lia; try reflexivity.
Qed.

Lemma fromHeight_Err heaviest from e :
  fromHeight hex heaviest from = Err e ->
  (e = ErrFromNotHex
   /\ exists s, from = Some s /\ String.prefix "0x" s = false)
  \/ (e = ErrInvalidEpoch /\ exists s, from = Some s /\ hex s = None).
Proof.
  unfold fromHeight. destruct from as [s|]; [|discriminate].
  destruct (isLatest (Some s)); [discriminate|].
  destruct (String.eqb s "earliest"); [discriminate|].
  destruct (String.prefix "0x" s) eqn:Hp; simpl.
  - destruct (hex s) eqn:Hx; [discriminate|].
    intros H. inversion H. right. split; [reflexivity|]. exists s. auto.
  - intros H. inversion H. left. split; [reflexivity|]. exists s. auto.
Qed.

Lemma toHeight_Err to e :
  toHeight hex to = Err e ->
  (e = ErrToNotHex /\ exists s, to = Some s /\ String.prefix "0x" s = false)
  \/ (e = ErrInvalidEpoch /\ exists s, to = Some s /\ hex s = None).
Proof.
  unfold toHeight. destruct to as [s|]; [|discriminate].
  destruct (isLatest (Some s)); [discriminate|].
  destruct (String.eqb s "earliest"); [discriminate|].
  destruct (String.prefix "0x" s) eqn:Hp; simpl.
  - destruct (hex s) eqn:Hx; [discriminate|].
    intros H. inversion H. right. split; [reflexivity|]. exists s. auto.
  - intros H. inversion H. left. split; [reflexivity|]. exists s. auto.
Qed.

(** X12. What [parseBlockRange] answers when the head is a non-negative
    epoch.  The bounds of an accepted range fit [int64]; if both are
    non-negative the range is not inverted and spans at most [maxRange]
    epochs, and if the upper bound is the open [-1] the lower bound is at
    most [maxRange] epochs below the head.  Each error tells the truth
    about the bounds it names, and the error for a range too far in the
    future is returned only when the lower bound is a numeral whose
    conversion to [int64] gives [-1]. *)
Theorem parseBlockRange_within_limits (heaviest maxRange : Z)
  (fromBlock toBlock : option string) :
  0 <= heaviest <= Int64.max_signed ->
  match parseBlockRange hex heaviest fromBlock toBlock maxRange with
  | Ok (lo, hi) =>
      Int64.in_range lo /\ Int64.in_range hi
      /\ (0 <= lo -> 0 <= hi -> lo <= hi <= lo + maxRange)
      /\ (0 <= lo -> hi = -1 -> heaviest - lo <= maxRange)
      /\ (lo = -1 -> 0 < hi -> hi - heaviest <= maxRange)
  | Err (ErrInverted a b) =>
      fromHeight hex heaviest fromBlock = Ok a
      /\ toHeight hex toBlock = Ok b /\ 0 <= b < a
  | Err (ErrRangeTooLarge m) =>
      m = maxRange
      /\ exists lo hi, fromHeight hex heaviest fromBlock = Ok lo
                       /\ toHeight hex toBlock = Ok hi
                       /\ 0 <= lo <= hi /\ hi - lo > maxRange
  | Err (ErrTooFarInPast m) =>
      m = maxRange /\ toHeight hex toBlock = Ok (-1)
      /\ exists lo, fromHeight hex heaviest fromBlock = Ok lo
                    /\ 0 <= lo /\ heaviest - lo > maxRange
  | Err (ErrTooFarInFuture m) =>
      m = maxRange
      /\ (exists s epoch, fromBlock = Some s /\ hex s = Some epoch
                          /\ Int64.signed epoch = -1)
      /\ exists hi, toHeight hex toBlock = Ok hi /\ hi - heaviest > maxRange
  | Err ErrFromNotHex =>
      exists s, fromBlock = Some s /\ String.prefix "0x" s = false
  | Err ErrToNotHex =>
      exists s, toBlock = Some s /\ String.prefix "0x" s = false
  | Err ErrInvalidEpoch =>
      (exists s, fromBlock = Some s /\ hex s = None)
      \/ (exists s, toBlock = Some s /\ hex s = None)
  end.
Proof.
  intros Hh. unfold parseBlockRange.
  destruct (fromHeight hex heaviest fromBlock) as [lo|e] eqn:Hf.
  2:{ apply fromHeight_Err in Hf as [[-> Hs]|[-> Hs]]; [exact Hs|].
      left. exact Hs. }
  destruct (toHeight hex toBlock) as [hi|e] eqn:Ht.
  2:{ apply toHeight_Err in Ht as [[-> Hs]|[-> Hs]]; [exact Hs|].
      right. exact Hs. }
  assert (Hlo : Int64.in_range lo).
  { apply (fromHeight_in_range heaviest fromBlock); [|exact Hf].
    apply in_range_bounds.
    unfold Int64.max_signed, Int64.half_modulus in Hh. lia. }
  pose proof (toHeight_in_range toBlock hi Ht) as Hhi.
  rewrite validateRange_cases by assumption.
  unfold Int64.in_range, Int64.min_signed, Int64.max_signed,
    Int64.half_modulus in *.
  repeat case_bool_decide.
  - split; [reflexivity|]. split.
    + apply fromHeight_Ok in Hf as [E|[E|(s & epoch & Hs & Hx & E)]];
        [lia..|].
      exists s, epoch. repeat split; [assumption..|]. lia.
    + exists hi. split; [reflexivity|assumption].
  - repeat split; try assumption; lia.
  - split; [reflexivity|]. split; [f_equal; lia|].
    exists lo. split; [reflexivity|]. split; [lia|assumption].
  - repeat split; try assumption; lia.
  - repeat split; lia.
  - split; [reflexivity|]. exists lo, hi. repeat split; try lia; assumption.
  - repeat split; try assumption; lia.
  - repeat split; try assumption; lia.
Qed.

End Accepted.

Lemma parseBlockRange_within_limits_witness :
  parseBlockRange EthUint64FromHex 100 (Some "0x5"%string)
    (Some "0x0a"%string) 50 = Ok (5, 10)
  /\ 5 <= 10 <= 5 + 50.
Proof.
  split; [reflexivity|].
  pose proof (parseBlockRange_within_limits EthUint64FromHex 100 50
                (Some "0x5"%string) (Some "0x0a"%string)) as H.
  change (parseBlockRange EthUint64FromHex 100 (Some "0x5"%string)
            (Some "0x0a"%string) 50) with (@Ok rangeError _ (5, 10)) in H.
  apply H.
  - unfold Int64.max_signed, Int64.half_modulus. lia.
  - lia.
  - lia.
Defined.

End RangeFacts.

(** ** The filter API and the subscription pipeline: further properties *)

Module EngineFacts.

Import Engine.

(** [EthNewBlockFilter]. *)
Definition EthNewBlockFilter (o : oracle) (e : ethEventAPI)
  : result error FilterID * ethEventAPI :=
  if disable e then (Err ErrNotSupported, e)
  else
    let '(r, m) := managerInstall (installOutcome o) (TipSetFilterManager e) in
    let e1 := setManager TipSetFilter m e in
    match r with
    | Err err => (Err err, e1)
    | Ok fid =>
        let f := {| kind := TipSetFilter; ID := fid |} in
        match storeAdd f (FilterStore e1) with
        | (Err err, _) =>
            let '(r2, m2) := managerRemove (ID f) (TipSetFilterManager e1) in
            let e2 := setManager TipSetFilter m2 e1 in
            match r2 with
            | Err err2 => (Err (ErrCleanup err2 err), e2)
            | Ok _ => (Err err, e2)
            end
        | (Ok _, st) => (Ok (ID f), setFilterStore st e1)
        end
    end.

(** [EthNewPendingTransactionFilter]. *)
Definition EthNewPendingTransactionFilter (o : oracle) (e : ethEventAPI)
  : result error FilterID * ethEventAPI :=
  if disable e then (Err ErrNotSupported, e)
  else
    let '(r, m) := managerInstall (installOutcome o) (MemPoolFilterManager e) in
    let e1 := setManager MemPoolFilter m e in
    match r with
    | Err err => (Err err, e1)
    | Ok fid =>
        let f := {| kind := MemPoolFilter; ID := fid |} in
        match storeAdd f (FilterStore e1) with
        | (Err err, _) =>
            let '(r2, m2) := managerRemove (ID f) (MemPoolFilterManager e1) in
            let e2 := setManager MemPoolFilter m2 e1 in
            match r2 with
            | Err err2 => (Err (ErrCleanup err2 err), e2)
            | Ok _ => (Err err, e2)
            end
        | (Ok _, st) => (Ok (ID f), setFilterStore st e1)
        end
    end.

(** [GC].  Each element of [ticks] is what [FilterStore.NotTakenSince]
    returns at one tick of the timer; the list ends when the context is
    done.  An error of [uninstallFilter] is logged and the loop goes on. *)
Definition GC (ticks : list (list Filter)) (e : ethEventAPI) : ethEventAPI :=
  if disable e then e
  else foldl (fun e' fs => uninstallAll fs e') e ticks.

(** A node whose Filter Store has no room. *)
Definition crowdedAPI : ethEventAPI := {|
  disable := false;
  FilterStore := {| maxFilters := 0; stored := ∅ |};
  EventFilterManager := ∅;
  TipSetFilterManager := ∅;
  MemPoolFilterManager := ∅;
  subs := ∅;
  heap := ∅;
|}.

(** A node with the features switched off. *)
Definition disabledAPI : ethEventAPI := {|
  disable := true;
  FilterStore := {| maxFilters := 0; stored := ∅ |};
  EventFilterManager := ∅;
  TipSetFilterManager := ∅;
  MemPoolFilterManager := ∅;
  subs := ∅;
  heap := ∅;
|}.

(** *** Installing block and pending transaction filters *)

Lemma setManager_same k e : setManager k (managerOf k e) e = e.
Proof. destruct e, k; reflexivity. Qed.

Lemma setManager_twice k m m' e :
  setManager k m (setManager k m' e) = setManager k m e.
Proof. destruct e, k; reflexivity. Qed.

Lemma managerOf_setManager k m e :
  k <> OtherFilter -> managerOf k (setManager k m e) = m.
Proof. destruct k; intros H; try reflexivity. contradiction. Qed.

Lemma managerOf_setManager_ne k k' m e :
  k <> k' -> managerOf k' (setManager k m e) = managerOf k' e.
Proof. destruct k, k'; intros H; try reflexivity; contradiction. Qed.

(** The steps the three installing calls share, for the manager of the
    kind [k]: [Install], [FilterStore.Add] and the removal of the filter
    if the store refuses it. *)
Definition installAndStore (k : filterKind) (o : oracle) (e : ethEventAPI)
  : result error FilterID * ethEventAPI :=
  let '(r, m) := managerInstall (installOutcome o) (managerOf k e) in
  let e1 := setManager k m e in
  match r with
  | Err err => (Err err, e1)
  | Ok fid =>
      let f := {| kind := k; ID := fid |} in
      match storeAdd f (FilterStore e1) with
      | (Err err, _) =>
          let '(r2, m2) := managerRemove (ID f) (managerOf k e1) in
          let e2 := setManager k m2 e1 in
          match r2 with
          | Err err2 => (Err (ErrCleanup err2 err), e2)
          | Ok _ => (Err err, e2)
          end
      | (Ok _, st) => (Ok (ID f), setFilterStore st e1)
      end
  end.

Lemma EthNewBlockFilter_steps o e :
  EthNewBlockFilter o e
  = if disable e then (Err ErrNotSupported, e)
    else installAndStore TipSetFilter o e.
Proof. reflexivity. Qed.

Lemma EthNewPendingTransactionFilter_steps o e :
  EthNewPendingTransactionFilter o e
  = if disable e then (Err ErrNotSupported, e)
    else installAndStore MemPoolFilter o e.
Proof. reflexivity. Qed.

Lemma installAndStore_Ok k o e fid e1 :
  k <> OtherFilter ->
  installAndStore k o e = (Ok fid, e1) ->
  installOutcome o = Ok fid
  /\ stored (FilterStore e) !! fid = None
  /\ (size (stored (FilterStore e)) < maxFilters (FilterStore e))%nat
  /\ e1 = setFilterStore
            {| maxFilters := maxFilters (FilterStore e);
               stored := <[fid := {| kind := k; ID := fid |}]>
                           (stored (FilterStore e)) |}
            (setManager k (<[fid := None]> (managerOf k e)) e).
Proof.
  intros Hk. unfold installAndStore, managerInstall.
  destruct (installOutcome o) as [fid'|cause]; [|discriminate].
  unfold storeAdd. cbn [ID].
  replace (FilterStore (setManager k (<[fid':=None]> (managerOf k e)) e))
    with (FilterStore e) by (destruct k; reflexivity).
  destruct (Nat.leb_spec (maxFilters (FilterStore e))
              (size (stored (FilterStore e)))) as [Hfull|Hroom].
  { destruct (managerRemove _ _) as [[?|?] ?]; discriminate. }
  destruct (stored (FilterStore e) !! fid') eqn:Hs.
  { destruct (managerRemove _ _) as [[?|?] ?]; discriminate. }
  intros H. inversion H. subst. repeat split; try assumption.
Qed.

Lemma installAndStore_Err k o e err e' :
  k <> OtherFilter ->
  installAndStore k o e = (Err err, e') ->
  FilterStore e' = FilterStore e
  /\ heap e' = heap e /\ subs e' = subs e
  /\ (forall k', k' <> k -> managerOf k' e' = managerOf k' e)
  /\ ((forall fid, installOutcome o = Ok fid -> managerOf k e !! fid = None) ->
      e' = e)
  /\ ((exists cause, installOutcome o = Err cause /\ err = ErrInstall cause)
      \/ (exists fid, installOutcome o = Ok fid
            /\ ((maxFilters (FilterStore e) <= size (stored (FilterStore e)))%nat
                /\ err = ErrStoreFull
                \/ is_Some (stored (FilterStore e) !! fid)
                   /\ err = ErrAlreadyRegistered))).
Proof.
  intros Hk. unfold installAndStore, managerInstall.
  destruct (installOutcome o) as [fid|cause] eqn:Hio.
  2:{ intros H. inversion H. subst. rewrite setManager_same.
      repeat split; try reflexivity. left. eauto. }
  unfold storeAdd. cbn [ID].
  replace (FilterStore (setManager k (<[fid:=None]> (managerOf k e)) e))
    with (FilterStore e) by (destruct k; reflexivity).
  unfold managerRemove. rewrite managerOf_setManager by exact Hk.
  rewrite lookup_insert_eq, setManager_twice.
  assert (Hgen : forall err0,
            (Err err0,
             setManager k (delete fid (<[fid:=None]> (managerOf k e))) e)
            = (@Err error FilterID err, e') ->
            err0 = err
            /\ FilterStore e' = FilterStore e
            /\ heap e' = heap e /\ subs e' = subs e
            /\ (forall k', k' <> k -> managerOf k' e' = managerOf k' e)
            /\ (managerOf k e !! fid = None -> e' = e)).
  { intros err0 H. inversion H. subst.
    split; [reflexivity|].
    split; [destruct k; reflexivity|].
    split; [destruct k; reflexivity|].
    split; [destruct k; reflexivity|].
    split; [intros k' Hne; apply managerOf_setManager_ne; congruence|].
    intros Hfresh. rewrite delete_insert_id by exact Hfresh.
    apply setManager_same. }
  destruct (Nat.leb_spec (maxFilters (FilterStore e))
              (size (stored (FilterStore e)))) as [Hfull|Hroom].
  { intros H. apply Hgen in H as (<- & H1 & H2 & H3 & H4 & H5).
    repeat split; try assumption.
    - intros Hf. apply H5, Hf. reflexivity.
    - right. exists fid. split; [reflexivity|]. left. split; [lia|reflexivity]. }
  destruct (stored (FilterStore e) !! fid) eqn:Hs; [|discriminate].
  intros H. apply Hgen in H as (<- & H1 & H2 & H3 & H4 & H5).
  repeat split; try assumption.
  - intros Hf. apply H5, Hf. reflexivity.
  - right. exists fid. split; [reflexivity|]. right.
    split; [rewrite Hs; eexists; reflexivity|reflexivity].
Qed.

Lemma installAndStore_round_trip k o e fid e1 :
  k <> OtherFilter -> disable e = false ->
  installAndStore k o e = (Ok fid, e1) ->
  stored (FilterStore e1) !! fid = Some {| kind := k; ID := fid |}
  /\ managerOf k e1 !! fid = Some None
  /\ (forall k', k' <> k -> managerOf k' e1 = managerOf k' e)
  /\ exists e2,
       EthUninstallFilter fid e1 = ((true, None), e2)
       /\ FilterStore e2 = FilterStore e
       /\ managerOf k e2 !! fid = None
       /\ (forall k', k' <> k -> managerOf k' e2 = managerOf k' e)
       /\ (managerOf k e !! fid = None -> e2 = e).
Proof.
  intros Hk Hd H. apply installAndStore_Ok in H as (_ & Hnone & _ & ->);
    [|exact Hk].
  split; [destruct k; simpl; apply lookup_insert_eq|].
  split; [destruct k; try contradiction; simpl; apply lookup_insert_eq|].
  split; [intros k' Hne; destruct k, k'; try reflexivity; contradiction|].
  unfold EthUninstallFilter, storeGet, uninstallFilter, managerRemove,
    storeRemove.
  destruct e as [dis [mx st] em tm mm sb hp]. simpl in Hd, Hnone. subst dis.
  destruct k; try contradiction; simpl; rewrite !lookup_insert_eq; simpl;
    rewrite ?lookup_insert_eq; simpl; rewrite ?lookup_insert_eq; simpl;
    (eexists; split; [reflexivity|]); simpl;
    rewrite (delete_insert_id st) by exact Hnone;
    (split; [reflexivity|]);
    (split; [apply lookup_delete_eq|]);
    (split; [intros k' Hne; destruct k'; try reflexivity; contradiction|]);
    intros Hfresh; rewrite delete_insert_id by exact Hfresh; reflexivity.
Qed.

(** X13. A block filter and a pending transaction filter are registered
    with their own manager and with the Filter Store, and with no other
    manager.  [EthUninstallFilter] of the identifier then succeeds,
    unregisters the filter and leaves the Filter Store as it was before
    the installation; if the identifier was new to the manager the node
    is as it was before the installation. *)
Theorem collector_filters_round_trip :
  (forall (o : oracle) (e e1 : ethEventAPI) (fid : FilterID),
     EthNewBlockFilter o e = (Ok fid, e1) ->
     stored (FilterStore e1) !! fid = Some {| kind := TipSetFilter; ID := fid |}
     /\ TipSetFilterManager e1 !! fid = Some None
     /\ EventFilterManager e1 = EventFilterManager e
     /\ MemPoolFilterManager e1 = MemPoolFilterManager e
     /\ exists e2,
          EthUninstallFilter fid e1 = ((true, None), e2)
          /\ FilterStore e2 = FilterStore e
          /\ TipSetFilterManager e2 !! fid = None
          /\ (TipSetFilterManager e !! fid = None -> e2 = e))
  /\ (forall (o : oracle) (e e1 : ethEventAPI) (fid : FilterID),
        EthNewPendingTransactionFilter o e = (Ok fid, e1) ->
        stored (FilterStore e1) !! fid
        = Some {| kind := MemPoolFilter; ID := fid |}
        /\ MemPoolFilterManager e1 !! fid = Some None
        /\ EventFilterManager e1 = EventFilterManager e
        /\ TipSetFilterManager e1 = TipSetFilterManager e
        /\ exists e2,
             EthUninstallFilter fid e1 = ((true, None), e2)
             /\ FilterStore e2 = FilterStore e
             /\ MemPoolFilterManager e2 !! fid = None
             /\ (MemPoolFilterManager e !! fid = None -> e2 = e)).
Proof.
  split.
  - intros o e e1 fid. rewrite EthNewBlockFilter_steps.
    destruct (disable e) eqn:Hd; [discriminate|]. intros H.
    apply installAndStore_round_trip in H
      as (H1 & H2 & H3 & e2 & H4 & H5 & H6 & _ & H7);
      [|discriminate|exact Hd].
    split; [exact H1|]. split; [exact H2|].
    split; [apply (H3 EventFilter); discriminate|].
    split; [apply (H3 MemPoolFilter); discriminate|].
    exists e2. repeat split; assumption.
  - intros o e e1 fid. rewrite EthNewPendingTransactionFilter_steps.
    destruct (disable e) eqn:Hd; [discriminate|]. intros H.
    apply installAndStore_round_trip in H
      as (H1 & H2 & H3 & e2 & H4 & H5 & H6 & _ & H7);
      [|discriminate|exact Hd].
    split; [exact H1|]. split; [exact H2|].
    split; [apply (H3 EventFilter); discriminate|].
    split; [apply (H3 TipSetFilter); discriminate|].
    exists e2. repeat split; assumption.
Qed.

Lemma collector_filters_round_trip_witness :
  exists e2,
    EthUninstallFilter 1%N (snd (EthNewBlockFilter sampleOracle emptyAPI))
    = ((true, None), e2)
    /\ (TipSetFilterManager emptyAPI !! 1%N = None -> e2 = emptyAPI).
Proof.
  destruct (proj1 collector_filters_round_trip sampleOracle emptyAPI
              (snd (EthNewBlockFilter sampleOracle emptyAPI)) 1%N eq_refl)
    as (_ & _ & _ & _ & e2 & H1 & _ & _ & H2).
  exists e2. split; assumption.
Defined.

Section Calls.

(** Conversions and collaborators defined outside this file. *)
Variable EthUint64FromHex : string -> option Z.
Variable ToFilecoinAddress : EventLog.EthAddress -> option EventLog.Address.
Variable parseEthTopics :
  list (list EventLog.EthHash)
  -> result string (gmap string (list (list Byte.byte))).
Variable MaxFilterHeightRange : Z.
Variable Marshal : EthSubscriptionResponse -> option (list Byte.byte).
Variable ChainGetTipSet : EventLog.TipSetKey -> option TipSet.
Variable newEthBlockFromFilecoinTipSet : TipSet -> option EthBlock.
Variable EthAddressFromFilecoinAddress :
  EventLog.Address -> result EventLog.error EventLog.EthAddress.
Variable ethTxHashFromMessageCid :
  EventLog.Cid -> result EventLog.error EventLog.EthHash.
Variable TipSetKeyCid : EventLog.TipSetKey -> result EventLog.error EventLog.Cid.
Variable EthHashFromCid : EventLog.Cid -> result EventLog.error EventLog.EthHash.
Variable ethTxHashFromSignedMessage :
  EventLog.Cid -> result string EventLog.EthHash.

(** [EthNewFilter] on an enabled node: the specification is refused and
    nothing happens, or the call goes on like the other two. *)
Lemma EthNewFilter_steps o filterSpec e r e' :
  disable e = false ->
  EthNewFilter EthUint64FromHex ToFilecoinAddress parseEthTopics
    MaxFilterHeightRange o filterSpec e = (r, e') ->
  (exists err, r = Err err /\ e' = e)
  \/ installAndStore EventFilter o e = (r, e').
Proof.
  intros Hd. unfold EthNewFilter, installEthFilterSpec. rewrite Hd.
  destruct (match HistoricQuery.SpecBlockHash filterSpec with
            | Some _ => _ | None => _ end) as [rg|err];
    [|intros H; inversion H; left; eauto].
  destruct (convertAddresses _ _ _); [|intros H; inversion H; left; eauto].
  destruct (parseEthTopics _); [|intros H; inversion H; left; eauto].
  intros H. right. revert H. unfold installAndStore, managerInstall.
  destruct (installOutcome o) as [fid|cause]; [|intros H; exact H].
  cbn [managerOf ID kind].
  destruct (storeAdd _ _) as [[[]|err] st]; [intros H; exact H|].
  destruct (managerRemove _ _) as [[?|?] ?]; intros H; exact H.
Qed.

(** X14. A call that installs a filter and fails leaves the Filter Store,
    the subscriptions and the other managers as they were; if [Install]
    drew an identifier that was new to the manager, the node is as it was
    before the call, so a filter the store refuses does not stay
    registered with its manager. *)
Theorem failed_install_leaves_no_filter :
  (forall (o : oracle) (filterSpec : HistoricQuery.EthFilterSpec)
          (e e' : ethEventAPI) (err : error),
     EthNewFilter EthUint64FromHex ToFilecoinAddress parseEthTopics
       MaxFilterHeightRange o filterSpec e = (Err err, e') ->
     FilterStore e' = FilterStore e /\ heap e' = heap e /\ subs e' = subs e
     /\ TipSetFilterManager e' = TipSetFilterManager e
     /\ MemPoolFilterManager e' = MemPoolFilterManager e
     /\ ((forall fid, installOutcome o = Ok fid ->
            EventFilterManager e !! fid = None) -> e' = e))
  /\ (forall (o : oracle) (e e' : ethEventAPI) (err : error),
        EthNewBlockFilter o e = (Err err, e') ->
        FilterStore e' = FilterStore e /\ heap e' = heap e /\ subs e' = subs e
        /\ EventFilterManager e' = EventFilterManager e
        /\ MemPoolFilterManager e' = MemPoolFilterManager e
        /\ ((forall fid, installOutcome o = Ok fid ->
               TipSetFilterManager e !! fid = None) -> e' = e))
  /\ (forall (o : oracle) (e e' : ethEventAPI) (err : error),
        EthNewPendingTransactionFilter o e = (Err err, e') ->
        FilterStore e' = FilterStore e /\ heap e' = heap e /\ subs e' = subs e
        /\ EventFilterManager e' = EventFilterManager e
        /\ TipSetFilterManager e' = TipSetFilterManager e
        /\ ((forall fid, installOutcome o = Ok fid ->
               MemPoolFilterManager e !! fid = None) -> e' = e))
  /\ (forall (o : oracle) (e : ethEventAPI) (fid : FilterID),
        disable e = false -> installOutcome o = Ok fid ->
        TipSetFilterManager e !! fid = None ->
        (maxFilters (FilterStore e) <= size (stored (FilterStore e)))%nat ->
        EthNewBlockFilter o e = (Err ErrStoreFull, e)).
Proof.
  split; [|split; [|split]].
  - intros o filterSpec e e' err H.
    destruct (disable e) eqn:Hd.
    { unfold EthNewFilter in H. rewrite Hd in H. inversion H.
      repeat split; reflexivity. }
    apply EthNewFilter_steps in H as [(err' & _ & ->)|H]; [| |exact Hd].
    { repeat split; reflexivity. }
    apply installAndStore_Err in H as (H1 & H2 & H3 & H4 & H5 & _);
      [|discriminate].
    split; [exact H1|]. split; [exact H2|]. split; [exact H3|].
    split; [apply (H4 TipSetFilter); discriminate|].
    split; [apply (H4 MemPoolFilter); discriminate|exact H5].
  - intros o e e' err. rewrite EthNewBlockFilter_steps.
    destruct (disable e).
    { intros H. inversion H. repeat split; reflexivity. }
    intros H.
    apply installAndStore_Err in H as (H1 & H2 & H3 & H4 & H5 & _);
      [|discriminate].
    split; [exact H1|]. split; [exact H2|]. split; [exact H3|].
    split; [apply (H4 EventFilter); discriminate|].
    split; [apply (H4 MemPoolFilter); discriminate|exact H5].
  - intros o e e' err. rewrite EthNewPendingTransactionFilter_steps.
    destruct (disable e).
    { intros H. inversion H. repeat split; reflexivity. }
    intros H.
    apply installAndStore_Err in H as (H1 & H2 & H3 & H4 & H5 & _);
      [|discriminate].
    split; [exact H1|]. split; [exact H2|]. split; [exact H3|].
    split; [apply (H4 EventFilter); discriminate|].
    split; [apply (H4 TipSetFilter); discriminate|exact H5].
  - intros o e fid Hd Hio Hfresh Hfull.
    unfold EthNewBlockFilter, managerInstall, storeAdd, managerRemove.
    rewrite Hd, Hio. cbn [FilterStore setManager ID TipSetFilterManager].
    destruct (Nat.leb_spec (maxFilters (FilterStore e))
                (size (stored (FilterStore e)))) as [_|Hroom]; [|lia].
    rewrite lookup_insert_eq. f_equal.
    rewrite setManager_twice, delete_insert_id by exact Hfresh.
    apply (setManager_same TipSetFilter).
Qed.

(** *** The two readers of a filter specification *)

(** An error of [parseEthFilterSpec], as [installEthFilterSpec] reports
    the same failure. *)
Definition sameFailure (err : HistoricQuery.specError) : error :=
  match err with
  | HistoricQuery.ErrHashAndRange => ErrHashAndRange
  | HistoricQuery.ErrRange r => ErrRange r
  | HistoricQuery.ErrInvalidAddress ea => ErrInvalidAddress ea
  | HistoricQuery.ErrTopics cause => ErrTopics cause
  end.

Lemma convertAddresses_agree eas : forall acc,
  convertAddresses ToFilecoinAddress eas acc
  = match HistoricQuery.convertAddresses ToFilecoinAddress eas acc with
    | Ok l => Ok l
    | Err err => Err (sameFailure err)
    end.
Proof.
  induction eas as [|ea eas IH]; intros acc; simpl; [reflexivity|].
  destruct (ToFilecoinAddress ea); [apply IH|reflexivity].
Qed.

(** X24. [installEthFilterSpec], behind [EthNewFilter], and
    [parseEthFilterSpec], behind [EthGetLogs], read a specification
    alike: when the chain head can be read and both see the same head and
    the same maximum range, the first fails exactly when the second does,
    with the same failure and without a change of the node, and otherwise
    hands the criteria to [Install], whose outcome it returns. *)
Theorem install_validates_like_parse
  (ToCid : EventLog.EthHash -> EventLog.Cid) (n : HistoricQuery.node)
  (o : oracle) (filterSpec : HistoricQuery.EthFilterSpec) (e : ethEventAPI) :
  ChainHead o = Ok (IndexWait.headHeight (HistoricQuery.chain n)) ->
  HistoricQuery.MaxFilterHeightRange n = MaxFilterHeightRange ->
  installEthFilterSpec EthUint64FromHex ToFilecoinAddress parseEthTopics
    MaxFilterHeightRange o filterSpec e
  = match HistoricQuery.parseEthFilterSpec EthUint64FromHex ToCid
            ToFilecoinAddress parseEthTopics n filterSpec with
    | Err err => (Err (sameFailure err), e)
    | Ok _ =>
        match installOutcome o with
        | Err cause => (Err (ErrInstall cause), e)
        | Ok fid =>
            (Ok {| kind := EventFilter; ID := fid |},
             setManager EventFilter (<[fid := None]> (EventFilterManager e)) e)
        end
    end.
Proof.
  intros Hhead Hmax.
  unfold installEthFilterSpec, HistoricQuery.parseEthFilterSpec.
  rewrite Hhead, Hmax, convertAddresses_agree.
  assert (Hinstall :
            (let '(r, m) :=
               managerInstall (installOutcome o) (EventFilterManager e) in
             match r with
             | Ok fid =>
                 (Ok {| kind := EventFilter; ID := fid |},
                  setManager EventFilter m e)
             | Err err => (Err err, setManager EventFilter m e)
             end)
            = match installOutcome o with
              | Err cause => (Err (ErrInstall cause), e)
              | Ok fid =>
                  (Ok {| kind := EventFilter; ID := fid |},
                   setManager EventFilter
                     (<[fid := None]> (EventFilterManager e)) e)
              end).
  { unfold managerInstall. destruct (installOutcome o); [reflexivity|].
    f_equal. apply (setManager_same EventFilter). }
  destruct (HistoricQuery.SpecBlockHash filterSpec) as [h|].
  - destruct (HistoricQuery.FromBlock filterSpec),
      (HistoricQuery.ToBlock filterSpec); try reflexivity.
    destruct (HistoricQuery.convertAddresses _ _ _); [|reflexivity].
    destruct (parseEthTopics _); [exact Hinstall|reflexivity].
  - destruct (BlockRange.parseBlockRange _ _ _ _ _) as [[lo hi]|];
      [|reflexivity].
    destruct (HistoricQuery.convertAddresses _ _ _); [|reflexivity].
    destruct (parseEthTopics _); [exact Hinstall|reflexivity].
Qed.

(** *** Garbage collection *)

Lemma uninstallFilter_kept f e (i : FilterID) :
  ID f <> i ->
  stored (FilterStore (snd (uninstallFilter f e))) !! i
  = stored (FilterStore e) !! i
  /\ forall k, managerOf k (snd (uninstallFilter f e)) !! i
               = managerOf k e !! i.
Proof.
  intros Hne. destruct f as [kf fid]. simpl in Hne.
  destruct e as [dis [mx st] em tm mm sb hp].
  unfold uninstallFilter, managerRemove, storeRemove.
  destruct kf; simpl.
  - destruct (em !! fid); simpl; destruct (st !! fid); simpl;
      (split; [|intros k; destruct k; simpl]);
      rewrite ?lookup_delete_ne by exact Hne; reflexivity.
  - destruct (tm !! fid); simpl; destruct (st !! fid); simpl;
      (split; [|intros k; destruct k; simpl]);
      rewrite ?lookup_delete_ne by exact Hne; reflexivity.
  - destruct (mm !! fid); simpl; destruct (st !! fid); simpl;
      (split; [|intros k; destruct k; simpl]);
      rewrite ?lookup_delete_ne by exact Hne; reflexivity.
  - split; [reflexivity|]. intros k. reflexivity.
Qed.

Lemma uninstallAll_kept fs (i : FilterID) : forall e,
  (forall f, f ∈ fs -> ID f <> i) ->
  stored (FilterStore (uninstallAll fs e)) !! i = stored (FilterStore e) !! i
  /\ forall k, managerOf k (uninstallAll fs e) !! i = managerOf k e !! i.
Proof.
  induction fs as [|f fs IH]; intros e Hne.
  - split; [reflexivity|]. intros k. reflexivity.
  - unfold uninstallAll. simpl. fold (uninstallAll fs (snd (uninstallFilter f e))).
    destruct (IH (snd (uninstallFilter f e))) as [IH1 IH2].
    { intros f' Hin. apply Hne. right. exact Hin. }
    destruct (uninstallFilter_kept f e i) as [H1 H2].
    { apply Hne. left. }
    split; [rewrite IH1; exact H1|]. intros k. rewrite IH2. apply H2.
Qed.

(** The ticks of the collector, one after the other. *)
Definition sweeps (ticks : list (list Filter)) (e : ethEventAPI)
  : ethEventAPI :=
  foldl (fun e' fs => uninstallAll fs e') e ticks.

Lemma sweeps_frame ticks : forall e,
  heap (sweeps ticks e) = heap e /\ subs (sweeps ticks e) = subs e
  /\ disable (sweeps ticks e) = disable e.
Proof.
  induction ticks as [|fs ticks IH]; intros e; [repeat split|].
  unfold sweeps. simpl. fold (sweeps ticks (uninstallAll fs e)).
  destruct (IH (uninstallAll fs e)) as (-> & -> & ->).
  apply uninstallAll_frame.
Qed.

Lemma sweeps_absent ticks k (i : FilterID) : forall e,
  (managerOf k e !! i = None -> managerOf k (sweeps ticks e) !! i = None)
  /\ (stored (FilterStore e) !! i = None ->
      stored (FilterStore (sweeps ticks e)) !! i = None).
Proof.
  induction ticks as [|fs ticks IH]; intros e; [split; auto|].
  unfold sweeps. simpl. fold (sweeps ticks (uninstallAll fs e)).
  destruct (IH (uninstallAll fs e)) as [IH1 IH2].
  destruct (uninstallAll_absent fs k i e) as [H1 H2].
  split; intros H; [apply IH1, H1, H|apply IH2, H2, H].
Qed.

Lemma sweeps_gone ticks : forall e fs f,
  fs ∈ ticks -> f ∈ fs ->
  managerOf (kind f) (sweeps ticks e) !! ID f = None
  /\ (kind f <> OtherFilter ->
      stored (FilterStore (sweeps ticks e)) !! ID f = None).
Proof.
  induction ticks as [|fs0 ticks IH]; intros e fs f Hfs Hf.
  - inversion Hfs.
  - unfold sweeps. simpl. fold (sweeps ticks (uninstallAll fs0 e)).
    apply elem_of_cons in Hfs as [->|Hfs].
    + destruct (uninstallAll_gone fs0 e f Hf) as [H1 H2].
      destruct (sweeps_absent ticks (kind f) (ID f) (uninstallAll fs0 e))
        as [A1 A2].
      split; [apply A1, H1|]. intros Hk. apply A2, H2, Hk.
    + apply (IH _ fs f Hfs Hf).
Qed.

Lemma sweeps_kept ticks (i : FilterID) : forall e,
  (forall fs f, fs ∈ ticks -> f ∈ fs -> ID f <> i) ->
  stored (FilterStore (sweeps ticks e)) !! i = stored (FilterStore e) !! i
  /\ forall k, managerOf k (sweeps ticks e) !! i = managerOf k e !! i.
Proof.
  induction ticks as [|fs ticks IH]; intros e Hne.
  - split; [reflexivity|]. intros k. reflexivity.
  - unfold sweeps. simpl. fold (sweeps ticks (uninstallAll fs e)).
    destruct (IH (uninstallAll fs e)) as [IH1 IH2].
    { intros fs' f Hfs Hf. apply (Hne fs' f); [right; exact Hfs|exact Hf]. }
    destruct (uninstallAll_kept fs i e) as [H1 H2].
    { intros f Hf. apply (Hne fs f); [left|exact Hf]. }
    split; [rewrite IH1; exact H1|]. intros k. rewrite IH2. apply H2.
Qed.

(** X15. The garbage collector of an enabled node unregisters every
    filter that a tick reported as not taken, from its manager and, for
    the three kinds of filter the node installs, from the Filter Store;
    a filter whose identifier no tick reported stays where it is, and the
    subscriptions are not touched.  On a disabled node the collector does
    nothing. *)
Theorem GC_removes_what_expired (ticks : list (list Filter))
  (e : ethEventAPI) :
  heap (GC ticks e) = heap e /\ subs (GC ticks e) = subs e
  /\ (disable e = true -> GC ticks e = e)
  /\ (disable e = false ->
      forall fs f, fs ∈ ticks -> f ∈ fs ->
        managerOf (kind f) (GC ticks e) !! ID f = None
        /\ (kind f <> OtherFilter ->
            stored (FilterStore (GC ticks e)) !! ID f = None))
  /\ (forall i : FilterID,
        (forall fs f, fs ∈ ticks -> f ∈ fs -> ID f <> i) ->
        stored (FilterStore (GC ticks e)) !! i = stored (FilterStore e) !! i
        /\ forall k, managerOf k (GC ticks e) !! i = managerOf k e !! i).
Proof.
  unfold GC. fold (sweeps ticks e). destruct (disable e) eqn:Hd.
  - split; [reflexivity|]. split; [reflexivity|]. split; [reflexivity|].
    split; [discriminate|]. intros i _. split; [reflexivity|].
    intros k. reflexivity.
  - destruct (sweeps_frame ticks e) as (Hh & Hs & _).
    split; [exact Hh|]. split; [exact Hs|]. split; [discriminate|].
    split.
    + intros _ fs f Hfs Hf. apply (sweeps_gone ticks e fs f Hfs Hf).
    + intros i Hne. apply sweeps_kept. exact Hne.
Qed.

Lemma uninstallFilter_succeeds f e :
  kind f <> OtherFilter -> is_Some (stored (FilterStore e) !! ID f) ->
  fst (uninstallFilter f e) = Ok tt.
Proof.
  intros Hk [f' Hs]. destruct f as [k fid].
  destruct e as [dis [mx st] em tm mm sb hp]. simpl in Hs, Hk.
  unfold uninstallFilter, managerRemove, storeRemove.
  destruct k; try contradiction; simpl;
    [destruct (em !! fid)|destruct (tm !! fid)|destruct (mm !! fid)];
    simpl; rewrite Hs; reflexivity.
Qed.

(** X23. [EthUninstallFilter] touches one filter.  It never changes a
    subscription, and a filter with another identifier stays registered
    where it was.  For a stored filter of one of the three kinds the call
    answers true and the filter is gone from the store and from its
    manager afterwards, also when the manager did not know the filter; a
    stored filter of another type is refused and stays stored; an unknown
    identifier changes nothing. *)
Theorem uninstall_touches_one_filter (fid : FilterID) (e : ethEventAPI) :
  heap (snd (EthUninstallFilter fid e)) = heap e
  /\ subs (snd (EthUninstallFilter fid e)) = subs e
  /\ (stored (FilterStore e) !! fid = None ->
      snd (EthUninstallFilter fid e) = e)
  /\ (forall f : Filter,
        stored (FilterStore e) !! fid = Some f ->
        (forall j : FilterID, j <> ID f ->
           stored (FilterStore (snd (EthUninstallFilter fid e))) !! j
           = stored (FilterStore e) !! j
           /\ forall k, managerOf k (snd (EthUninstallFilter fid e)) !! j
                        = managerOf k e !! j)
        /\ (disable e = false -> kind f <> OtherFilter -> ID f = fid ->
            fst (EthUninstallFilter fid e) = (true, None)
            /\ stored (FilterStore (snd (EthUninstallFilter fid e))) !! fid
               = None
            /\ managerOf (kind f) (snd (EthUninstallFilter fid e)) !! fid
               = None)
        /\ (disable e = false -> kind f = OtherFilter ->
            EthUninstallFilter fid e
            = ((false, Some ErrUnknownFilterType), e))).
Proof.
  unfold EthUninstallFilter, storeGet.
  destruct (disable e) eqn:Hd.
  { split; [reflexivity|]. split; [reflexivity|]. split; [reflexivity|].
    intros f Hs. split; [|split; discriminate].
    intros j Hj. split; [reflexivity|]. intros k. reflexivity. }
  destruct (stored (FilterStore e) !! fid) as [f|] eqn:Hs.
  2:{ split; [reflexivity|]. split; [reflexivity|]. split; [reflexivity|].
      intros f Hf. discriminate. }
  assert (Hsnd : snd (let (r, e1) := uninstallFilter f e in
                      match r with
                      | Ok _ => (true, None, e1)
                      | Err err => (false, Some err, e1)
                      end) = snd (uninstallFilter f e)).
  { destruct (uninstallFilter f e) as [[?|?] ?]; reflexivity. }
  rewrite Hsnd.
  destruct (uninstallFilter_frame f e) as (Hh & Hsb & _).
  split; [exact Hh|]. split; [exact Hsb|]. split; [discriminate|].
  intros f' Hf. inversion Hf. subst f'. split; [|split].
  - intros j Hj. apply uninstallFilter_kept. congruence.
  - intros _ Hk Hid.
    destruct (uninstallFilter_gone f e) as [Hm Hst].
    rewrite Hid in Hm, Hst. split; [|split; [apply Hst, Hk|exact Hm]].
    pose proof (uninstallFilter_succeeds f e Hk) as Hok.
    rewrite Hid, Hs in Hok. specialize (Hok (ltac:(eexists; reflexivity))).
    destruct (uninstallFilter f e) as [[[]|?] ?]; [reflexivity|discriminate].
  - intros _ Hk. unfold uninstallFilter. rewrite Hk. reflexivity.
Qed.

(** *** Subscriptions *)

(** The node after [StartSubscription] has put the subscription [sid] at
    the address [a]. *)
Definition started (sid : SubID) (a : nat) (e : ethEventAPI) : ethEventAPI :=
  setSubs (<[sid := a]> (subs e))
          (setHeap (<[a := newSubscription sid]> (heap e)) e).

(** The node after a filter of the kind [k] has been installed for the
    subscription at [a] and added to it. *)
Definition subscribed (k : filterKind) (fid : FilterID) (sid : SubID)
  (a : nat) (e : ethEventAPI) : ethEventAPI :=
  addFilter a {| kind := k; ID := fid |}
    (setManager k (<[fid := None]> (managerOf k (started sid a e)))
                (started sid a e)).

Lemma EthSubscribe_Ok params o e sid e1 :
  EthSubscribe ToFilecoinAddress parseEthTopics params o e = (Ok sid, e1) ->
  disable e = false /\ reverseClient o = true /\ newUUID o = Ok sid
  /\ exists k fid,
       k <> OtherFilter /\ installOutcome o = Ok fid
       /\ e1 = subscribed k fid sid (fresh (dom (heap e))) e.
Proof.
  unfold EthSubscribe. destruct params as [p|cause]; [|discriminate].
  destruct (disable e) eqn:Hd; [discriminate|].
  destruct (reverseClient o) eqn:Hr; [|discriminate]. simpl.
  unfold StartSubscription. destruct (newUUID o) as [sid'|cause] eqn:Hu;
    [|discriminate].
  fold (started sid' (fresh (dom (heap e))) e).
  assert (Hid : subID (fresh (dom (heap e)))
                      (started sid' (fresh (dom (heap e))) e) = sid').
  { unfold subID, started. simpl. rewrite lookup_insert_eq. reflexivity. }
  rewrite Hid. unfold managerInstall.
  destruct (String.eqb (EventType p) EthSubscribeEventTypeHeads).
  { destruct (installOutcome o) as [fid|c] eqn:Hi; [|discriminate].
    intros H. inversion H. subst. repeat split.
    exists TipSetFilter, fid. repeat split. discriminate. }
  destruct (String.eqb (EventType p) EthSubscribeEventTypeLogs).
  { destruct (match Params p with
              | Some ps => parseEthTopics (ParamTopics ps)
              | None => Ok ∅
              end); [|discriminate].
    destruct (match Params p with
              | Some ps => convertAddresses ToFilecoinAddress (ParamAddress ps) []
              | None => Ok []
              end); [|discriminate].
    destruct (installOutcome o) as [fid|c] eqn:Hi; [|discriminate].
    intros H. inversion H. subst. repeat split.
    exists EventFilter, fid. repeat split. discriminate. }
  destruct (String.eqb (EventType p) EthSubscribeEventTypePendingTransactions);
    [|discriminate].
  destruct (installOutcome o) as [fid|c] eqn:Hi; [|discriminate].
  intros H. inversion H. subst. repeat split.
  exists MemPoolFilter, fid. repeat split. discriminate.
Qed.

Lemma subscribed_facts k fid sid a e :
  k <> OtherFilter ->
  subs (subscribed k fid sid a e) = <[sid := a]> (subs e)
  /\ heap (subscribed k fid sid a e) !! a
     = Some (withFilter {| kind := k; ID := fid |} (newSubscription sid))
  /\ managerOf k (subscribed k fid sid a e) !! fid = Some (Some a)
  /\ FilterStore (subscribed k fid sid a e) = FilterStore e
  /\ disable (subscribed k fid sid a e) = disable e.
Proof.
  intros Hk. destruct e as [dis st em tm mm sb hp].
  unfold subscribed, addFilter, started, managerSetSubChannel.
  destruct k; try contradiction; simpl; rewrite !lookup_insert_eq; simpl;
    rewrite lookup_alter_eq, !lookup_insert_eq; repeat split.
Qed.

Lemma uninstallFilter_store_absent f e :
  stored (FilterStore e) !! ID f = None ->
  FilterStore (snd (uninstallFilter f e)) = FilterStore e.
Proof.
  intros Hs. destruct f as [k fid]. destruct e as [dis [mx st] em tm mm sb hp].
  simpl in Hs. unfold uninstallFilter, managerRemove, storeRemove.
  destruct k; simpl; [destruct (em !! fid)|destruct (tm !! fid)
                      |destruct (mm !! fid)|]; simpl; rewrite ?Hs; reflexivity.
Qed.

(** X16. A successful [EthSubscribe] registers the subscription under
    the identifier it returns, installs one filter with the manager of
    the event type, binds the filter to the channel of the subscription
    and leaves the Filter Store alone.  [EthUnsubscribe] of that
    identifier then answers true, forgets the subscription, stops it and
    unregisters its filter; the Filter Store is as before the two calls
    unless it held a filter with the same identifier. *)
Theorem subscribe_unsubscribe_round_trip
  (params : result string EthSubscribeParams) (o : oracle)
  (e e1 : ethEventAPI) (sid : SubID) :
  EthSubscribe ToFilecoinAddress parseEthTopics params o e = (Ok sid, e1) ->
  newUUID o = Ok sid
  /\ exists (a : nat) (f : Filter),
       heap e !! a = None
       /\ subs e1 !! sid = Some a
       /\ heap e1 !! a = Some (withFilter f (newSubscription sid))
       /\ kind f <> OtherFilter /\ installOutcome o = Ok (ID f)
       /\ managerOf (kind f) e1 !! ID f = Some (Some a)
       /\ FilterStore e1 = FilterStore e
       /\ exists e2,
            EthUnsubscribe sid e1 = ((true, None), e2)
            /\ subs e2 !! sid = None
            /\ heap e2 !! a
               = Some (stopped (withFilter f (newSubscription sid)))
            /\ managerOf (kind f) e2 !! ID f = None
            /\ (stored (FilterStore e) !! ID f = None ->
                FilterStore e2 = FilterStore e).
Proof.
  intros H.
  apply EthSubscribe_Ok in H as (Hd & _ & Hu & k & fid & Hk & Hi & ->).
  split; [exact Hu|].
  set (a := fresh (dom (heap e))).
  destruct (subscribed_facts k fid sid a e Hk) as (Hs & Hh & Hm & Hst & Hdis).
  exists a, {| kind := k; ID := fid |}. cbn [kind ID].
  split; [apply not_elem_of_dom, is_fresh|].
  split; [rewrite Hs; apply lookup_insert_eq|].
  split; [exact Hh|]. split; [exact Hk|]. split; [exact Hi|].
  split; [exact Hm|]. split; [exact Hst|].
  unfold EthUnsubscribe, StopSubscription. rewrite Hdis, Hd, Hs.
  rewrite lookup_insert_eq. eexists. split; [reflexivity|].
  unfold stop. rewrite Hh.
  change (quit (withFilter {| kind := k; ID := fid |} (newSubscription sid)))
    with true.
  change (subFilters (withFilter {| kind := k; ID := fid |}
                        (newSubscription sid)))
    with [{| kind := k; ID := fid |}].
  cbn [negb].
  set (e0 := setHeap _ (subscribed k fid sid a e)).
  destruct (uninstallAll_frame [{| kind := k; ID := fid |}] e0)
    as (Hheap & Hsubs & _).
  destruct (uninstallAll_gone [{| kind := k; ID := fid |}] e0
              {| kind := k; ID := fid |}) as [Hgone _]; [left|].
  cbn [kind ID] in Hgone.
  split; [cbn [subs setSubs]; apply lookup_delete_eq|].
  split.
  { cbn [heap setSubs]. rewrite Hheap. unfold e0. cbn [heap setHeap].
    apply lookup_insert_eq. }
  split.
  { destruct k; try contradiction; exact Hgone. }
  intros Hfresh. cbn [FilterStore setSubs].
  unfold uninstallAll. cbn [foldl].
  rewrite uninstallFilter_store_absent.
  - unfold e0. cbn [FilterStore setHeap]. exact Hst.
  - unfold e0. cbn [FilterStore setHeap ID]. rewrite Hst. exact Hfresh.
Qed.

Lemma EthSubscribe_Err params o e err e' :
  EthSubscribe ToFilecoinAddress parseEthTopics params o e = (Err err, e') ->
  e' = e
  \/ exists sid,
       newUUID o = Ok sid /\ disable e = false
       /\ (e' = started sid (fresh (dom (heap e))) e
           \/ e' = snd (EthUnsubscribe sid
                          (started sid (fresh (dom (heap e))) e))).
Proof.
  unfold EthSubscribe. destruct params as [p|cause];
    [|intros H; inversion H; left; reflexivity].
  destruct (disable e) eqn:Hd; [intros H; inversion H; left; reflexivity|].
  destruct (reverseClient o); [|intros H; inversion H; left; reflexivity].
  simpl. unfold StartSubscription.
  destruct (newUUID o) as [sid|cause] eqn:Hu;
    [|intros H; inversion H; left; reflexivity].
  fold (started sid (fresh (dom (heap e))) e).
  set (e1 := started sid (fresh (dom (heap e))) e).
  assert (Hid : subID (fresh (dom (heap e))) e1 = sid).
  { unfold subID, e1, started. simpl. rewrite lookup_insert_eq. reflexivity. }
  rewrite Hid. unfold managerInstall.
  pose proof (setManager_same TipSetFilter e1) as Hts.
  pose proof (setManager_same EventFilter e1) as Hev.
  pose proof (setManager_same MemPoolFilter e1) as Hmp.
  cbn [managerOf] in Hts, Hev, Hmp.
  intros H. right. exists sid. split; [reflexivity|]. split; [reflexivity|].
  revert H.
  destruct (String.eqb (EventType p) EthSubscribeEventTypeHeads).
  { destruct (installOutcome o) as [fid|c]; [discriminate|].
    rewrite Hts. intros H. inversion H. right. reflexivity. }
  destruct (String.eqb (EventType p) EthSubscribeEventTypeLogs).
  { destruct (match Params p with
              | Some ps => parseEthTopics (ParamTopics ps)
              | None => Ok ∅
              end); [|intros H; inversion H; right; reflexivity].
    destruct (match Params p with
              | Some ps => convertAddresses ToFilecoinAddress (ParamAddress ps) []
              | None => Ok []
              end); [|intros H; inversion H; left; reflexivity].
    destruct (installOutcome o) as [fid|c]; [discriminate|].
    rewrite Hev. intros H. inversion H. right. reflexivity. }
  destruct (String.eqb (EventType p) EthSubscribeEventTypePendingTransactions).
  { destruct (installOutcome o) as [fid|c]; [discriminate|].
    rewrite Hmp. intros H. inversion H. right. reflexivity. }
  intros H. inversion H. left. reflexivity.
Qed.

(** X25. A failed [EthSubscribe] leaves no filter behind: the Filter
    Store and the three managers are as before the call, every
    subscription that existed is unchanged, and the table of
    subscriptions is unchanged at every identifier but the one drawn for
    the new subscription. *)
Theorem failed_subscribe_leaves_no_filter
  (params : result string EthSubscribeParams) (o : oracle)
  (e e' : ethEventAPI) (err : error) :
  EthSubscribe ToFilecoinAddress parseEthTopics params o e = (Err err, e') ->
  FilterStore e' = FilterStore e
  /\ EventFilterManager e' = EventFilterManager e
  /\ TipSetFilterManager e' = TipSetFilterManager e
  /\ MemPoolFilterManager e' = MemPoolFilterManager e
  /\ (forall a sub, heap e !! a = Some sub -> heap e' !! a = Some sub)
  /\ (forall sid', newUUID o <> Ok sid' -> subs e' !! sid' = subs e !! sid').
Proof.
  intros H. apply EthSubscribe_Err in H as [->|(sid & Hu & Hd & [->| ->])].
  - repeat split; auto.
  - unfold started. cbn [FilterStore EventFilterManager TipSetFilterManager
                          MemPoolFilterManager heap subs setSubs setHeap].
    split; [reflexivity|]. split; [reflexivity|]. split; [reflexivity|].
    split; [reflexivity|]. split.
    + intros a sub Ha. rewrite lookup_insert_ne; [exact Ha|].
      intros <-. pose proof (is_fresh (dom (heap e))) as Hf.
      apply not_elem_of_dom in Hf. congruence.
    + intros sid' Hne. apply lookup_insert_ne. congruence.
  - rewrite (EthUnsubscribe_fresh sid (fresh (dom (heap e)))
               (newSubscription sid));
      [|exact Hd|apply lookup_insert_eq|apply lookup_insert_eq
       |reflexivity|reflexivity].
    unfold started. cbn [FilterStore EventFilterManager TipSetFilterManager
                          MemPoolFilterManager heap subs setSubs setHeap].
    split; [reflexivity|]. split; [reflexivity|]. split; [reflexivity|].
    split; [reflexivity|]. split.
    + intros a sub Ha. rewrite !lookup_insert_ne; [exact Ha|..];
        intros <-; pose proof (is_fresh (dom (heap e))) as Hf;
        apply not_elem_of_dom in Hf; congruence.
    + intros sid' Hne. rewrite lookup_delete_ne by congruence.
      apply lookup_insert_ne. congruence.
Qed.

(** *** Stopping *)

Lemma stop_frame a e :
  subs (stop a e) = subs e /\ disable (stop a e) = disable e
  /\ heap (stop a e)
     = match heap e !! a with
       | Some sub => if quit sub then <[a := stopped sub]> (heap e) else heap e
       | None => heap e
       end.
Proof.
  unfold stop. destruct (heap e !! a) as [sub|]; [|repeat split].
  destruct (quit sub); [|repeat split]. cbn [negb].
  destruct (uninstallAll_frame (subFilters sub)
              (setHeap (<[a:=stopped sub]> (heap e)) e)) as (-> & -> & ->).
  repeat split.
Qed.

Lemma stop_other a a' e :
  a' <> a -> heap (stop a e) !! a' = heap e !! a'.
Proof.
  intros Hne. destruct (stop_frame a e) as (_ & _ & ->).
  destruct (heap e !! a) as [sub|]; [|reflexivity].
  destruct (quit sub); [|reflexivity].
  apply lookup_insert_ne. congruence.
Qed.

(** X17. A subscription is stopped once.  Stopping a live subscription
    marks it as stopped, cancels its two stages and unregisters its
    filters, and touches no other subscription; stopping it again changes
    nothing.  After [StopSubscription] has succeeded the identifier is
    unknown: the same call fails, and [EthUnsubscribe] answers false. *)
Theorem stop_happens_once :
  (forall (a : nat) (e : ethEventAPI), stop a (stop a e) = stop a e)
  /\ (forall (a : nat) (e : ethEventAPI) (sub : ethSubscription),
        heap e !! a = Some sub -> quit sub = true ->
        heap (stop a e) !! a = Some (stopped sub)
        /\ quit (stopped sub) = false /\ cancelled (stopped sub) = true
        /\ (forall a', a' <> a -> heap (stop a e) !! a' = heap e !! a')
        /\ (forall f, f ∈ subFilters sub ->
              managerOf (kind f) (stop a e) !! ID f = None))
  /\ (forall (a : nat) (e : ethEventAPI) (sub : ethSubscription),
        heap e !! a = Some sub -> quit sub = false -> stop a e = e)
  /\ (forall (sid : SubID) (e e1 : ethEventAPI),
        StopSubscription sid e = (Ok tt, e1) ->
        StopSubscription sid e1 = (Err ErrSubscriptionNotFound, e1)
        /\ (disable e = false -> EthUnsubscribe sid e1 = ((false, None), e1))).
Proof.
  split; [|split; [|split]].
  - intros a e. destruct (stop_frame a e) as (_ & _ & Hh).
    destruct (heap e !! a) as [sub|] eqn:Ha.
    + destruct (quit sub) eqn:Hq.
      * unfold stop at 1. rewrite Hh, lookup_insert_eq. reflexivity.
      * assert (Hid : stop a e = e) by (unfold stop; rewrite Ha, Hq; reflexivity).
        rewrite Hid. exact Hid.
    + assert (Hid : stop a e = e) by (unfold stop; rewrite Ha; reflexivity).
      rewrite Hid. exact Hid.
  - intros a e sub Ha Hq. destruct (stop_frame a e) as (_ & _ & Hh).
    rewrite Ha, Hq in Hh.
    split; [rewrite Hh; apply lookup_insert_eq|].
    split; [reflexivity|]. split; [reflexivity|].
    split; [intros a' Hne; apply stop_other; exact Hne|].
    intros f Hf. unfold stop. rewrite Ha, Hq. cbn [negb].
    apply uninstallAll_gone. exact Hf.
  - intros a e sub Ha Hq. unfold stop. rewrite Ha, Hq. reflexivity.
  - intros sid e e1. unfold StopSubscription at 1.
    destruct (subs e !! sid) as [a|]; [|discriminate].
    intros H. inversion H. subst.
    assert (Hs : StopSubscription sid
                   (setSubs (delete sid (subs (stop a e))) (stop a e))
                 = (Err ErrSubscriptionNotFound,
                    setSubs (delete sid (subs (stop a e))) (stop a e))).
    { unfold StopSubscription. cbn [subs setSubs].
      rewrite lookup_delete_eq. reflexivity. }
    split; [exact Hs|]. intros Hd. unfold EthUnsubscribe.
    rewrite Hs. cbn [disable setSubs].
    destruct (stop_frame a e) as (_ & -> & _). rewrite Hd. reflexivity.
Qed.

(** *** The send queue *)

(** The front payload has been dequeued and the counter decremented. *)
Definition dequeued (sub : ethSubscription) : ethSubscription :=
  {| id := id sub; subFilters := subFilters sub;
     quit := quit sub; cancelled := cancelled sub;
     sendQueueLen := Int64.sub (sendQueueLen sub) 1;
     toSend := tail (toSend sub);
     sendCond := sendCond sub; lastSentTipset := lastSentTipset sub |}.

(** The signal on [sendCond] has been received. *)
Definition received (sub : ethSubscription) : ethSubscription :=
  {| id := id sub; subFilters := subFilters sub;
     quit := quit sub; cancelled := cancelled sub;
     sendQueueLen := sendQueueLen sub; toSend := toSend sub;
     sendCond := false; lastSentTipset := lastSentTipset sub |}.

(** The inner loop of [startOut], lines 1018-1031, for the subscription
    at [a] while no other stage runs: [pending] is the queue when the loop
    starts, [out] the callback, which answers with an error or with
    [None] for [nil].  The first component lists the payloads handed to
    the callback. *)
Fixpoint drain (out : list Byte.byte -> option string) (a : nat)
  (pending : list (list Byte.byte)) (e : ethEventAPI)
  : list (list Byte.byte) * ethEventAPI :=
  match pending with
  | [] => ([], e)
  | front :: rest =>
      let e1 := setHeap (alter dequeued a (heap e)) e in
      match out front with
      | Some _ => ([front], stop a e1)
      | None =>
          let '(sent, e2) := drain out a rest e1 in
          (front :: sent, e2)
      end
  end.

(** One turn of the outer loop of [startOut] in which the signal on
    [sendCond] is received; without a signal the stage waits. *)
Definition startOut (out : list Byte.byte -> option string) (a : nat)
  (e : ethEventAPI) : list (list Byte.byte) * ethEventAPI :=
  match heap e !! a with
  | None => ([], e)
  | Some sub =>
      if sendCond sub then
        drain out a (toSend sub) (setHeap (<[a := received sub]> (heap e)) e)
      else ([], e)
  end.

(** The counter of a live subscription is the length of its queue, and
    at most [maxSendQueue]. *)
Definition queueBounded (sub : ethSubscription) : Prop :=
  quit sub = true ->
  sendQueueLen sub = Z.of_nat (length (toSend sub))
  /\ sendQueueLen sub <= maxSendQueue.

Definition allBounded (e : ethEventAPI) : Prop :=
  forall a sub, heap e !! a = Some sub -> queueBounded sub.

(** The subscription after [send] has queued the payload [p]. *)
Definition afterSend (p : list Byte.byte) (sub : ethSubscription)
  : ethSubscription :=
  if sendQueueLen (enqueued p sub) >? maxSendQueue then
    if quit sub then stopped (enqueued p sub) else enqueued p sub
  else signalled (enqueued p sub).

Lemma send_frame a v e :
  subs (send Marshal a v e) = subs e
  /\ disable (send Marshal a v e) = disable e
  /\ heap (send Marshal a v e)
     = match heap e !! a with
       | None => heap e
       | Some sub =>
           match Marshal {| SubscriptionID := id sub; Result := v |} with
           | None => heap e
           | Some p => <[a := afterSend p sub]> (heap e)
           end
       end.
Proof.
  unfold send. destruct (heap e !! a) as [sub|] eqn:Ha; [|repeat split].
  destruct (Marshal _) as [p|]; [|repeat split].
  unfold afterSend.
  destruct (sendQueueLen (enqueued p sub) >? maxSendQueue); [|repeat split].
  destruct (stop_frame a (setHeap (<[a:=enqueued p sub]> (heap e)) e))
    as (-> & -> & ->).
  cbn [heap setHeap subs disable]. rewrite lookup_insert_eq.
  change (quit (enqueued p sub)) with (quit sub).
  destruct (quit sub); [|repeat split].
  rewrite insert_insert_eq. repeat split.
Qed.

Lemma afterSend_bounded p sub :
  queueBounded sub -> queueBounded (afterSend p sub).
Proof.
  unfold queueBounded, afterSend. intros Hb.
  assert (Hlen : quit sub = true ->
            sendQueueLen (enqueued p sub)
            = Z.of_nat (length (toSend (enqueued p sub)))
            /\ sendQueueLen (enqueued p sub) = sendQueueLen sub + 1).
  { intros Hq. destruct (Hb Hq) as [Hl Hm]. cbn [sendQueueLen toSend enqueued].
    rewrite length_app. cbn [length]. unfold Int64.add.
    rewrite Int64.signed_id.
    - lia.
    - unfold Int64.in_range, Int64.min_signed, Int64.max_signed,
        Int64.half_modulus, maxSendQueue in *. lia. }
  destruct (Z.gtb_spec (sendQueueLen (enqueued p sub)) maxSendQueue) as [Hgt|Hle].
  - destruct (quit sub) eqn:Hq; [discriminate|].
    cbn [quit enqueued]. rewrite Hq. discriminate.
  - cbn [quit signalled enqueued]. intros Hq.
    destruct (Hlen Hq) as [Hl _]. split; [exact Hl|]. exact Hle.
Qed.

Lemma send_bounded a v e : allBounded e -> allBounded (send Marshal a v e).
Proof.
  intros Hb a' sub'. destruct (send_frame a v e) as (_ & _ & ->).
  destruct (heap e !! a) as [sub|] eqn:Ha; [|apply Hb].
  destruct (Marshal _) as [p|]; [|apply Hb].
  destruct (decide (a' = a)) as [->|Hne].
  - rewrite lookup_insert_eq. intros H. inversion H.
    apply afterSend_bounded. apply (Hb a sub Ha).
  - rewrite lookup_insert_ne by congruence. apply Hb.
Qed.

Lemma sendAll_bounded a rs : forall e,
  allBounded e -> allBounded (sendAll Marshal a rs e).
Proof.
  induction rs as [|r rs IH]; intros e Hb; [exact Hb|].
  unfold sendAll. simpl. apply IH. apply send_bounded. exact Hb.
Qed.

Lemma stop_bounded a e : allBounded e -> allBounded (stop a e).
Proof.
  intros Hb a' sub'. destruct (stop_frame a e) as (_ & _ & ->).
  destruct (heap e !! a) as [sub|] eqn:Ha; [|apply Hb].
  destruct (quit sub); [|apply Hb].
  destruct (decide (a' = a)) as [->|Hne].
  - rewrite lookup_insert_eq. intros H. inversion H. intros Hq. discriminate.
  - rewrite lookup_insert_ne by congruence. apply Hb.
Qed.

Lemma alter_bounded (g : ethSubscription -> ethSubscription) a e :
  (forall sub, queueBounded sub -> queueBounded (g sub)) ->
  allBounded e -> allBounded (setHeap (alter g a (heap e)) e).
Proof.
  intros Hg Hb a' sub'. cbn [heap setHeap].
  destruct (decide (a' = a)) as [->|Hne].
  - rewrite lookup_alter_eq. destruct (heap e !! a) as [sub|] eqn:Ha;
      [|discriminate].
    intros H. inversion H. apply Hg. apply (Hb a sub Ha).
  - rewrite lookup_alter_ne by congruence. apply Hb.
Qed.

Lemma ingest_bounded a v e :
  allBounded e ->
  allBounded (ingest Marshal ChainGetTipSet newEthBlockFromFilecoinTipSet
                EthAddressFromFilecoinAddress ethTxHashFromMessageCid
                TipSetKeyCid EthHashFromCid ethTxHashFromSignedMessage a v e).
Proof.
  intros Hb. unfold ingest. destruct v as [ev|vt|msg|].
  - destruct (EventLog.ethFilterResultFromEvents _ _ _ _ _); [|exact Hb].
    apply sendAll_bounded. exact Hb.
  - destruct (TsHeight vt =? 0); [exact Hb|].
    destruct (heap e !! a) as [sub|]; [|exact Hb].
    destruct (bool_decide _); [exact Hb|].
    destruct (ChainGetTipSet _) as [parent|]; [|exact Hb].
    destruct (newEthBlockFromFilecoinTipSet parent) as [b|]; [|exact Hb].
    apply alter_bounded; [intros s Hs; exact Hs|].
    apply send_bounded. exact Hb.
  - destruct (ethFilterResultFromMessages _ _); [|exact Hb].
    apply sendAll_bounded. exact Hb.
  - exact Hb.
Qed.

Lemma dequeued_bounded sub :
  toSend sub <> [] -> queueBounded sub -> queueBounded (dequeued sub).
Proof.
  unfold queueBounded. intros Hne Hb Hq. destruct (Hb Hq) as [Hl Hm].
  cbn [sendQueueLen toSend dequeued].
  destruct (toSend sub) as [|front rest]; [contradiction|].
  cbn [length tail] in *. unfold Int64.sub. rewrite Int64.signed_id.
  - lia.
  - unfold Int64.in_range, Int64.min_signed, Int64.max_signed,
      Int64.half_modulus, maxSendQueue in *. lia.
Qed.

(** The inner loop, read back from its result. *)
Lemma drain_spec out a : forall pending e sub,
  heap e !! a = Some sub -> toSend sub = pending ->
  exists sub',
    heap (snd (drain out a pending e)) !! a = Some sub'
    /\ pending = fst (drain out a pending e) ++ toSend sub'
    /\ (toSend sub' = []
        /\ Forall (fun p => out p = None) (fst (drain out a pending e))
        /\ quit sub' = quit sub /\ cancelled sub' = cancelled sub
        \/ exists pre p cause,
             fst (drain out a pending e) = pre ++ [p]
             /\ Forall (fun p => out p = None) pre
             /\ out p = Some cause /\ quit sub' = false)
    /\ (queueBounded sub -> queueBounded sub')
    /\ (forall a', a' <> a ->
          heap (snd (drain out a pending e)) !! a' = heap e !! a')
    /\ subs (snd (drain out a pending e)) = subs e
    /\ sendCond sub' = sendCond sub.
Proof.
  induction pending as [|front rest IH]; intros e sub Ha Hp.
  - exists sub. simpl. split; [exact Ha|]. split; [symmetry; exact Hp|].
    split.
    { left. split; [exact Hp|]. split; [constructor|]. split; reflexivity. }
    split; [auto|]. split; [reflexivity|]. split; reflexivity.
  - cbn [drain].
    set (e1 := setHeap (alter dequeued a (heap e)) e).
    assert (Ha1 : heap e1 !! a = Some (dequeued sub)).
    { unfold e1. cbn [heap setHeap]. rewrite lookup_alter_eq, Ha. reflexivity. }
    assert (Ho1 : forall a', a' <> a -> heap e1 !! a' = heap e !! a').
    { intros a' Hne. unfold e1. cbn [heap setHeap].
      apply lookup_alter_ne. congruence. }
    assert (Hq1 : toSend (dequeued sub) = rest).
    { cbn [toSend dequeued]. rewrite Hp. reflexivity. }
    assert (Hb1 : queueBounded sub -> queueBounded (dequeued sub)).
    { apply dequeued_bounded. rewrite Hp. discriminate. }
    destruct (out front) as [cause|] eqn:Hout.
    + cbn [fst snd]. destruct (stop_frame a e1) as (Hs & _ & Hh).
      rewrite Ha1 in Hh.
      exists (if quit (dequeued sub) then stopped (dequeued sub)
              else dequeued sub).
      split.
      { rewrite Hh. destruct (quit (dequeued sub)); [apply lookup_insert_eq|].
        exact Ha1. }
      split.
      { destruct (quit (dequeued sub)); cbn [toSend stopped]; rewrite Hq1;
          reflexivity. }
      split.
      { right. exists [], front, cause. split; [reflexivity|].
        split; [constructor|]. split; [exact Hout|].
        destruct (quit (dequeued sub)) eqn:Hq; [reflexivity|exact Hq]. }
      split.
      { intros Hb. destruct (quit (dequeued sub)) eqn:Hq.
        - intros Hq'. discriminate.
        - apply Hb1, Hb. }
      split.
      { intros a' Hne. rewrite stop_other by exact Hne. apply Ho1, Hne. }
      split; [rewrite Hs; reflexivity|].
      destruct (quit (dequeued sub)); reflexivity.
    + destruct (IH e1 (dequeued sub) Ha1 Hq1)
        as (sub' & Hh & Hsplit & Hcase & Hb & Ho & Hs & Hc).
      destruct (drain out a rest e1) as [sent e2]. cbn [fst snd] in *.
      exists sub'. split; [exact Hh|].
      split; [rewrite Hsplit at 1; reflexivity|].
      split.
      { destruct Hcase as [(H1 & H2 & H3 & H4)|(pre & p & cause & H1 & H2 & H3 & H4)].
        - left. split; [exact H1|]. split; [constructor; assumption|].
          split; [exact H3|exact H4].
        - right. exists (front :: pre), p, cause. rewrite H1.
          split; [reflexivity|]. split; [constructor; assumption|].
          split; assumption. }
      split; [intros Hsub; apply Hb, Hb1, Hsub|].
      split; [intros a' Hne; rewrite Ho by exact Hne; apply Ho1, Hne|].
      split; [exact Hs|exact Hc].
Qed.

(** X18. The counter of a live subscription equals the length of its
    queue and is at most [maxSendQueue], so a live subscription buffers at
    most 20000 payloads.  This holds on a node without subscriptions and
    is kept by [StartSubscription], [addFilter], [send], a turn of the
    loop of [start], a turn of [startOut] and [stop]. *)
Theorem live_queue_stays_bounded :
  (forall e : ethEventAPI, heap e = ∅ -> allBounded e)
  /\ (forall (o : oracle) (e e1 : ethEventAPI) (a : nat),
        allBounded e -> StartSubscription o e = (Ok a, e1) -> allBounded e1)
  /\ (forall (a : nat) (f : Filter) (e : ethEventAPI),
        allBounded e -> allBounded (addFilter a f e))
  /\ (forall (a : nat) (v : sentValue) (e : ethEventAPI),
        allBounded e -> allBounded (send Marshal a v e))
  /\ (forall (a : nat) (v : item) (e : ethEventAPI),
        allBounded e ->
        allBounded
          (ingest Marshal ChainGetTipSet newEthBlockFromFilecoinTipSet
             EthAddressFromFilecoinAddress ethTxHashFromMessageCid
             TipSetKeyCid EthHashFromCid ethTxHashFromSignedMessage a v e))
  /\ (forall (out : list Byte.byte -> option string) (a : nat)
             (e : ethEventAPI),
        allBounded e -> allBounded (snd (startOut out a e)))
  /\ (forall (a : nat) (e : ethEventAPI),
        allBounded e -> allBounded (stop a e))
  /\ (forall (e : ethEventAPI) (a : nat) (sub : ethSubscription),
        allBounded e -> heap e !! a = Some sub -> quit sub = true ->
        Z.of_nat (length (toSend sub)) <= maxSendQueue).
Proof.
  split; [|split; [|split; [|split; [|split; [|split; [|split]]]]]].
  - intros e He a sub. rewrite He, lookup_empty. discriminate.
  - intros o e e1 a Hb. unfold StartSubscription.
    destruct (newUUID o) as [sid|]; [|discriminate].
    intros H. inversion H. subst. intros a' sub'. cbn [heap setSubs setHeap].
    destruct (decide (a' = fresh (dom (heap e)))) as [->|Hne].
    + rewrite lookup_insert_eq. intros H1. inversion H1. intros _.
      split; [reflexivity|]. unfold maxSendQueue. simpl. lia.
    + rewrite lookup_insert_ne by congruence. apply Hb.
  - intros a f e Hb. unfold addFilter.
    apply (alter_bounded (withFilter f)); [intros s Hs; exact Hs|].
    intros a' sub'. destruct e, (kind f); apply Hb.
  - intros a v e. apply send_bounded.
  - intros a v e. apply ingest_bounded.
  - intros out a e Hb. unfold startOut.
    destruct (heap e !! a) as [sub|] eqn:Ha; [|exact Hb].
    destruct (sendCond sub); [|exact Hb].
    set (e0 := setHeap (<[a:=received sub]> (heap e)) e).
    destruct (drain_spec out a (toSend sub) e0 (received sub))
      as (sub' & Hh & _ & _ & Hq & Ho & _).
    { unfold e0. cbn [heap setHeap]. apply lookup_insert_eq. }
    { reflexivity. }
    intros a' s'. destruct (decide (a' = a)) as [->|Hne].
    + rewrite Hh. intros H. inversion H. subst. apply Hq.
      apply (Hb a sub Ha).
    + rewrite Ho by exact Hne. unfold e0. cbn [heap setHeap].
      rewrite lookup_insert_ne by congruence. apply Hb.
  - intros a e. apply stop_bounded.
  - intros e a sub Hb Ha Hq. destruct (Hb a sub Ha Hq) as [Hl Hm].
    rewrite <- Hl. exact Hm.
Qed.

(** X19. A turn of [startOut] hands the queued payloads to the callback
    in the order in which they were queued, each once.  If the callback
    accepts them all the queue is empty afterwards and the subscription
    goes on; at the first payload the callback refuses the subscription is
    stopped and the payloads behind it stay in the queue.  No other
    subscription is touched, and without a signal nothing is handed
    over. *)
Theorem startOut_delivers_in_order
  (out : list Byte.byte -> option string) (a : nat) (e : ethEventAPI)
  (sub : ethSubscription) :
  heap e !! a = Some sub ->
  (sendCond sub = false -> startOut out a e = ([], e))
  /\ (sendCond sub = true ->
      exists sub',
        heap (snd (startOut out a e)) !! a = Some sub'
        /\ toSend sub = fst (startOut out a e) ++ toSend sub'
        /\ sendCond sub' = false
        /\ (toSend sub' = []
            /\ Forall (fun p => out p = None) (fst (startOut out a e))
            /\ quit sub' = quit sub /\ cancelled sub' = cancelled sub
            \/ exists pre p cause,
                 fst (startOut out a e) = pre ++ [p]
                 /\ Forall (fun p => out p = None) pre
                 /\ out p = Some cause /\ quit sub' = false)
        /\ (forall a', a' <> a ->
              heap (snd (startOut out a e)) !! a' = heap e !! a')
        /\ subs (snd (startOut out a e)) = subs e).
Proof.
  intros Ha. unfold startOut. rewrite Ha. split.
  - intros ->. reflexivity.
  - intros ->.
    set (e0 := setHeap (<[a:=received sub]> (heap e)) e).
    destruct (drain_spec out a (toSend sub) e0 (received sub))
      as (sub' & Hh & Hsplit & Hcase & _ & Ho & Hs & Hc).
    { unfold e0. cbn [heap setHeap]. apply lookup_insert_eq. }
    { reflexivity. }
    exists sub'. split; [exact Hh|]. split; [exact Hsplit|].
    split; [exact Hc|]. split; [exact Hcase|]. split; [|exact Hs].
    intros a' Hne. rewrite Ho by exact Hne. unfold e0. cbn [heap setHeap].
    apply lookup_insert_ne. congruence.
Qed.


(** *** Notifications *)

Lemma afterSend_grows p sub :
  toSend (afterSend p sub) = toSend sub ++ [p]
  /\ id (afterSend p sub) = id sub
  /\ subFilters (afterSend p sub) = subFilters sub
  /\ (quit sub = false -> quit (afterSend p sub) = false).
Proof.
  unfold afterSend.
  destruct (sendQueueLen (enqueued p sub) >? maxSendQueue);
    [destruct (quit sub) eqn:Hq|]; repeat split; try discriminate; auto.
Qed.

Lemma send_others a v e a' :
  a' <> a -> heap (send Marshal a v e) !! a' = heap e !! a'.
Proof.
  intros Hne. destruct (send_frame a v e) as (_ & _ & ->).
  destruct (heap e !! a) as [sub|]; [|reflexivity].
  destruct (Marshal _); [|reflexivity].
  apply lookup_insert_ne. congruence.
Qed.

Lemma send_grows a v e sub :
  heap e !! a = Some sub ->
  exists sub' extra,
    heap (send Marshal a v e) !! a = Some sub'
    /\ toSend sub' = toSend sub ++ extra /\ (length extra <= 1)%nat
    /\ id sub' = id sub /\ subFilters sub' = subFilters sub
    /\ (quit sub = false -> quit sub' = false).
Proof.
  intros Ha. destruct (send_frame a v e) as (_ & _ & ->). rewrite Ha.
  destruct (Marshal _) as [p|].
  - destruct (afterSend_grows p sub) as (H1 & H2 & H3 & H4).
    exists (afterSend p sub), [p]. rewrite lookup_insert_eq.
    repeat split; try assumption. simpl. lia.
  - exists sub, []. rewrite app_nil_r. repeat split; auto.
Qed.

(** X20. A turn of the loop of [start] for the subscription at [a]
    leaves the table of subscriptions and every other subscription as
    they are.  It appends at most one payload to the queue of the
    subscription, keeps its identifier and its filters, and does not
    revive a stopped subscription; a value of an unexpected type changes
    nothing. *)
Theorem notification_queues_at_most_one (a : nat) (v : item)
  (e : ethEventAPI) (sub : ethSubscription) :
  heap e !! a = Some sub ->
  subs (ingest Marshal ChainGetTipSet newEthBlockFromFilecoinTipSet
          EthAddressFromFilecoinAddress ethTxHashFromMessageCid
          TipSetKeyCid EthHashFromCid ethTxHashFromSignedMessage a v e)
  = subs e
  /\ (forall a', a' <> a ->
        heap (ingest Marshal ChainGetTipSet newEthBlockFromFilecoinTipSet
                EthAddressFromFilecoinAddress ethTxHashFromMessageCid
                TipSetKeyCid EthHashFromCid ethTxHashFromSignedMessage a v e)
          !! a' = heap e !! a')
  /\ (exists sub' extra,
        heap (ingest Marshal ChainGetTipSet newEthBlockFromFilecoinTipSet
                EthAddressFromFilecoinAddress ethTxHashFromMessageCid
                TipSetKeyCid EthHashFromCid ethTxHashFromSignedMessage a v e)
          !! a = Some sub'
        /\ toSend sub' = toSend sub ++ extra /\ (length extra <= 1)%nat
        /\ id sub' = id sub /\ subFilters sub' = subFilters sub
        /\ (quit sub = false -> quit sub' = false))
  /\ (v = ItemOther ->
      ingest Marshal ChainGetTipSet newEthBlockFromFilecoinTipSet
        EthAddressFromFilecoinAddress ethTxHashFromMessageCid
        TipSetKeyCid EthHashFromCid ethTxHashFromSignedMessage a v e = e).
Proof.
  intros Ha.
  assert (Hnone : subs e = subs e
            /\ (forall a', a' <> a -> heap e !! a' = heap e !! a')
            /\ exists sub' extra,
                 heap e !! a = Some sub'
                 /\ toSend sub' = toSend sub ++ extra
                 /\ (length extra <= 1)%nat
                 /\ id sub' = id sub /\ subFilters sub' = subFilters sub
                 /\ (quit sub = false -> quit sub' = false)).
  { split; [reflexivity|]. split; [reflexivity|]. exists sub, [].
    rewrite app_nil_r. repeat split; auto. }
  assert (Hone : forall r,
            subs (send Marshal a r e) = subs e
            /\ (forall a', a' <> a ->
                  heap (send Marshal a r e) !! a' = heap e !! a')
            /\ exists sub' extra,
                 heap (send Marshal a r e) !! a = Some sub'
                 /\ toSend sub' = toSend sub ++ extra
                 /\ (length extra <= 1)%nat
                 /\ id sub' = id sub /\ subFilters sub' = subFilters sub
                 /\ (quit sub = false -> quit sub' = false)).
  { intros r. split; [apply send_frame|].
    split; [intros a' Hne; apply send_others; exact Hne|].
    apply send_grows. exact Ha. }
  assert (Hall : forall rs, (length rs <= 1)%nat ->
            subs (sendAll Marshal a rs e) = subs e
            /\ (forall a', a' <> a ->
                  heap (sendAll Marshal a rs e) !! a' = heap e !! a')
            /\ exists sub' extra,
                 heap (sendAll Marshal a rs e) !! a = Some sub'
                 /\ toSend sub' = toSend sub ++ extra
                 /\ (length extra <= 1)%nat
                 /\ id sub' = id sub /\ subFilters sub' = subFilters sub
                 /\ (quit sub = false -> quit sub' = false)).
  { intros [|r [|r' rs]] Hl; [exact Hnone|apply Hone|simpl in Hl; lia]. }
  unfold ingest. destruct v as [ev|vt|msg|].
  - split; [|split; [|split; [|discriminate]]].
    all: unfold EventLog.ethFilterResultFromEvents,
           EventLog.ethFilterLogsFromEvents;
      destruct (EventLog.filterLogsLoop _ _ _ _ [ev] []) as [logs|] eqn:Hl;
      try apply Hnone;
      apply ResultFacts.filterLogsLoop_length in Hl; simpl in Hl;
      apply Hall; simpl; rewrite length_map; lia.
  - split; [|split; [|split; [|discriminate]]].
    all: destruct (TsHeight vt =? 0); try apply Hnone;
      rewrite Ha; destruct (bool_decide _); try apply Hnone;
      destruct (ChainGetTipSet _) as [parent|]; try apply Hnone;
      destruct (newEthBlockFromFilecoinTipSet parent) as [b|];
      try apply Hnone; cbn [subs heap setHeap].
    + apply Hone.
    + intros a' Hne. rewrite lookup_alter_ne by congruence.
      apply Hone. exact Hne.
    + destruct (Hone (SentBlock b))
        as (_ & _ & sub' & extra & H1 & H2 & H3 & H4 & H5 & H6).
      exists (withLastSent (TsParents vt) sub'), extra.
      rewrite lookup_alter_eq, H1. repeat split; assumption.
  - split; [|split; [|split; [|discriminate]]].
    all: unfold ethFilterResultFromMessages, messageHashes;
      destruct (ethTxHashFromSignedMessage msg) as [h|]; try apply Hnone;
      apply Hall; simpl; lia.
  - split; [|split; [|split; [|reflexivity]]]; apply Hnone.
Qed.


(** *** Polling a filter *)

(** Modelled from the spec: the collectors of package [filter] are not
    among the sources.  What each filter has collected since it was last
    taken; [TakeCollectedEvents], [TakeCollectedTipSets] and
    [TakeCollectedMessages] return the buffer of a filter and clear it. *)
Record buffers := {
  collectedEvents : gmap FilterID (list EventLog.CollectedEvent);
  collectedTipSets : gmap FilterID (list EventLog.TipSetKey);
  collectedMessages : gmap FilterID (list EventLog.Cid);
}.

Definition TakeCollectedEvents (fid : FilterID) (b : buffers)
  : list EventLog.CollectedEvent * buffers :=
  (default [] (collectedEvents b !! fid),
   {| collectedEvents := delete fid (collectedEvents b);
      collectedTipSets := collectedTipSets b;
      collectedMessages := collectedMessages b |}).

Definition TakeCollectedTipSets (fid : FilterID) (b : buffers)
  : list EventLog.TipSetKey * buffers :=
  (default [] (collectedTipSets b !! fid),
   {| collectedEvents := collectedEvents b;
      collectedTipSets := delete fid (collectedTipSets b);
      collectedMessages := collectedMessages b |}).

Definition TakeCollectedMessages (fid : FilterID) (b : buffers)
  : list EventLog.Cid * buffers :=
  (default [] (collectedMessages b !! fid),
   {| collectedEvents := collectedEvents b;
      collectedTipSets := collectedTipSets b;
      collectedMessages := delete fid (collectedMessages b) |}).

(** The errors of a poll: of the node, of the conversion of what was
    collected, and the ["wrong filter type"] of [EthGetFilterLogs]. *)
Inductive pollError :=
| PollFailed (err : error)
| PollConversion (cause : string)
| PollWrongFilterType.

Definition converted (r : result string EventLog.EthFilterResult)
  : result pollError EventLog.EthFilterResult :=
  match r with
  | Ok res => Ok res
  | Err cause => Err (PollConversion cause)
  end.

(** [EthGetFilterChanges]. *)
Definition EthGetFilterChanges (fid : FilterID) (e : ethEventAPI)
  (b : buffers) : result pollError EventLog.EthFilterResult * buffers :=
  if disable e then (Err (PollFailed ErrNotSupported), b)
  else
    match storeGet fid (FilterStore e) with
    | Err err => (Err (PollFailed err), b)
    | Ok f =>
        match kind f with
        | EventFilter =>
            let '(ces, b1) := TakeCollectedEvents (ID f) b in
            (converted
               (EventLog.ethFilterResultFromEvents
                  EthAddressFromFilecoinAddress ethTxHashFromMessageCid
                  TipSetKeyCid EthHashFromCid ces), b1)
        | TipSetFilter =>
            let '(tsks, b1) := TakeCollectedTipSets (ID f) b in
            (converted
               (ResultFacts.ethFilterResultFromTipSets TipSetKeyCid
                  EthHashFromCid tsks), b1)
        | MemPoolFilter =>
            let '(msgs, b1) := TakeCollectedMessages (ID f) b in
            (converted
               (ethFilterResultFromMessages ethTxHashFromSignedMessage msgs),
             b1)
        | OtherFilter => (Err (PollFailed ErrUnknownFilterType), b)
        end
    end.

(** [EthGetFilterLogs]. *)
Definition EthGetFilterLogs (fid : FilterID) (e : ethEventAPI)
  (b : buffers) : result pollError EventLog.EthFilterResult * buffers :=
  if disable e then (Err (PollFailed ErrNotSupported), b)
  else
    match storeGet fid (FilterStore e) with
    | Err err => (Err (PollFailed err), b)
    | Ok f =>
        match kind f with
        | EventFilter =>
            let '(ces, b1) := TakeCollectedEvents (ID f) b in
            (converted
               (EventLog.ethFilterResultFromEvents
                  EthAddressFromFilecoinAddress ethTxHashFromMessageCid
                  TipSetKeyCid EthHashFromCid ces), b1)
        | _ => (Err PollWrongFilterType, b)
        end
    end.

(** X21. Polling a filter the store does not hold is an error, for both
    calls.  [EthGetFilterLogs] serves event filters only, and for them it
    does what [EthGetFilterChanges] does; [EthGetFilterChanges] also
    serves block and pending transaction filters, with one hash for each
    tipset or message collected.  What a filter has collected is taken
    before it is converted: after a poll, also one whose conversion
    failed, the next poll of the same filter finds nothing. *)
Theorem polls_take_what_was_collected :
  (forall (fid : FilterID) (e : ethEventAPI) (b : buffers),
     disable e = false -> stored (FilterStore e) !! fid = None ->
     EthGetFilterChanges fid e b = (Err (PollFailed ErrFilterNotFound), b)
     /\ EthGetFilterLogs fid e b = (Err (PollFailed ErrFilterNotFound), b))
  /\ (forall (fid : FilterID) (e : ethEventAPI) (b : buffers) (f : Filter),
        disable e = false -> stored (FilterStore e) !! fid = Some f ->
        (kind f = EventFilter ->
         EthGetFilterLogs fid e b = EthGetFilterChanges fid e b)
        /\ (kind f <> EventFilter ->
            EthGetFilterLogs fid e b = (Err PollWrongFilterType, b))
        /\ (kind f <> OtherFilter ->
            EthGetFilterChanges fid e (snd (EthGetFilterChanges fid e b))
            = (Ok {| EventLog.Results := [] |},
               snd (EthGetFilterChanges fid e b)))
        /\ (forall res b1,
              EthGetFilterChanges fid e b = (Ok res, b1) ->
              kind f = TipSetFilter ->
              length (EventLog.Results res)
              = length (default [] (collectedTipSets b !! ID f)))
        /\ (forall res b1,
              EthGetFilterChanges fid e b = (Ok res, b1) ->
              kind f = MemPoolFilter ->
              length (EventLog.Results res)
              = length (default [] (collectedMessages b !! ID f)))).
Proof.
  split.
  - intros fid e b Hd Hs. unfold EthGetFilterChanges, EthGetFilterLogs, storeGet.
    rewrite Hd, Hs. split; reflexivity.
  - intros fid e b f Hd Hs.
    unfold EthGetFilterChanges, EthGetFilterLogs, storeGet.
    rewrite Hd, Hs. split; [|split; [|split; [|split]]].
    + intros ->. reflexivity.
    + intros Hk. destruct (kind f); try reflexivity. contradiction.
    + intros Hk.
      destruct (kind f); try contradiction;
        unfold TakeCollectedEvents, TakeCollectedTipSets,
          TakeCollectedMessages;
        cbn [snd fst collectedEvents collectedTipSets collectedMessages];
        rewrite lookup_delete_eq, delete_delete_eq; reflexivity.
    + intros res b1 H Hk. rewrite Hk in H. cbn in H.
      destruct (ResultFacts.ethFilterResultFromTipSets _ _ _) as [r|] eqn:Hr;
        [|discriminate].
      inversion H. subst.
      destruct (ResultFacts.tipSetHashes_spec TipSetKeyCid EthHashFromCid
                  (default [] (collectedTipSets b !! ID f)) [] res)
        as [Hspec _].
      destruct (Hspec Hr) as (hs & Hf & ->). cbn.
      rewrite length_map. symmetry. apply (Forall2_length _ _ _ Hf).
    + intros res b1 H Hk. rewrite Hk in H. cbn in H.
      destruct (ethFilterResultFromMessages _ _) as [r|] eqn:Hr;
        [|discriminate].
      inversion H. subst.
      destruct (ResultFacts.messageHashes_spec ethTxHashFromSignedMessage
                  (default [] (collectedMessages b !! ID f)) [] res)
        as [Hspec _].
      destruct (Hspec Hr) as (hs & Hf & ->). cbn.
      rewrite length_map. symmetry. apply (Forall2_length _ _ _ Hf).
Qed.

(** X22. On a node with the features switched off every call of the
    filter API is refused as not supported and changes nothing; only
    [EthSubscribe] reports parameters it cannot decode first.  The
    garbage collector does nothing. *)
Theorem disabled_node_refuses (e : ethEventAPI) :
  disable e = true ->
  (forall o filterSpec,
     EthNewFilter EthUint64FromHex ToFilecoinAddress parseEthTopics
       MaxFilterHeightRange o filterSpec e = (Err ErrNotSupported, e))
  /\ (forall o, EthNewBlockFilter o e = (Err ErrNotSupported, e))
  /\ (forall o, EthNewPendingTransactionFilter o e = (Err ErrNotSupported, e))
  /\ (forall fid, EthUninstallFilter fid e = ((false, Some ErrNotSupported), e))
  /\ (forall fid b,
        EthGetFilterChanges fid e b = (Err (PollFailed ErrNotSupported), b)
        /\ EthGetFilterLogs fid e b = (Err (PollFailed ErrNotSupported), b))
  /\ (forall p o,
        EthSubscribe ToFilecoinAddress parseEthTopics (Ok p) o e
        = (Err ErrNotSupported, e))
  /\ (forall cause o,
        EthSubscribe ToFilecoinAddress parseEthTopics (Err cause) o e
        = (Err (ErrDecodeParams cause), e))
  /\ (forall sid, EthUnsubscribe sid e = ((false, Some ErrNotSupported), e))
  /\ (forall ticks, GC ticks e = e).
Proof.
  intros Hd.
  unfold EthNewFilter, EthNewBlockFilter, EthNewPendingTransactionFilter,
    EthUninstallFilter, EthGetFilterChanges, EthGetFilterLogs, EthSubscribe,
    EthUnsubscribe, GC.
  rewrite Hd. repeat split.
Qed.

End Calls.

Lemma failed_install_leaves_no_filter_witness :
  EthNewBlockFilter sampleOracle crowdedAPI = (Err ErrStoreFull, crowdedAPI).
Proof.
  apply (proj2 (proj2 (proj2
           (failed_install_leaves_no_filter BlockRange.EthUint64FromHex
              (fun _ => None) (fun _ => Ok ∅) 50))) sampleOracle crowdedAPI
           1%N).
  - reflexivity.
  - reflexivity.
  - reflexivity.
  - apply Nat.le_0_l.
Defined.

(** The node after one value has been sent on the subscription 42. *)
Definition oneQueued : ethEventAPI :=
  send sampleMarshal 0%nat sampleHash runningAPI.

Lemma oneQueued_heap :
  heap oneQueued !! 0%nat
  = Some (signalled (enqueued [Byte.x7b; Byte.x7d] (newSubscription 42%N))).
Proof. reflexivity. Qed.

Lemma subscribe_unsubscribe_round_trip_witness :
  exists a f e2,
    subs (snd (EthSubscribe (fun _ => None) (fun _ => Ok ∅)
                 (Ok {| EventType := "newHeads"; Params := None |})
                 sampleOracle emptyAPI)) !! 42%N = Some a
    /\ kind f <> OtherFilter
    /\ EthUnsubscribe 42%N
         (snd (EthSubscribe (fun _ => None) (fun _ => Ok ∅)
                 (Ok {| EventType := "newHeads"; Params := None |})
                 sampleOracle emptyAPI))
       = ((true, None), e2).
Proof.
  destruct (subscribe_unsubscribe_round_trip (fun _ => None) (fun _ => Ok ∅)
              (Ok {| EventType := "newHeads"; Params := None |})
              sampleOracle emptyAPI
              (snd (EthSubscribe (fun _ => None) (fun _ => Ok ∅)
                      (Ok {| EventType := "newHeads"; Params := None |})
                      sampleOracle emptyAPI))
              42%N eq_refl)
    as (_ & a & f & _ & H1 & _ & H2 & _ & _ & _ & e2 & H3 & _).
  exists a, f, e2. repeat split; assumption.
Defined.

Lemma startOut_delivers_in_order_witness :
  exists sub',
    heap (snd (startOut (fun _ => None) 0%nat oneQueued)) !! 0%nat = Some sub'
    /\ [[Byte.x7b; Byte.x7d]]
       = fst (startOut (fun _ => None) 0%nat oneQueued) ++ toSend sub'
    /\ sendCond sub' = false.
Proof.
  destruct (proj2 (startOut_delivers_in_order (fun _ => None) 0%nat oneQueued
                     _ oneQueued_heap) eq_refl)
    as (sub' & H1 & H2 & H3 & _).
  exists sub'. repeat split; assumption.
Defined.

Lemma notification_queues_at_most_one_witness :
  exists sub' extra,
    heap (sampleIngest (ItemTipSet firstTipSet) oneQueued) !! 0%nat = Some sub'
    /\ toSend sub' = [[Byte.x7b; Byte.x7d]] ++ extra
    /\ (length extra <= 1)%nat.
Proof.
  destruct (notification_queues_at_most_one sampleMarshal sampleChain
              sampleBlock (fun _ => Err "no address"%string)
              (fun _ => Err "no message"%string)
              (fun _ => Err "no cid"%string) (fun _ => Err "no hash"%string)
              (fun _ => Err "no message"%string)
              0%nat (ItemTipSet firstTipSet) oneQueued _ oneQueued_heap)
    as (_ & _ & (sub' & extra & H1 & H2 & H3 & _) & _).
  exists sub', extra. repeat split; assumption.
Defined.

Lemma disabled_node_refuses_witness :
  EthNewBlockFilter sampleOracle disabledAPI = (Err ErrNotSupported, disabledAPI)
  /\ EthUnsubscribe 42%N disabledAPI
     = ((false, Some ErrNotSupported), disabledAPI).
Proof.
  destruct (disabled_node_refuses BlockRange.EthUint64FromHex (fun _ => None)
              (fun _ => Ok ∅) 50 (fun _ => Ok []) (fun _ => Ok [])
              (fun _ => Ok ""%string) (fun _ => Ok [])
              (fun _ => Ok []) disabledAPI eq_refl)
    as (_ & H1 & _ & _ & _ & _ & _ & H2 & _).
  split; [apply H1|apply H2].
Defined.

Lemma install_validates_like_parse_witness :
  installEthFilterSpec BlockRange.EthUint64FromHex (fun _ => None)
    (fun _ => Ok ∅) 50 sampleOracle HistoricQuery.sampleSpec emptyAPI
  = (Ok {| kind := EventFilter; ID := 1%N |},
     setManager EventFilter (<[1%N := None]> (EventFilterManager emptyAPI))
       emptyAPI).
Proof.
  exact (install_validates_like_parse BlockRange.EthUint64FromHex
           (fun _ => None) (fun _ => Ok ∅) 50 (fun _ => "cid"%string)
           HistoricQuery.sampleNode sampleOracle HistoricQuery.sampleSpec
           emptyAPI eq_refl eq_refl).
Defined.

Lemma uninstall_touches_one_filter_witness :
  fst (EthUninstallFilter 1%N (snd (EthNewBlockFilter sampleOracle emptyAPI)))
  = (true, None).
Proof.
  destruct (uninstall_touches_one_filter 1%N
              (snd (EthNewBlockFilter sampleOracle emptyAPI)))
    as (_ & _ & _ & H).
  destruct (H {| kind := TipSetFilter; ID := 1%N |} eq_refl) as (_ & Hok & _).
  apply Hok; [reflexivity|discriminate|reflexivity].
Defined.

Lemma failed_subscribe_leaves_no_filter_witness :
  TipSetFilterManager runningAPI = TipSetFilterManager emptyAPI
  /\ FilterStore runningAPI = FilterStore emptyAPI.
Proof.
  destruct (failed_subscribe_leaves_no_filter (fun _ => None) (fun _ => Ok ∅)
              (Ok {| EventType := "newBlocks"; Params := None |})
              sampleOracle emptyAPI runningAPI
              (ErrUnsupportedEventType "newBlocks") eq_refl)
    as (H1 & _ & H2 & _).
  split; assumption.
Defined.

End EngineFacts.
